(** * Chunked upload client: a shallow embedding of [client.go] and [utils.go]

    The development follows the two Go source files of the package
    [uploadbig].  Machine integers are modelled as [Z] with their wrap-around
    written out, Go strings as [string] (a sequence of bytes), [float64]
    values by the exact rational they denote together with the IEEE
    round-to-nearest-even step, maps as [gmap], and the methods on
    [*UploadData] as computations in a small state monad that can also
    panic. *)

From Stdlib Require Import ZArith Lia String Ascii List Bool.
From Stdlib Require Import DecimalString DecimalPos.
From stdpp Require Import base option list gmap strings.

Local Open Scope string_scope.
Local Open Scope Z_scope.
Local Open Scope list_scope.

(** ** Go machine integers *)

Module GoInt.

Definition two63 : Z := 2 ^ 63.
Definition two64 : Z := 2 ^ 64.

(** Conversion to [uint64] and arithmetic modulo [2^64]. *)
Definition to_uint64 (z : Z) : Z := z mod two64.

(** Conversion to [int64] (and to [int]: the model fixes a 64-bit
    platform, where [int] and [int64] have the same range). *)
Definition to_int64 (z : Z) : Z := (z + two63) mod two64 - two63.

Definition u64_add (a b : Z) : Z := to_uint64 (a + b).
Definition u64_sub (a b : Z) : Z := to_uint64 (a - b).
Definition u64_mul (a b : Z) : Z := to_uint64 (a * b).

Definition i64_add (a b : Z) : Z := to_int64 (a + b).
Definition i64_sub (a b : Z) : Z := to_int64 (a - b).

Definition is_uint64 (z : Z) : Prop := 0 <= z < two64.
Definition is_int64 (z : Z) : Prop := - two63 <= z < two63.

End GoInt.
Import GoInt.

(** ** Go [float64], as far as the package uses it

    The package converts integers to [float64], divides two such values,
    takes [math.Min] and [math.Ceil], and converts back.  A finite value is
    kept as the exact rational it denotes, a fraction [num / den] with
    [0 < den]; the rounding of a conversion or a division is IEEE
    round-to-nearest, ties to even, to 53 significant bits.  The exponent
    range of binary64 never binds here (an integer of 64 bits and a quotient
    of two of them are far inside the normal range), and the sign of a zero
    is not tracked (no result of the package depends on it). *)

Module F64.

Inductive float64 : Type :=
| NaN : float64
| Inf (neg : bool) : float64
| Fin (num den : Z) : float64.

(** [n / d] divided by [2^e], as a fraction again. *)
Definition scale (n d e : Z) : Z * Z :=
  if 0 <=? e then (n, d * 2 ^ e) else (n * 2 ^ (- e), d).

(** [floor (log2 (n / d))] for positive [n] and [d]. *)
Definition ilog2_ratio (n d : Z) : Z :=
  let k := Z.log2 n - Z.log2 d in
  let '(n', d') := scale n d k in
  if d' <=? n' then k else k - 1.

(** The integer nearest to [n / d], ties to even ([0 <= n], [0 < d]). *)
Definition rne_int (n d : Z) : Z :=
  let q := n / d in
  let r := n mod d in
  if 2 * r <? d then q
  else if d <? 2 * r then q + 1
  else if Z.even q then q else q + 1.

(** [m * 2^e] as a fraction. *)
Definition dyadic (m e : Z) : float64 :=
  if 0 <=? e then Fin (m * 2 ^ e) 1 else Fin m (2 ^ (- e)).

(** Rounding of the positive rational [n / d] to 53 significant bits: a
    mantissa of 53 bits at the binary exponent of [n / d]. *)
Definition round53_pos (n d : Z) : float64 :=
  let e := ilog2_ratio n d - 52 in
  let '(n', d') := scale n d e in
  dyadic (rne_int n' d') e.

Definition neg (x : float64) : float64 :=
  match x with
  | NaN => NaN
  | Inf s => Inf (negb s)
  | Fin n d => Fin (- n) d
  end.

(** Rounding of the rational [n / d], [0 < d]. *)
Definition round53 (n d : Z) : float64 :=
  if n =? 0 then Fin 0 1
  else if 0 <? n then round53_pos n d
  else neg (round53_pos (- n) d).

(** [float64(z)] for an integer [z]. *)
Definition of_int (z : Z) : float64 := round53 z 1.

(** [x / y] *)
Definition div (x y : float64) : float64 :=
  match x, y with
  | NaN, _ | _, NaN => NaN
  | Inf _, Inf _ => NaN
  | Inf s, Fin n _ => Inf (xorb s (n <? 0))
  | Fin _ _, Inf _ => Fin 0 1
  | Fin n1 d1, Fin n2 d2 =>
      if n2 =? 0 then (if n1 =? 0 then NaN else Inf (n1 <? 0))
      else if 0 <? n2 then round53 (n1 * d2) (d1 * n2)
      else round53 (- (n1 * d2)) (- (d1 * n2))
  end.

(** [x <= y] on finite values. *)
Definition fin_le (n1 d1 n2 d2 : Z) : bool := n1 * d2 <=? n2 * d1.

(** [math.Min(x, y)] *)
Definition min (x y : float64) : float64 :=
  match x, y with
  | Inf true, _ | _, Inf true => Inf true
  | NaN, _ | _, NaN => NaN
  | Inf false, _ => y
  | _, Inf false => x
  | Fin n1 d1, Fin n2 d2 => if fin_le n1 d1 n2 d2 then x else y
  end.

(** [math.Ceil(x)] *)
Definition ceil (x : float64) : float64 :=
  match x with
  | Fin n d => Fin (- ((- n) / d)) 1
  | _ => x
  end.

(** The integer part of a finite value (rounding toward zero), which is
    what a conversion to an integer type keeps. *)
Definition trunc (x : float64) : option Z :=
  match x with
  | Fin n d => Some (Z.quot n d)
  | _ => None
  end.

End F64.

(** ** What the Go specification leaves to the implementation, and the
    standard-library functions the package calls

    A conversion of a floating-point value to an integer type that cannot
    represent it succeeds, with an implementation-dependent result: the two
    [_oor] fields give that result.  [CanonicalMIMEHeaderKey] is the key
    normalisation of [http.Header.Add], [NewRequest_err] the validation of
    method and URL by [http.NewRequest] ([None] when it accepts them, the
    message of its error otherwise),
    [filepath_Base] is [filepath.Base], and [map_range] is the order in
    which a [range] loop visits a map, which the language leaves open. *)

Record Env : Type := {
  int_oor : F64.float64 -> Z;
  uint64_oor : F64.float64 -> Z;
  CanonicalMIMEHeaderKey : string -> string;
  NewRequest_err : string -> string -> option string;
  filepath_Base : string -> string;
  map_range : gmap string string -> list (string * string);
  map_range_perm : forall m, map_range m ≡ₚ map_to_list m
}.

(** [int(x)] for a [float64] [x]. *)
Definition int_of_float (E : Env) (x : F64.float64) : Z :=
  match F64.trunc x with
  | Some z => if (- two63 <=? z) && (z <? two63) then z
              else to_int64 (int_oor E x)
  | None => to_int64 (int_oor E x)
  end.

(** [uint64(x)] for a [float64] [x]. *)
Definition uint64_of_float (E : Env) (x : F64.float64) : Z :=
  match F64.trunc x with
  | Some z => if (0 <=? z) && (z <? two64) then z
              else to_uint64 (uint64_oor E x)
  | None => to_uint64 (uint64_oor E x)
  end.

(** ** Go values: errors, panics, strings *)

(** A non-nil [error] value; [error] itself adds [nil] as [None]. *)
Inductive GoError : Type :=
| ErrSyntax          (* strconv.ErrSyntax, wrapped in a *NumError *)
| ErrRange           (* strconv.ErrRange, wrapped in a *NumError *)
| ErrEOF             (* io.EOF *)
| ErrUnexpectedEOF   (* io.ErrUnexpectedEOF *)
| ErrInvalid         (* os.ErrInvalid *)
| ErrOther (msg : string).

Definition error : Type := option GoError.

(** How a call ends: with a value, with a run-time panic, or (a notion of
    the model only) with a loop still running when its fuel is spent. *)
Inductive Outcome (A : Type) : Type :=
| Val (a : A)
| Panic
| OutOfFuel.
Arguments Val {A} a.
Arguments Panic {A}.
Arguments OutOfFuel {A}.

(** [l[n]]: indexing a slice panics when the index is out of range. *)
Definition index {A : Type} (l : list A) (n : nat) : Outcome A :=
  match nth_error l n with
  | Some x => Val x
  | None => Panic
  end.

(** The byte of the double quote. *)
Definition quote_byte : ascii := ascii_of_nat 34.

(** [strings.Split(s, sep)] for a separator of one byte: the pieces of [s]
    between the occurrences of [sep]; there is always at least one piece. *)
Fixpoint Split (s : string) (sep : ascii) : list string :=
  match s with
  | EmptyString => [EmptyString]
  | String ch s' =>
      if Ascii.eqb ch sep then EmptyString :: Split s' sep
      else match Split s' sep with
           | [] => [String ch EmptyString]
           | piece :: pieces => String ch piece :: pieces
           end
  end.

(** The value of a decimal digit. *)
Definition digit_of (ch : ascii) : option Z :=
  let n := Z.of_N (N_of_ascii ch) in
  if (48 <=? n) && (n <=? 57) then Some (n - 48) else None.

(** [strconv.ParseUint(s, 10, 64)], its loop over the bytes of [s] with the
    value [n] read so far: a byte that is no digit is a syntax error, a
    value beyond [uint64] a range error, whichever comes first. *)
Fixpoint ParseUint_loop (s : string) (n : Z) : GoError + Z :=
  match s with
  | EmptyString => inr n
  | String ch s' =>
      match digit_of ch with
      | None => inl ErrSyntax
      | Some d =>
          if n >=? (two64 - 1) / 10 + 1 then inl ErrRange
          else
            let n1 := n * 10 + d in
            if n1 >? two64 - 1 then inl ErrRange
            else ParseUint_loop s' n1
      end
  end.

Definition ParseUint (s : string) : GoError + Z :=
  match s with
  | EmptyString => inl ErrSyntax
  | _ => ParseUint_loop s 0
  end.

(** [strconv.ParseInt(s, 10, 64)]: an optional sign, then [ParseUint]; the
    result must fit [int64]. *)
Definition ParseInt (s : string) : Z * error :=
  match s with
  | EmptyString => (0, Some ErrSyntax)
  | String ch rest =>
      let neg := Ascii.eqb ch "-"%char in
      let s1 := if Ascii.eqb ch "+"%char || neg then rest else s in
      match ParseUint s1 with
      | inl ErrSyntax => (0, Some ErrSyntax)
      | inl e => if neg then (- two63, Some e) else (two63 - 1, Some e)
      | inr un =>
          if negb neg && (un >=? two63) then (two63 - 1, Some ErrRange)
          else if neg && (un >? two63) then (- two63, Some ErrRange)
          else (if neg then - un else un, None)
      end
  end.

(** ** [fmt.Sprintf("%v", n)] on an integer: its decimal numeral, with a
    leading minus sign when negative. *)

Definition fmt_v (z : Z) : string := NilZero.string_of_int (Z.to_int z).

(** ** utils.go *)

(** [generateContentRange(index uint64, fileChunk int, partSize int,
    totalSize int64) string] *)
Definition generateContentRange (index fileChunk partSize totalSize : Z) : string :=
  if index =? 0 then
    "bytes 0-" +:+ fmt_v partSize +:+ "/" +:+ fmt_v totalSize
  else
    let from := u64_mul (to_uint64 fileChunk) index in
    let to := u64_mul (to_uint64 fileChunk) (u64_add index 1) in
    let to := if to >? to_uint64 totalSize
              then u64_sub (to_uint64 totalSize) 1 else to in
    "bytes " +:+ fmt_v from +:+ "-" +:+ fmt_v to +:+ "/" +:+ fmt_v totalSize.

(** The upper-case hexadecimal digit of a value below 16. *)
Definition hex_digit (n : N) : ascii :=
  ascii_of_N (if (n <? 10)%N then 48 + n else 55 + n).

(** [fmt.Sprintf("%X", b)] for a byte slice [b]: two upper-case hexadecimal
    digits for each byte, nothing between them. *)
Fixpoint Sprintf_X (b : list Byte.byte) : string :=
  match b with
  | [] => ""
  | x :: b' =>
      String (hex_digit (Byte.to_N x / 16))
        (String (hex_digit (Byte.to_N x mod 16)) (Sprintf_X b'))
  end.

(** [rand.Read(b)] on a fresh buffer of [n] bytes: the bytes the source
    delivers fill the buffer from its start; where the source fails early
    the buffer keeps its zeroes.  The error is dropped by the caller. *)
Definition rand_Read (delivered : list Byte.byte) (n : nat) : list Byte.byte :=
  take n (delivered ++ replicate n Byte.x00).

(** [generateSessionID() string] *)
Definition generateSessionID (delivered : list Byte.byte) : string :=
  Sprintf_X (rand_Read delivered 8).

(** ** client.go: the data model *)

(** [const MB = 1048576] *)
Definition MB : Z := 1048576.

(** [UploadStatus]: [Size] and [SizeTransferred] are [int64], [Parts] and
    [PartsTransferred] are [uint64]. *)
Record UploadStatus : Type := {
  Size : Z;
  SizeTransferred : Z;
  Parts : Z;
  PartsTransferred : Z;
  IsDone : bool;
  TransferredException : bool
}.

(** What [c.reader] points to once it is set. *)
Inductive Source : Type :=
| CallerReader
| FileReader (path : string).

(** [UploadData].  The [client] field is the network of the [World] below;
    the three loggers are the observation points of the model (see [log]). *)
Record UploadData : Type := {
  method : string;
  url : string;
  filePath : string;
  reader : option Source;
  id : string;
  chunkSize : Z;
  file : option string;
  Status : UploadStatus;
  additionalHeaders : option (gmap string string)
}.

(** An [http.Request] as [httpRequest] builds it; [http.Header] is a
    [map[string][]string]. *)
Record Request : Type := {
  req_method : string;
  req_url : string;
  req_header : gmap string (list string);
  req_body : list Byte.byte
}.

(** What one call of [client.Do] followed by [ioutil.ReadAll] of the body
    can bring: a transport error, or a response with its status code and a
    body that is read in full or fails to be. *)
Inductive DoOutcome : Type :=
| DoErr (e : GoError)
| DoResp (statusCode : Z) (body : GoError + string).

(** Everything outside the uploader.  [reads] and [net] script the results
    of the successive calls of [io.ReadFull] and of [client.Do], in order;
    [sent] collects the requests handed to [client.Do], oldest first, and
    [observed] the status visible at each logger call, oldest first. *)
Record World : Type := {
  os_Stat : string -> GoError + Z;
  os_Open : string -> error;
  file_Close : string -> error;
  reads : list (list Byte.byte * error);
  net : list DoOutcome;
  sent : list Request;
  observed : list UploadStatus;
  closed : list string
}.

Record State : Type := { c : UploadData; w : World }.

(** *** Field updates *)

Definition set_Size (v : Z) (s : UploadStatus) : UploadStatus :=
  {| Size := v; SizeTransferred := SizeTransferred s; Parts := Parts s;
     PartsTransferred := PartsTransferred s; IsDone := IsDone s;
     TransferredException := TransferredException s |}.

Definition set_SizeTransferred (v : Z) (s : UploadStatus) : UploadStatus :=
  {| Size := Size s; SizeTransferred := v; Parts := Parts s;
     PartsTransferred := PartsTransferred s; IsDone := IsDone s;
     TransferredException := TransferredException s |}.

Definition set_Parts (v : Z) (s : UploadStatus) : UploadStatus :=
  {| Size := Size s; SizeTransferred := SizeTransferred s; Parts := v;
     PartsTransferred := PartsTransferred s; IsDone := IsDone s;
     TransferredException := TransferredException s |}.

Definition set_PartsTransferred (v : Z) (s : UploadStatus) : UploadStatus :=
  {| Size := Size s; SizeTransferred := SizeTransferred s; Parts := Parts s;
     PartsTransferred := v; IsDone := IsDone s;
     TransferredException := TransferredException s |}.

Definition set_IsDone (v : bool) (s : UploadStatus) : UploadStatus :=
  {| Size := Size s; SizeTransferred := SizeTransferred s; Parts := Parts s;
     PartsTransferred := PartsTransferred s; IsDone := v;
     TransferredException := TransferredException s |}.

Definition set_TransferredException (v : bool) (s : UploadStatus) : UploadStatus :=
  {| Size := Size s; SizeTransferred := SizeTransferred s; Parts := Parts s;
     PartsTransferred := PartsTransferred s; IsDone := IsDone s;
     TransferredException := v |}.

Definition with_Status (f : UploadStatus -> UploadStatus) (u : UploadData) : UploadData :=
  {| method := method u; url := url u; filePath := filePath u;
     reader := reader u; id := id u; chunkSize := chunkSize u;
     file := file u; Status := f (Status u);
     additionalHeaders := additionalHeaders u |}.

Definition with_reader (r : option Source) (f : option string) (u : UploadData) : UploadData :=
  {| method := method u; url := url u; filePath := filePath u;
     reader := r; id := id u; chunkSize := chunkSize u;
     file := f; Status := Status u;
     additionalHeaders := additionalHeaders u |}.

Definition with_reads (v : list (list Byte.byte * error)) (x : World) : World :=
  {| os_Stat := os_Stat x; os_Open := os_Open x; file_Close := file_Close x;
     reads := v; net := net x; sent := sent x; observed := observed x;
     closed := closed x |}.

Definition with_net (v : list DoOutcome) (rq : Request) (x : World) : World :=
  {| os_Stat := os_Stat x; os_Open := os_Open x; file_Close := file_Close x;
     reads := reads x; net := v; sent := sent x ++ [rq];
     observed := observed x; closed := closed x |}.

Definition with_observed (v : list UploadStatus) (x : World) : World :=
  {| os_Stat := os_Stat x; os_Open := os_Open x; file_Close := file_Close x;
     reads := reads x; net := net x; sent := sent x; observed := v;
     closed := closed x |}.

Definition with_closed (v : list string) (x : World) : World :=
  {| os_Stat := os_Stat x; os_Open := os_Open x; file_Close := file_Close x;
     reads := reads x; net := net x; sent := sent x; observed := observed x;
     closed := v |}.

(** ** The monad of the methods: state passing over [State], with panics *)

Definition M (A : Type) : Type := State -> Outcome A * State.

Definition ret {A : Type} (a : A) : M A := fun st => (Val a, st).

Definition bind {A B : Type} (m : M A) (k : A -> M B) : M B :=
  fun st =>
    match m st with
    | (Val a, st') => k a st'
    | (Panic, st') => (Panic, st')
    | (OutOfFuel, st') => (OutOfFuel, st')
    end.

Notation "'let*' x ':=' m 'in' k" := (bind m (fun x => k))
  (at level 10, x pattern, m at level 200, k at level 200, only parsing).
Notation "m ;;; k" := (bind m (fun _ => k))
  (at level 100, k at level 200, right associativity, only parsing).

Definition get : M UploadData := fun st => (Val (c st), st).

Definition update (f : UploadStatus -> UploadStatus) : M unit :=
  fun st => (Val tt, {| c := with_Status f (c st); w := w st |}).

(** A pure step that may panic. *)
Definition lift {A : Type} (o : Outcome A) : M A := fun st => (o, st).

Definition out_of_fuel {A : Type} : M A := fun st => (OutOfFuel, st).

(** A logger call.  The loggers are supplied by the caller, so each call is
    a point where code of the caller runs while the upload is in progress;
    the model records the status it can read there. *)
Definition log : M unit :=
  fun st =>
    (Val tt, {| c := c st;
                w := with_observed (observed (w st) ++ [Status (c st)]) (w st) |}).

(** [defer cleanup] around [body]: [cleanup] runs when [body] returns and
    when it panics. *)
Definition defer {A : Type} (cleanup : M unit) (body : M A) : M A :=
  fun st =>
    match body st with
    | (OutOfFuel, st') => (OutOfFuel, st')
    | (r, st') =>
        match cleanup st' with
        | (Val _, st'') => (r, st'')
        | (Panic, st'') => (Panic, st'')
        | (OutOfFuel, st'') => (OutOfFuel, st'')
        end
    end.

(** *** The outside world *)

(** [io.ReadFull( *c.reader, partBuffer)]: dereferencing a nil [c.reader]
    panics; otherwise the next scripted result, and [io.EOF] once the script
    has run out. *)
Definition ReadFull (partSize : Z) : M (list Byte.byte * error) :=
  fun st =>
    match reader (c st) with
    | None => (Panic, st)
    | Some _ =>
        match reads (w st) with
        | [] => (Val ([], Some ErrEOF), st)
        | r :: rest => (Val r, {| c := c st; w := with_reads rest (w st) |})
        end
    end.

(** [client.Do(request)] and the reading of the response body: the request
    is on record as sent, and the next scripted result comes back (a
    transport error once the script has run out). *)
Definition client_Do (request : Request) : M DoOutcome :=
  fun st =>
    match net (w st) with
    | [] => (Val (DoErr (ErrOther "no response")),
             {| c := c st; w := with_net [] request (w st) |})
    | o :: rest => (Val o, {| c := c st; w := with_net rest request (w st) |})
    end.

Definition Stat (path : string) : M (GoError + Z) :=
  fun st => (Val (os_Stat (w st) path), st).

Definition Open (path : string) : M error :=
  fun st => (Val (os_Open (w st) path), st).

(** [c.file.Close()]; on a nil [*os.File] it reports [os.ErrInvalid]. *)
Definition file_close : M error :=
  fun st =>
    match file (c st) with
    | None => (Val (Some ErrInvalid), st)
    | Some path =>
        (Val (file_Close (w st) path),
         {| c := c st; w := with_closed (closed (w st) ++ [path]) (w st) |})
    end.

(** ** client.go: the functions *)

(** [calculateTransferredSize] and [parseBody] are pure; they can panic. *)

(** [parseBody(body string) (int64, error)] *)
Definition parseBody (body : string) : Outcome (Z * error) :=
  match index (Split body "/"%char) 0 with
  | Val fromTo =>
      let splitted := Split fromTo "-"%char in
      match index splitted 1 with
      | Val field =>
          let '(partTo, err) := ParseInt field in
          match err with
          | Some e => Val (0, Some e)
          | None => Val (partTo, None)
          end
      | Panic => Panic
      | OutOfFuel => OutOfFuel
      end
  | Panic => Panic
  | OutOfFuel => OutOfFuel
  end.

(** [calculateTransferredSize(body string, partSize int, status
    UploadStatus) (int64, error)] *)
Definition calculateTransferredSize (body : string) (partSize : Z)
    (status : UploadStatus) : Outcome (Z * error) :=
  if negb (String.eqb body "") then parseBody body
  else
    let result := to_int64 partSize in
    let result :=
      if i64_add result (SizeTransferred status) >? Size status
      then i64_sub (Size status) (SizeTransferred status)
      else result in
    Val (result, None).

(** [createUploader]; the session id comes from [generateSessionID], which
    draws it from [crypto/rand], and is an argument here. *)
Definition createUploader (method0 url0 : string)
    (additionalHeaders0 : option (gmap string string)) (chunkSize0 : Z)
    (sessionID : string) : UploadData :=
  {| method := method0; url := url0; filePath := ""; reader := None;
     id := sessionID; chunkSize := chunkSize0; file := None;
     Status := {| Size := 0; SizeTransferred := 0; Parts := 0;
                  PartsTransferred := 0; IsDone := false;
                  TransferredException := false |};
     additionalHeaders := additionalHeaders0 |}.

(** [NewUploaderFromReader]; a nil [reader] argument is [false]. *)
Definition NewUploaderFromReader (method0 url0 : string) (reader0 : bool)
    (size : Z) (additionalHeaders0 : option (gmap string string))
    (chunkSize0 : Z) (sessionID : string) : UploadData :=
  let uploader := createUploader method0 url0 additionalHeaders0 chunkSize0 sessionID in
  with_Status (set_Size size)
    (with_reader (if reader0 then Some CallerReader else None) None uploader).

(** [NewUploaderFromFile] *)
Definition NewUploaderFromFile (method0 url0 filePath0 : string)
    (additionalHeaders0 : option (gmap string string))
    (chunkSize0 : Z) (sessionID : string) : UploadData :=
  let uploader := createUploader method0 url0 additionalHeaders0 chunkSize0 sessionID in
  {| method := method uploader; url := url uploader; filePath := filePath0;
     reader := reader uploader; id := id uploader;
     chunkSize := chunkSize uploader; file := file uploader;
     Status := Status uploader;
     additionalHeaders := additionalHeaders uploader |}.

Section Engine.

Variable E : Env.

(** The budget of iterations given to each loop; a loop that would go on
    beyond it ends the run with [OutOfFuel]. *)
Variable fuel : nat.

(** [request.Header.Add(key, value)]: the value is appended to those held
    under the canonical form of the key. *)
Definition Header_Add (h : gmap string (list string)) (key value : string)
    : gmap string (list string) :=
  let k := CanonicalMIMEHeaderKey E key in
  <[k := (default [] (h !! k) ++ [value])%list]> h.

(** The headers [httpRequest] sets on a new request, in its order. *)
Definition request_headers (additionalHeaders0 : option (gmap string string))
    (sessionID contentRange fileName : string) : gmap string (list string) :=
  let h := Header_Add ∅ "Content-Type" "application/octet-stream" in
  let h := Header_Add h "Content-Disposition"
             ("attachment; filename=" +:+ String quote_byte (fileName +:+ String quote_byte "")) in
  let h := Header_Add h "Content-Range" contentRange in
  let h := Header_Add h "Session-ID" sessionID in
  match additionalHeaders0 with
  | Some m => foldl (fun h kv => Header_Add h kv.1 kv.2) h (map_range E m)
  | None => h
  end.

(** The method of the request [http.NewRequest] makes: an empty method
    stands for GET. *)
Definition NewRequest_method (method0 : string) : string :=
  if String.eqb method0 "" then "GET" else method0.

(** [httpRequest(method, url, additionalHeaders, client, sessionID, part,
    contentRange, fileName, debugLogger) (bool, string, error)] *)
Definition httpRequest (method0 url0 : string)
    (additionalHeaders0 : option (gmap string string))
    (sessionID : string) (part : list Byte.byte)
    (contentRange fileName : string) : M (bool * string * error) :=
  match NewRequest_err E method0 url0 with
  | Some msg => ret (false, "", Some (ErrOther msg))
  | None =>
      let request :=
        {| req_method := NewRequest_method method0; req_url := url0;
           req_header := request_headers additionalHeaders0 sessionID contentRange fileName;
           req_body := part |} in
      let* response := client_Do request in
      match response with
      | DoErr err => ret (false, "", Some err)
      | DoResp statusCode body =>
          log ;;;
          match body with
          | inl err => ret (false, "", Some err)
          | inr body =>
              log ;;;
              ret ((200 <=? statusCode) && (statusCode <=? 299), body, None)
          end
      end
  end.

(** [uploadDone(isException bool)] *)
Definition uploadDone (isException : bool) : M unit :=
  log ;;;
  update (set_IsDone true) ;;;
  update (set_TransferredException isException).

(** [(c *UploadData) checkError(err error) bool] *)
Definition checkError (err : error) : M bool :=
  match err with
  | Some _ => log ;;; uploadDone true ;;; ret true
  | None => ret false
  end.

(** The size of part [i] as [uploadChunk] computes it:
    [int(math.Ceil(math.Min(float64(chunkSize),
                            float64(Size - int64(i*uint64(chunkSize))))))]. *)
Definition partSize_of (i chunkSize0 size : Z) : Z :=
  int_of_float E
    (F64.ceil
       (F64.min (F64.of_int chunkSize0)
          (F64.of_int (i64_sub size (to_int64 (u64_mul i (to_uint64 chunkSize0))))))).

(** The retry loop of [uploadChunk]:
    [for !isSuccess && errorCount < 3 { ... }].

    The call in the source lists eight arguments for the nine parameters of
    [httpRequest]: it has none for [additionalHeaders], and nothing in the
    package reads the field [c.additionalHeaders].  The model follows the
    call: [httpRequest] gets no additional headers from it (nil). *)
Fixpoint sendLoop (n : nat) (partBuffer : list Byte.byte)
    (contentRange fileName : string)
    (isSuccess : bool) (responseBody : string) (errorCount : Z)
    : M (bool * string * Z) :=
  if negb isSuccess && (errorCount <? 3) then
    match n with
    | O => out_of_fuel
    | S n' =>
        let* u := get in
        let* (isSuccess, responseBody, err) :=
          httpRequest (method u) (url u) None (id u)
            partBuffer contentRange fileName in
        log ;;;
        let* isSuccess :=
          match err with
          | Some _ => log ;;; ret false
          | None => ret isSuccess
          end in
        let errorCount := if negb isSuccess then errorCount + 1 else errorCount in
        sendLoop n' partBuffer contentRange fileName isSuccess responseBody errorCount
    end
  else ret (isSuccess, responseBody, errorCount).

(** [(c *UploadData) uploadChunk(i uint64)].  The allocation of the buffer,
    [make([]byte, partSize)], is taken to succeed: the model sets no limit
    to the size of a buffer. *)
Definition uploadChunk (i : Z) : M unit :=
  let* u := get in
  if i =? Parts (Status u) then
    log ;;; uploadDone false
  else if TransferredException (Status u) then
    log
  else
    let fileName := filepath_Base E (filePath u) in
    let partSize := partSize_of i (chunkSize u) (Size (Status u)) in
    if partSize <=? 0 then ret tt
    else
      let* (partBuffer, err) := ReadFull partSize in
      match err with
      | Some _ => log ;;; uploadDone true
      | None =>
          log ;;;
          let contentRange :=
            generateContentRange i (chunkSize u) partSize (Size (Status u)) in
          let* (isSuccess, responseBody, _) :=
            sendLoop fuel partBuffer contentRange fileName false "" 0 in
          (if isSuccess : bool then
             let* u1 := get in
             let* (transferredBytes, err1) :=
               lift (calculateTransferredSize responseBody partSize (Status u1)) in
             let* failed := checkError err1 in
             if negb failed then
               update (fun s => set_SizeTransferred
                                  (i64_add (SizeTransferred s) transferredBytes) s) ;;;
               update (set_PartsTransferred (u64_add i 1))
             else ret tt
           else uploadDone true) ;;;
          log
      end.

(** The loop of [uploadFile]: [for !c.Status.IsDone { c.uploadChunk(i);
    i = i + 1 }]. *)
Fixpoint uploadFile_loop (n : nat) (i : Z) : M unit :=
  let* u := get in
  if negb (IsDone (Status u)) then
    match n with
    | O => out_of_fuel
    | S n' => uploadChunk i ;;; uploadFile_loop n' (u64_add i 1)
    end
  else ret tt.

(** [(c *UploadData) uploadFile()] *)
Definition uploadFile : M unit := uploadFile_loop fuel 0.

(** [(c *UploadData) Close()] *)
Definition Close : M unit :=
  log ;;;
  let* u := get in
  if negb (String.eqb (filePath u) "") then
    log ;;;
    let* err := file_close in
    match err with
    | Some _ => log
    | None => ret tt
    end
  else ret tt.

(** [uint64(math.Ceil(float64(Size) / float64(chunkSize)))] *)
Definition parts_of (size chunkSize0 : Z) : Z :=
  uint64_of_float E (F64.ceil (F64.div (F64.of_int size) (F64.of_int chunkSize0))).

(** The part of [Init] before [defer c.Close()]: for an uploader made from
    a file path, stat and open the file.  The result is the error [Init]
    returns at once, or [None] to go on. *)
Definition Init_source : M error :=
  let* u := get in
  if negb (String.eqb (filePath u) "") then
    let* fileStat := Stat (filePath u) in
    let* failed := checkError (match fileStat with inl e => Some e | inr _ => None end) in
    match fileStat with
    | inl e => ret (Some e)
    | inr size =>
        update (set_Size size) ;;;
        let* err := Open (filePath u) in
        let* failed := checkError err in
        match err with
        | Some e => ret (Some e)
        | None =>
            (fun st => (Val tt,
               {| c := with_reader (Some (FileReader (filePath u)))
                         (Some (filePath u)) (c st);
                  w := w st |})) ;;;
            ret None
        end
    end
  else ret None.

(** The part of [Init] from [defer c.Close()] on: the part count, the
    upload, and the closing of the file on the way out. *)
Definition Init_upload : M error :=
  defer Close
    (let* u := get in
     update (set_Parts (parts_of (Size (Status u)) (chunkSize u))) ;;;
     uploadFile ;;;
     log ;;;
     ret None).

(** [(c *UploadData) Init() error] *)
Definition Init : M error :=
  let* early := Init_source in
  match early with
  | Some e => ret (Some e)
  | None => Init_upload
  end.

End Engine.

(** * The vocabulary of the properties *)

(** The end of the range the spec gives for a later chunk. *)
Definition spec_range_end (index chunkSize0 totalSize : Z) : Z :=
  Z.min (chunkSize0 * (index + 1)) (totalSize - 1).

(** Whether byte [ch] occurs in [s]. *)
Fixpoint occurs (ch : ascii) (s : string) : bool :=
  match s with
  | EmptyString => false
  | String x s' => Ascii.eqb x ch || occurs ch s'
  end.

(** Header [h] holds [value] under (the canonical form of) [key]. *)
Definition carries (E : Env) (h : gmap string (list string)) (key value : string) : Prop :=
  value ∈ default [] (h !! CanonicalMIMEHeaderKey E key).

(** [triple P m Q X]: started in a state satisfying [P], the computation
    [m] ends with a value [a] in a state satisfying [Q a], or it panics or
    runs out of fuel in a state satisfying [X]. *)
Definition triple {A : Type} (P : State -> Prop) (m : M A)
    (Q : A -> State -> Prop) (X : State -> Prop) : Prop :=
  forall st, P st ->
    match m st with
    | (Val a, st') => Q a st'
    | (Panic, st') => X st'
    | (OutOfFuel, st') => X st'
    end.

(** A state predicate that looks only at the status, the chunk size, the
    list of observations and the scripted responses still to come, and that
    survives the loss of the next response. *)
Record framed (P : State -> Prop) : Prop := {
  framed_ext : forall st st',
      P st -> Status (c st') = Status (c st) ->
      chunkSize (c st') = chunkSize (c st) ->
      observed (w st') = observed (w st) ->
      net (w st') = net (w st) -> P st';
  framed_net : forall st st' o,
      P st -> Status (c st') = Status (c st) ->
      chunkSize (c st') = chunkSize (c st) ->
      observed (w st') = observed (w st) ->
      net (w st) = o :: net (w st') -> P st'
}.

(** [logged P]: [P] survives a logger call. *)
Definition logged (P : State -> Prop) : Prop :=
  forall st, P st -> P (snd (log st)).

(** What an attempt returns, against the response it got. *)
Definition attempt_of (o : DoOutcome) (r : bool * string * error) : Prop :=
  match o with
  | DoErr e => r = (false, "", Some e)
  | DoResp code (inl e) => r = (false, "", Some e)
  | DoResp code (inr body) =>
      r = ((200 <=? code) && (code <=? 299), body, None)
  end.

(** What the retry loop hands on, when it was entered with [isSuccess]
    false: a success comes with the body of a response that [Q] holds of. *)
Definition sent_result (Q : DoOutcome -> Prop) (r : bool * string * Z) : Prop :=
  r.1.1 = true ->
  exists code, Q (DoResp code (inr r.1.2)) /\ (200 <=? code) && (code <=? 299) = true.

(** The state after [uploadDone(isException)] has set its two fields. *)
Definition done_state (isException : bool) (st : State) : State :=
  {| c := with_Status (set_TransferredException isException)
            (with_Status (set_IsDone true) (c st));
     w := w st |}.

(** The state after a chunk has been recorded as transferred. *)
Definition recorded_state (i transferredBytes : Z) (st : State) : State :=
  {| c := with_Status (set_PartsTransferred (u64_add i 1))
            (with_Status (fun s => set_SizeTransferred
                                     (i64_add (SizeTransferred s) transferredBytes) s)
               (c st));
     w := w st |}.

(** The state keeps the status and the chunk size of [u]. *)
Definition same_as (u : UploadData) (st : State) : Prop :=
  Status (c st) = Status u /\ chunkSize (c st) = chunkSize u.

(** The successive reads of the status: those at the logger calls, then the
    one after the method has returned. *)
Definition reads_of (st : State) : list UploadStatus :=
  observed (w st) ++ [Status (c st)].

(** From a read that shows [IsDone], every later read returns the same
    status. *)
Definition settled (l : list UploadStatus) : Prop :=
  forall (j k : nat) (oj ok : UploadStatus),
    (j <= k)%nat -> l !! j = Some oj -> l !! k = Some ok ->
    IsDone oj = true -> ok = oj.

Definition quiet (l : list UploadStatus) : Prop :=
  Forall (fun o => IsDone o = false) l.

Definition active (st : State) : Prop :=
  quiet (observed (w st)) /\ IsDone (Status (c st)) = false.

Definition within_total (s : UploadStatus) : Prop :=
  0 <= SizeTransferred s <= Size s.

(** An accepted response (status 2xx) has an empty body. *)
Definition empty_if_accepted (o : DoOutcome) : Prop :=
  match o with
  | DoResp code (inr body) =>
      (200 <=? code) && (code <=? 299) = true -> body = ""
  | _ => True
  end.

(** The sizes are such that no addition of the default reconciliation
    leaves [int64] and the chunk size converts to [float64] exactly. *)
Definition sizes_fit (chunkSize0 size : Z) : Prop :=
  0 < chunkSize0 < 2 ^ 53 /\ 0 <= size /\ size + chunkSize0 < two63.

Definition bounded (st : State) : Prop :=
  within_total (Status (c st))
  /\ Forall within_total (observed (w st))
  /\ sizes_fit (chunkSize (c st)) (Size (Status (c st)))
  /\ Forall empty_if_accepted (net (w st)).

(** [Parts] holds what [Init] computes from [Size] and the chunk size. *)
Definition parts_set (E : Env) (st : State) : Prop :=
  Parts (Status (c st))
  = parts_of E (Size (Status (c st))) (chunkSize (c st)).

(** The source of an upload of no bytes: a caller's reader with size 0, or
    a file that stat reports empty and that opens. *)
Definition empty_source (u : UploadData) (x : World) : Prop :=
  (filePath u = "" /\ Size (Status u) = 0)
  \/ (filePath u <> "" /\ os_Stat x (filePath u) = inr 0
      /\ os_Open x (filePath u) = None).

(** Whether a response counts as a success of the attempt. *)
Definition accepted (o : DoOutcome) : bool :=
  match o with
  | DoResp code (inr _) => (200 <=? code) && (code <=? 299)
  | _ => false
  end.

(** The body an attempt hands back. *)
Definition body_of (o : DoOutcome) : string :=
  match o with
  | DoResp _ (inr body) => body
  | _ => ""
  end.

(** The error an attempt hands back. *)
Definition err_of (o : DoOutcome) : error :=
  match o with
  | DoErr e => Some e
  | DoResp _ (inl e) => Some e
  | DoResp _ (inr _) => None
  end.

(** The result of the next call of the client on a script. *)
Definition next_outcome (outcomes : list DoOutcome) : DoOutcome :=
  hd (DoErr (ErrOther "no response")) outcomes.

(** The retry policy in the words of the spec: up to [bound] attempts, one
    after the other, ending at the first that succeeds.  The result is
    whether one succeeded, the body of the last attempt, and the number of
    attempts made. *)
Fixpoint retry_policy (bound : nat) (outcomes : list DoOutcome) (body0 : string)
    : bool * string * nat :=
  match bound with
  | O => (false, body0, O)
  | S b =>
      let o := next_outcome outcomes in
      if accepted o then (true, body_of o, 1%nat)
      else
        let '(ok, body, k) := retry_policy b (tl outcomes) (body_of o) in
        (ok, body, S k)
  end.

(** The request [uploadChunk] has [httpRequest] make for a chunk of
    uploader [u]. *)
Definition chunk_request (E : Env) (u : UploadData) (part : list Byte.byte)
    (contentRange fileName : string) : Request :=
  {| req_method := NewRequest_method (method u); req_url := url u;
     req_header := request_headers E None (id u) contentRange fileName;
     req_body := part |}.

(** The ceiling of [a / b] for a positive [b]. *)
Definition ceil_div (a b : Z) : Z := - ((- a) / b).

(** An environment for the examples: conversions out of range give what
    amd64 gives; header keys are taken as canonical already and file names
    as free of directories, which the examples respect; [http.NewRequest]
    accepts. *)
Definition sample_env : Env :=
  {| int_oor := fun _ => - two63;
     uint64_oor := fun _ => two63;
     CanonicalMIMEHeaderKey := fun key => key;
     NewRequest_err := fun _ _ => None;
     filepath_Base := fun path => if (path =? "")%string then "." else path;
     map_range := map_to_list;
     map_range_perm := fun m => Permutation_refl (map_to_list m) |}.

(** A world without files, where every read of a chunk succeeds and the
    server answers as scripted. *)
Definition sample_world (chunks : list (list Byte.byte)) (outcomes : list DoOutcome)
    : World :=
  {| os_Stat := fun _ => inl (ErrOther "no such file");
     os_Open := fun _ => Some (ErrOther "no such file");
     file_Close := fun _ => None;
     reads := map (fun b => (b, None)) chunks;
     net := outcomes;
     sent := [];
     observed := [];
     closed := [] |}.

(** An upload of 250 bytes from a reader, in chunks of 100. *)
Definition sample_uploader : UploadData :=
  NewUploaderFromReader "POST" "http://host/upload" true 250 None 100
    "0123456789ABCDEF".

(** The same upload by a caller who supplies one additional header. *)
Definition sample_authorized : UploadData :=
  NewUploaderFromReader "POST" "http://host/upload" true 250
    (Some {["Authorization" := "Bearer t"]}) 100 "0123456789ABCDEF".

Definition sample_chunks : list (list Byte.byte) :=
  [replicate 100 Byte.x00; replicate 100 Byte.x00; replicate 50 Byte.x00].

(** The uploader once [Init] has set the part count. *)
Definition sample_running : UploadData :=
  with_Status (set_Parts 3) sample_uploader.

(** [m] does not leave a loop running: it never ends with [OutOfFuel]. *)
Definition finishes {A : Type} (m : M A) : Prop :=
  forall st, (m st).1 <> OutOfFuel.

(** The status keeps the part count [p]. *)
Definition parts_are (p : Z) (st : State) : Prop := Parts (Status (c st)) = p.

(** The value of the numeral [d] read after a prefix of value [acc]. *)
Fixpoint uint_value (d : Decimal.uint) (acc : Z) : Z :=
  match d with
  | Decimal.Nil => acc
  | Decimal.D0 l => uint_value l (acc * 10 + 0)
  | Decimal.D1 l => uint_value l (acc * 10 + 1)
  | Decimal.D2 l => uint_value l (acc * 10 + 2)
  | Decimal.D3 l => uint_value l (acc * 10 + 3)
  | Decimal.D4 l => uint_value l (acc * 10 + 4)
  | Decimal.D5 l => uint_value l (acc * 10 + 5)
  | Decimal.D6 l => uint_value l (acc * 10 + 6)
  | Decimal.D7 l => uint_value l (acc * 10 + 7)
  | Decimal.D8 l => uint_value l (acc * 10 + 8)
  | Decimal.D9 l => uint_value l (acc * 10 + 9)
  end.

(** Whether a character is a decimal digit. *)
Definition is_digit (ch : ascii) : bool :=
  match digit_of ch with Some _ => true | None => false end.

(** An upper-case hexadecimal digit. *)
Definition is_upper_hex (ch : ascii) : bool :=
  let n := N_of_ascii ch in
  ((48 <=? n) && (n <=? 57) || (65 <=? n) && (n <=? 70))%N.

(** The value of a hexadecimal digit. *)
Definition hex_value (ch : ascii) : N :=
  let n := N_of_ascii ch in
  (if n <=? 57 then n - 48 else n - 55)%N.

(** The bytes that a string of hexadecimal digits, two to a byte, stands
    for. *)
Fixpoint unhex (s : string) : list Byte.byte :=
  match s with
  | String hi (String lo s') =>
      match Byte.of_N (hex_value hi * 16 + hex_value lo) with
      | Some x => x :: unhex s'
      | None => []
      end
  | _ => []
  end.

(** The uploader [u'] differs from [u] in its progress at most: in
    [SizeTransferred], [PartsTransferred], [IsDone] and
    [TransferredException]. *)
Definition untouched (u u' : UploadData) : Prop :=
  method u' = method u /\ url u' = url u /\ filePath u' = filePath u
  /\ reader u' = reader u /\ id u' = id u /\ chunkSize u' = chunkSize u
  /\ file u' = file u /\ additionalHeaders u' = additionalHeaders u
  /\ Size (Status u') = Size (Status u) /\ Parts (Status u') = Parts (Status u).

(** The file system is as it was, and no file was closed. *)
Definition same_files (x x' : World) : Prop :=
  os_Stat x' = os_Stat x /\ os_Open x' = os_Open x
  /\ file_Close x' = file_Close x /\ closed x' = closed x.

(** From [st] to [st'] request [rq] was sent [k] times, each time using up
    one scripted response, and the status, itself unchanged, was observed
    [m] times. *)
Definition evolves (rq : Request) (k m : nat) (st st' : State) : Prop :=
  c st' = c st /\ reads (w st') = reads (w st) /\ same_files (w st) (w st')
  /\ sent (w st') = sent (w st) ++ replicate k rq
  /\ net (w st') = drop k (net (w st))
  /\ observed (w st') = observed (w st) ++ replicate m (Status (c st)).

(** What one call of [uploadChunk(i)] can do, however it ends: it leaves
    the configuration, the total size, the part count and the files alone;
    it sends one request, at most three times, whose body is the chunk it
    has read; it takes at most one chunk from the reader; the status is
    observed as it was and, at the end, as it has become; and the status
    has become done, or chunk [i] is recorded, or it is as it was. *)
Definition chunk_step (E : Env) (i : Z) (st st' : State) : Prop :=
  untouched (c st) (c st')
  /\ same_files (w st) (w st')
  /\ (exists (k : nat) (part : list Byte.byte),
        (k <= 3)%nat
        /\ sent (w st')
           = sent (w st)
             ++ replicate k
                  (chunk_request E (c st) part
                     (generateContentRange i (chunkSize (c st))
                        (partSize_of E i (chunkSize (c st)) (Size (Status (c st))))
                        (Size (Status (c st))))
                     (filepath_Base E (filePath (c st))))
        /\ net (w st') = drop k (net (w st))
        /\ ((0 < k)%nat -> reads (w st) = (part, None) :: reads (w st')))
  /\ (reads (w st') = reads (w st) \/ reads (w st') = tl (reads (w st)))
  /\ (exists m j : nat,
        observed (w st')
        = observed (w st) ++ replicate m (Status (c st))
            ++ replicate j (Status (c st')))
  /\ (Status (c st') = Status (c st)
      \/ (exists b, Status (c st')
                    = set_TransferredException b (set_IsDone true (Status (c st))))
      \/ (i <> Parts (Status (c st))
          /\ exists tb, Status (c st')
                        = set_PartsTransferred (u64_add i 1)
                            (set_SizeTransferred
                               (i64_add (SizeTransferred (Status (c st))) tb)
                               (Status (c st)))))
  /\ (i = Parts (Status (c st)) ->
      IsDone (Status (c st')) = true /\ sent (w st') = sent (w st)).

(** What [Close] closes: the file of an uploader made from a path. *)
Definition closing (u : UploadData) : list string :=
  if String.eqb (filePath u) "" then []
  else match file u with Some path => [path] | None => [] end.

(** The file [Init] opens: the one at [filePath], when there is a path and
    both [os.Stat] and [os.Open] succeed on it. *)
Definition opened (u : UploadData) (x : World) : list string :=
  if String.eqb (filePath u) "" then []
  else match os_Stat x (filePath u), os_Open x (filePath u) with
       | inr _, None => [filePath u]
       | _, _ => []
       end.

(** The request of chunk [i] of uploader [u], with body [part]. *)
Definition request_of (E : Env) (u : UploadData) (i : Z) (part : list Byte.byte) : Request :=
  chunk_request E u part
    (generateContentRange i (chunkSize u)
       (partSize_of E i (chunkSize u) (Size (Status u))) (Size (Status u)))
    (filepath_Base E (filePath u)).

(** The requests of an upload whose chunk [first + j] is sent [k] times with
    body [part], for the [j]-th entry [(k, part)] of [attempts]. *)
Fixpoint traffic (E : Env) (u : UploadData) (first : Z)
    (attempts : list (nat * list Byte.byte)) : list Request :=
  match attempts with
  | [] => []
  | (k, part) :: rest =>
      replicate k (request_of E u first part) ++ traffic E u (first + 1) rest
  end.

(** The bodies of these requests: [part], [k] times, for each entry
    [(k, part)] of [attempts], in order. *)
Definition payloads (attempts : list (nat * list Byte.byte)) : list (list Byte.byte) :=
  concat (map (fun a => replicate a.1 a.2) attempts).

(** The chunks of [attempts] that were sent at all, as the reader delivers
    them: without an error. *)
Definition delivered (attempts : list (nat * list Byte.byte))
    : list (list Byte.byte * error) :=
  map (fun a => (a.2, None)) (filter (fun a => (0 < a.1)%nat) attempts).

(** What the loop of [uploadFile] keeps while it sends: the requests so far
    are those of the chunks 0, 1, ... in this order, each at most three
    times; the chunks sent were read from the reader, in this order; and
    the files are as they were. *)
Definition sending (E : Env) (st0 : State) (i : Z) (st : State) : Prop :=
  untouched (c st0) (c st) /\ same_files (w st0) (w st)
  /\ exists attempts (n : nat),
       sent (w st) = sent (w st0) ++ traffic E (c st0) 0 attempts
       /\ Forall (fun a : nat * list Byte.byte => (a.1 <= 3)%nat) attempts
       /\ Z.of_nat (length attempts) <= Parts (Status (c st0))
       /\ (IsDone (Status (c st)) = false -> i = Z.of_nat (length attempts))
       /\ reads (w st) = drop n (reads (w st0))
       /\ delivered attempts `sublist_of` take n (reads (w st0)).

(** From one read of the status to a later one, [PartsTransferred] does not
    go down. *)
Definition climbing (l : list UploadStatus) : Prop :=
  forall (j k : nat) (oj ok : UploadStatus),
    (j <= k)%nat -> l !! j = Some oj -> l !! k = Some ok ->
    PartsTransferred oj <= PartsTransferred ok.

(** The count of transferred parts lies between 0 and the count of
    parts. *)
Definition parts_within (s : UploadStatus) : Prop :=
  0 <= PartsTransferred s <= Parts s.

(** What the loop of [uploadFile] keeps, at index [i], about the reads of
    the status. *)
Definition progressing (i : Z) (st : State) : Prop :=
  climbing (reads_of st) /\ Forall parts_within (reads_of st)
  /\ Parts (Status (c st)) < two64
  /\ (IsDone (Status (c st)) = false ->
      PartsTransferred (Status (c st)) <= i <= Parts (Status (c st))).

(** A response that settles a chunk: accepted, with an empty body. *)
Definition settles (o : DoOutcome) : bool :=
  accepted o && String.eqb (body_of o) "".

(** The outcomes of the attempts of a chunk that gets through: up to two
    failures, then a response that settles it. *)
Definition accepted_after (seg : list DoOutcome) : bool :=
  match seg with
  | [o] => settles o
  | [f1; o] => negb (accepted f1) && settles o
  | [f1; f2; o] => negb (accepted f1) && negb (accepted f2) && settles o
  | _ => false
  end.

(** The next three attempts all fail (a script that has run out fails every
    attempt). *)
Definition three_failures (outcomes : list DoOutcome) : bool :=
  forallb (fun o => negb (accepted o)) (take 3 outcomes).

(** An uploader about to start, whose source delivers [size] bytes: made
    from a reader with that size, or from a path that [os.Stat] reports
    with that size and [os.Open] opens.  The sizes are such that the
    arithmetic of [float64] is exact. *)
Definition ready (u : UploadData) (x : World) (size : Z) : Prop :=
  ((filePath u = "" /\ reader u <> None /\ Size (Status u) = size)
   \/ (filePath u <> "" /\ os_Stat x (filePath u) = inr size
       /\ os_Open x (filePath u) = None))
  /\ IsDone (Status u) = false /\ TransferredException (Status u) = false
  /\ SizeTransferred (Status u) = 0 /\ PartsTransferred (Status u) = 0
  /\ 0 < chunkSize u < 2 ^ 53 /\ 0 <= size < 2 ^ 53.

(** The uploader at the head of the loop of [uploadFile] with [i] chunks
    behind it. *)
Definition at_chunk (i : Z) (st : State) : Prop :=
  IsDone (Status (c st)) = false /\ TransferredException (Status (c st)) = false
  /\ 0 < chunkSize (c st) < 2 ^ 53 /\ 0 <= Size (Status (c st)) < 2 ^ 53
  /\ Parts (Status (c st)) = ceil_div (Size (Status (c st))) (chunkSize (c st))
  /\ 0 <= i <= Parts (Status (c st))
  /\ PartsTransferred (Status (c st)) = i
  /\ SizeTransferred (Status (c st)) = Z.min (i * chunkSize (c st)) (Size (Status (c st)))
  /\ reader (c st) <> None.

(** The status after chunk [i] has been recorded with the default size. *)
Definition advance (i : Z) (u : UploadData) : UploadData :=
  with_Status
    (fun s => set_PartsTransferred (i + 1)
                (set_SizeTransferred
                   (Z.min ((i + 1) * chunkSize u) (Size s)) s)) u.

(** The uploader once [Init] has set up its source and the part count. *)
Definition started (E : Env) (u : UploadData) (size : Z) : UploadData :=
  with_Status (set_Parts (parts_of E size (chunkSize u)))
    (with_Status (set_Size size) u).

(** The sample environment, but with an [http.NewRequest] that refuses a
    method with a space in it. *)
Definition strict_env : Env :=
  {| int_oor := int_oor sample_env;
     uint64_oor := uint64_oor sample_env;
     CanonicalMIMEHeaderKey := CanonicalMIMEHeaderKey sample_env;
     NewRequest_err := fun method0 _ =>
       if occurs " " method0 then Some "net/http: invalid method" else None;
     filepath_Base := filepath_Base sample_env;
     map_range := map_range sample_env;
     map_range_perm := map_range_perm sample_env |}.

(** A world with one file, "payload.bin" of 250 bytes, that opens and
    closes without error. *)
Definition sample_file_world (chunks : list (list Byte.byte)) (outcomes : list DoOutcome)
    : World :=
  {| os_Stat := fun path =>
       if String.eqb path "payload.bin" then inr 250
       else inl (ErrOther "no such file");
     os_Open := fun path =>
       if String.eqb path "payload.bin" then None
       else Some (ErrOther "no such file");
     file_Close := fun _ => None;
     reads := map (fun b => (b, None)) chunks;
     net := outcomes;
     sent := [];
     observed := [];
     closed := [] |}.

(** The world once its files are gone: [os.Stat] and [os.Open] fail on
    every path. *)
Definition without_files (x : World) : World :=
  {| os_Stat := fun _ => inl (ErrOther "no such file");
     os_Open := fun _ => Some (ErrOther "no such file");
     file_Close := file_Close x;
     reads := reads x;
     net := net x;
     sent := sent x;
     observed := observed x;
     closed := closed x |}.

(** An upload of the file "payload.bin", in chunks of 100. *)
Definition sample_file_uploader : UploadData :=
  NewUploaderFromFile "POST" "http://host/upload" "payload.bin" None 100
    "0123456789ABCDEF".

(** * Properties *)

(** ** The content range *)

Lemma to_uint64_small z : 0 <= z < two64 -> to_uint64 z = z.
Proof. intros H. unfold to_uint64. now apply Z.mod_small. Qed.

Lemma to_int64_small z : - two63 <= z < two63 -> to_int64 z = z.
Proof.
  intros H. unfold to_int64. rewrite Z.mod_small; [lia|].
  unfold two63, two64 in *. lia.
Qed.

(** C9. For chunk index 0 the content range is "bytes 0-{partSize}/{total}":
    the declared end is the part size itself.  With chunk size 100 and total
    size 250 the engine's part size for index 0 is 100 and the string is
    "bytes 0-100/250". *)
Theorem generateContentRange_first_chunk :
  (forall fileChunk partSize totalSize,
      generateContentRange 0 fileChunk partSize totalSize
      = "bytes 0-" +:+ fmt_v partSize +:+ "/" +:+ fmt_v totalSize)
  /\ (forall E, partSize_of E 0 100 250 = 100)
  /\ generateContentRange 0 100 100 250 = "bytes 0-100/250".
Proof.
  split; [|split].
  - intros. reflexivity.
  - intros E. reflexivity.
  - reflexivity.
Qed.

(** C1. The clamp of the range end compares with [>] where the claim's
    [min] needs [>=]: a last chunk that ends exactly at the end of the
    payload is not clamped.  For index 1, chunk size 100 and total size 200
    the code declares the end 200, the claim 199; a last chunk that ends
    short of a whole chunk is clamped to the total less one, as the claim
    says (249 of 250, 198 of 199). *)
Theorem generateContentRange_aligned_last_chunk :
  generateContentRange 1 100 100 200 = "bytes 100-200/200"
  /\ generateContentRange 1 100 100 200
     <> "bytes " +:+ fmt_v (100 * 1) +:+ "-"
          +:+ fmt_v (spec_range_end 1 100 200) +:+ "/" +:+ fmt_v 200
  /\ generateContentRange 2 100 50 250 = "bytes 200-249/250"
  /\ generateContentRange 1 100 99 199 = "bytes 100-198/199".
Proof. split; [reflexivity|]. split; [discriminate|]. split; reflexivity. Qed.

(** What [generateContentRange] gives for a chunk index above 0, with
    positive chunk and total sizes and no overflow of [uint64]: the range
    starts at [chunkSize * index]; it ends at
    [min (chunkSize * (index+1)) (total - 1)], except that a chunk ending
    exactly at the end of the payload declares [total] as its end. *)
Theorem generateContentRange_later_chunk (index chunkSize0 partSize totalSize : Z) :
  0 < index -> 0 < chunkSize0 -> 0 < totalSize < two63 ->
  chunkSize0 * (index + 1) < two64 ->
  generateContentRange index chunkSize0 partSize totalSize
  = "bytes " +:+ fmt_v (chunkSize0 * index) +:+ "-"
      +:+ fmt_v (if chunkSize0 * (index + 1) =? totalSize then totalSize
                 else spec_range_end index chunkSize0 totalSize)
      +:+ "/" +:+ fmt_v totalSize.
Proof.
  intros Hi Hc Ht Hn.
  assert (H63 : two63 < two64) by (unfold two63, two64; lia).
  unfold generateContentRange.
  destruct (Z.eqb_spec index 0) as [->|_]; [lia|].
  unfold u64_mul, u64_add, u64_sub.
  rewrite (to_uint64_small chunkSize0) by nia.
  rewrite (to_uint64_small totalSize) by lia.
  rewrite (to_uint64_small (index + 1)) by nia.
  rewrite (to_uint64_small (chunkSize0 * index)) by nia.
  rewrite (to_uint64_small (chunkSize0 * (index + 1))) by nia.
  rewrite (to_uint64_small (totalSize - 1)) by lia.
  unfold spec_range_end.
  do 3 f_equal.
  destruct (Z.eqb_spec (chunkSize0 * (index + 1)) totalSize) as [Heq|Hne].
  - rewrite Heq. destruct (Z.gtb_spec totalSize totalSize); [lia|reflexivity].
  - destruct (Z.gtb_spec (chunkSize0 * (index + 1)) totalSize); do 2 f_equal; lia.
Qed.

(** The instance of the spec's example: index 2, chunk size 100, total size
    250. *)
Lemma generateContentRange_later_chunk_witness :
  generateContentRange 2 100 50 250 = "bytes 200-249/250".
Proof.
  apply (generateContentRange_later_chunk 2 100 50 250);
    unfold two63, two64; lia.
Defined.

(** ** Reconciliation of the transferred size *)

Lemma Split_not_nil s sep : Split s sep <> [].
Proof.
  induction s as [|x s IH]; simpl; [discriminate|].
  destruct (Ascii.eqb x sep); [discriminate|].
  destruct (Split s sep); discriminate.
Qed.

(** Without the separator there is one piece, the string itself. *)
Lemma Split_no_sep s sep : occurs sep s = false -> Split s sep = [s].
Proof.
  induction s as [|x s IH]; simpl; intros H; [reflexivity|].
  apply orb_false_iff in H as [Hx Hs].
  rewrite Hx, (IH Hs). reflexivity.
Qed.

(** A byte of a piece is a byte of the string. *)
Lemma Split_piece_occurs ch s sep piece :
  In piece (Split s sep) -> occurs ch piece = true -> occurs ch s = true.
Proof.
  revert piece. induction s as [|x s IH]; simpl; intros piece Hin Hocc.
  - destruct Hin as [<-|[]]. discriminate.
  - destruct (Ascii.eqb x sep) eqn:Hsep.
    + destruct Hin as [<-|Hin]; [discriminate|].
      rewrite (IH _ Hin Hocc). apply orb_true_r.
    + destruct (Split s sep) as [|p ps] eqn:Hsp.
      * destruct Hin as [<-|[]]. simpl in Hocc.
        rewrite orb_false_r in Hocc. rewrite Hocc. reflexivity.
      * destruct Hin as [<-|Hin].
        -- simpl in Hocc. apply orb_true_iff in Hocc as [->|Hocc]; [reflexivity|].
           rewrite (IH p (or_introl eq_refl) Hocc). apply orb_true_r.
        -- rewrite (IH _ (or_intror Hin) Hocc). apply orb_true_r.
Qed.

Lemma parseBody_no_dash body :
  occurs "-"%char body = false -> parseBody body = Panic.
Proof.
  intros Hno. unfold parseBody.
  destruct (Split body "/"%char) as [|fromTo rest] eqn:Hsp.
  - exfalso. exact (Split_not_nil _ _ Hsp).
  - simpl.
    assert (Hft : occurs "-"%char fromTo = false).
    { destruct (occurs "-"%char fromTo) eqn:Ho; [|reflexivity].
      rewrite <- Hno. symmetry.
      apply (Split_piece_occurs _ body "/"%char fromTo); [|exact Ho].
      rewrite Hsp. left. reflexivity. }
    rewrite (Split_no_sep _ _ Hft). reflexivity.
Qed.

(** [parseBody] panics when the part of the body before its first '/' has
    no '-'. *)
Lemma parseBody_range_no_dash body :
  occurs "-" (hd "" (Split body "/")) = false -> parseBody body = Panic.
Proof.
  intros Hno. unfold parseBody.
  destruct (Split body "/"%char) as [|fromTo others] eqn:Hsp.
  - exfalso. exact (Split_not_nil _ _ Hsp).
  - cbn [hd] in Hno. simpl. rewrite (Split_no_sep _ _ Hno). reflexivity.
Qed.

(** C4. The reconciliation is not total: on a non-empty body without any
    '-' the slice [splitted] has one element and [splitted[1]] panics, where
    the claim promises a parse error. *)
Theorem calculateTransferredSize_panics_without_dash
    (body : string) (partSize : Z) (status : UploadStatus) :
  body <> "" -> occurs "-"%char body = false ->
  calculateTransferredSize body partSize status = Panic.
Proof.
  intros Hne Hno. unfold calculateTransferredSize.
  destruct (String.eqb_spec body ""); [contradiction|]. simpl.
  apply parseBody_no_dash; assumption.
Qed.

(** The body "OK", as a server might answer. *)
Lemma calculateTransferredSize_panics_without_dash_witness :
  calculateTransferredSize "OK" 100
    {| Size := 250; SizeTransferred := 0; Parts := 3; PartsTransferred := 0;
       IsDone := false; TransferredException := false |} = Panic.
Proof.
  apply calculateTransferredSize_panics_without_dash; [discriminate | reflexivity].
Defined.

(** ** The headers of a chunk request *)

Section Headers.

Variable E : Env.

Lemma Header_Add_carries h key value :
  carries E (Header_Add E h key value) key value.
Proof.
  unfold carries, Header_Add. rewrite lookup_insert_eq. simpl.
  apply elem_of_app. right. apply list_elem_of_singleton. reflexivity.
Qed.

(** [Add] appends: what a header holds it still holds afterwards, also under
    the same key. *)
Lemma Header_Add_keeps h key value key0 value0 :
  carries E h key0 value0 -> carries E (Header_Add E h key value) key0 value0.
Proof.
  unfold carries, Header_Add. intros H.
  destruct (decide (CanonicalMIMEHeaderKey E key = CanonicalMIMEHeaderKey E key0)) as [Heq|Hne].
  - rewrite Heq, lookup_insert_eq. simpl. apply elem_of_app. left. exact H.
  - rewrite lookup_insert_ne by exact Hne. exact H.
Qed.

Lemma foldl_Header_Add_keeps (l : list (string * string)) h key0 value0 :
  carries E h key0 value0 ->
  carries E (foldl (fun h kv => Header_Add E h kv.1 kv.2) h l) key0 value0.
Proof.
  revert h. induction l as [|[k v] l IH]; simpl; intros h H; [exact H|].
  apply IH. apply Header_Add_keeps. exact H.
Qed.

Lemma foldl_Header_Add_carries (l : list (string * string)) h key value :
  (key, value) ∈ l ->
  carries E (foldl (fun h kv => Header_Add E h kv.1 kv.2) h l) key value.
Proof.
  revert h. induction l as [|[k v] l IH]; simpl; intros h Hin.
  - apply elem_of_nil in Hin. contradiction.
  - apply elem_of_cons in Hin as [Heq|Hin].
    + inversion Heq; subst. apply foldl_Header_Add_keeps, Header_Add_carries.
    + apply IH. exact Hin.
Qed.

Lemma additional_headers_keep (ah : option (gmap string string)) h0 key0 value0 :
  carries E h0 key0 value0 ->
  carries E
    (match ah with
     | Some m => foldl (fun h kv => Header_Add E h kv.1 kv.2) h0 (map_range E m)
     | None => h0
     end) key0 value0.
Proof.
  intros H. destruct ah as [m|]; [|exact H].
  apply foldl_Header_Add_keeps. exact H.
Qed.

End Headers.

(** [httpRequest] by itself: the request it hands to the client (one,
    unless [http.NewRequest] refuses the method or the URL) carries the
    content type, the content disposition with the file name, the content
    range and the session id, and every entry of the additional-headers
    map it is given: [Add] appends, so an entry whose key is already
    present is kept next to the earlier value. *)
Theorem httpRequest_sends_all_headers
    (E : Env) (method0 url0 : string) (ah : option (gmap string string))
    (sessionID : string) (part : list Byte.byte) (contentRange fileName : string)
    (st : State) :
  let rq := {| req_method := NewRequest_method method0; req_url := url0;
               req_header := request_headers E ah sessionID contentRange fileName;
               req_body := part |} in
  sent (w (snd (httpRequest E method0 url0 ah sessionID part contentRange fileName st)))
  = (sent (w st) ++ match NewRequest_err E method0 url0 with
                    | None => [rq]
                    | Some _ => []
                    end)%list
  /\ carries E (req_header rq) "Content-Type" "application/octet-stream"
  /\ carries E (req_header rq) "Content-Disposition"
       ("attachment; filename=" +:+ String quote_byte (fileName +:+ String quote_byte ""))
  /\ carries E (req_header rq) "Content-Range" contentRange
  /\ carries E (req_header rq) "Session-ID" sessionID
  /\ (forall m key value,
        ah = Some m -> m !! key = Some value ->
        carries E (req_header rq) key value).
Proof.
  intros rq. split; [|split; [|split; [|split; [|split]]]].
  - unfold httpRequest. destruct (NewRequest_err E method0 url0) as [msg|].
    + simpl. rewrite app_nil_r. reflexivity.
    + fold rq. unfold bind, client_Do, log, ret.
      destruct st as [u x]. simpl.
      destruct (net x) as [|o rest]; simpl; [reflexivity|].
      destruct o as [e|code [e|body]]; reflexivity.
  - simpl. unfold request_headers. apply additional_headers_keep.
    do 3 apply Header_Add_keeps. apply Header_Add_carries.
  - simpl. unfold request_headers. apply additional_headers_keep.
    do 2 apply Header_Add_keeps. apply Header_Add_carries.
  - simpl. unfold request_headers. apply additional_headers_keep.
    apply Header_Add_keeps. apply Header_Add_carries.
  - simpl. unfold request_headers. apply additional_headers_keep.
    apply Header_Add_carries.
  - intros m key value -> Hm. simpl. unfold request_headers.
    apply foldl_Header_Add_carries.
    rewrite (map_range_perm E m). apply elem_of_map_to_list. exact Hm.
Qed.

(** ** Rounding to [float64] and back *)

Module F64Facts.
Import F64.

Lemma pow2_pos e : 0 < 2 ^ e \/ e < 0.
Proof. destruct (Z_lt_le_dec e 0); [right; lia | left; apply Z.pow_pos_nonneg; lia]. Qed.

Lemma pow2_gt0 e : 0 <= e -> 0 < 2 ^ e.
Proof. intros. apply Z.pow_pos_nonneg; lia. Qed.

Lemma pow2_add a b : 0 <= a -> 0 <= b -> 2 ^ (a + b) = 2 ^ a * 2 ^ b.
Proof. intros. apply Z.pow_add_r; lia. Qed.

Lemma pow2_succ a : 0 <= a -> 2 ^ (a + 1) = 2 * 2 ^ a.
Proof. intros. rewrite pow2_add by lia. change (2 ^ 1) with 2. lia. Qed.

(** [ilog2_ratio n d] is the binary exponent of [n / d]. *)
Lemma ilog2_ratio_spec n d :
  0 < n -> 0 < d ->
  let L := ilog2_ratio n d in
  (0 <= L /\ d * 2 ^ L <= n < d * 2 ^ (L + 1))
  \/ (L < 0 /\ d <= n * 2 ^ (- L) < 2 * d).
Proof.
  intros Hn Hd. unfold ilog2_ratio, scale.
  pose proof (Z.log2_spec n Hn) as [Hn1 Hn2].
  pose proof (Z.log2_spec d Hd) as [Hd1 Hd2].
  pose proof (Z.log2_nonneg n) as Ha. pose proof (Z.log2_nonneg d) as Hb.
  set (a := Z.log2 n) in *. set (b := Z.log2 d) in *.
  unfold Z.succ in Hn2, Hd2.
  rewrite pow2_succ in Hn2, Hd2 by lia.
  destruct (Z.leb_spec 0 (a - b)) as [Hk|Hk].
  - assert (Hab : 2 ^ a = 2 ^ b * 2 ^ (a - b)).
    { rewrite <- pow2_add by lia. f_equal. lia. }
    pose proof (pow2_gt0 (a - b) Hk) as Hp. pose proof (pow2_gt0 b Hb) as Hpb.
    destruct (Z.leb_spec (d * 2 ^ (a - b)) n) as [Ht|Ht]; cbv zeta.
    + left. split; [lia|]. split; [lia|].
      rewrite pow2_succ by lia. nia.
    + destruct (Z.eq_dec (a - b) 0) as [H0|H0].
      * right. rewrite H0 in *. change (2 ^ 0) with 1 in *.
        split; [lia|]. change (- (0 - 1)) with 1. change (2 ^ 1) with 2. lia.
      * left. split; [lia|].
        replace (a - b - 1 + 1) with (a - b) by lia.
        assert (Hh : 2 ^ (a - b) = 2 * 2 ^ (a - b - 1)).
        { rewrite <- pow2_succ by lia. f_equal. lia. }
        pose proof (pow2_gt0 (a - b - 1) ltac:(lia)). split; [nia|lia].
  - assert (Hab : 2 ^ b = 2 ^ a * 2 ^ (- (a - b))).
    { rewrite <- pow2_add by lia. f_equal. lia. }
    pose proof (pow2_gt0 (- (a - b)) ltac:(lia)) as Hp. pose proof (pow2_gt0 a Ha) as Hpa.
    destruct (Z.leb_spec d (n * 2 ^ (- (a - b)))) as [Ht|Ht]; cbv zeta.
    + right. split; [lia|]. split; [lia|]. nia.
    + right. split; [lia|].
      replace (- (a - b - 1)) with (- (a - b) + 1) by lia.
      rewrite pow2_succ by lia. split; nia.
Qed.

Lemma round53_pos_spec n d :
  0 < n -> 0 < d ->
  exists e n' d',
    round53_pos n d = dyadic (rne_int n' d') e
    /\ 0 < d' /\ 2 ^ 52 * d' <= n' < 2 ^ 53 * d'
    /\ ((0 <= e /\ n' = n /\ d' = d * 2 ^ e)
        \/ (e < 0 /\ n' = n * 2 ^ (- e) /\ d' = d)).
Proof.
  intros Hn Hd. unfold round53_pos.
  pose proof (ilog2_ratio_spec n d Hn Hd) as HL. cbv zeta in HL.
  set (L := ilog2_ratio n d) in *.
  exists (L - 52). unfold scale.
  destruct (Z.leb_spec 0 (L - 52)) as [He|He].
  - exists n, (d * 2 ^ (L - 52)). split; [reflexivity|].
    destruct HL as [[HL0 HL]|[HL0 _]]; [|lia].
    assert (Hp : 2 ^ L = 2 ^ 52 * 2 ^ (L - 52)).
    { rewrite <- pow2_add by lia. f_equal. lia. }
    rewrite pow2_succ in HL by lia.
    pose proof (pow2_gt0 (L - 52) He).
    split; [nia|]. split; [|left; lia].
    change (2 ^ 53) with (2 * 2 ^ 52). nia.
  - exists (n * 2 ^ (- (L - 52))), d. split; [reflexivity|].
    split; [lia|]. split; [|right; lia].
    destruct HL as [[HL0 HL]|[HL0 HL]].
    + assert (Hp : 2 ^ 52 = 2 ^ L * 2 ^ (- (L - 52))).
      { rewrite <- pow2_add by lia. f_equal. lia. }
      rewrite pow2_succ in HL by lia.
      pose proof (pow2_gt0 (- (L - 52)) ltac:(lia)). pose proof (pow2_gt0 L HL0).
      change (2 ^ 53) with (2 * 2 ^ 52). rewrite Hp. nia.
    + assert (Hp : 2 ^ (- (L - 52)) = 2 ^ 52 * 2 ^ (- L)).
      { rewrite <- pow2_add by lia. f_equal. lia. }
      rewrite Hp. change (2 ^ 53) with (2 * 2 ^ 52). nia.
Qed.

Lemma rne_int_spec n d :
  0 < d ->
  (rne_int n d = n / d /\ 2 * (n mod d) <= d)
  \/ (rne_int n d = n / d + 1 /\ d <= 2 * (n mod d)).
Proof.
  intros Hd. unfold rne_int.
  destruct (Z.ltb_spec (2 * (n mod d)) d); [left; lia|].
  destruct (Z.ltb_spec d (2 * (n mod d))); [right; lia|].
  destruct (Z.even (n / d)); [left|right]; lia.
Qed.

(** The ceiling of a fraction. *)
Lemma ceil_unique m P c : 0 < P -> (c - 1) * P < m <= c * P -> - ((- m) / P) = c.
Proof.
  intros HP H.
  assert (Hq : - c = (- m) / P)
    by (apply (Z.div_unique (- m) P (- c) (c * P - m)); lia).
  lia.
Qed.

Lemma ceil_bounds a b : 0 < b -> (- ((- a) / b) - 1) * b < a <= - ((- a) / b) * b.
Proof.
  intros Hb. pose proof (Z.div_mod (- a) b ltac:(lia)).
  pose proof (Z.mod_pos_bound (- a) b Hb). nia.
Qed.

(** Rounding a quotient [a / b] of integers, with [a] below [2^53], leaves
    its ceiling as it is. *)
Lemma ceil_round53_pos n d a b :
  0 < n -> 0 < d -> 0 < a < 2 ^ 53 -> 0 < b -> n * b = a * d ->
  exists N D, round53_pos n d = Fin N D /\ 0 < D
              /\ - ((- N) / D) = - ((- a) / b).
Proof.
  intros Hn Hd Ha Hb Hab.
  destruct (round53_pos_spec n d Hn Hd) as (e & n' & d' & -> & Hd' & Hn' & Hsc).
  pose proof (ceil_bounds a b Hb) as Hc. set (cc := - ((- a) / b)) in *.
  pose proof (rne_int_spec n' d' Hd') as Hm.
  pose proof (Z.div_mod n' d' ltac:(lia)) as Hqr.
  pose proof (Z.mod_pos_bound n' d' Hd') as Hr.
  set (q := n' / d') in *. set (r := n' mod d') in *. set (m := rne_int n' d') in *.
  assert (Hmain : forall P, 0 < P -> n' * b = a * d' * P -> (cc - 1) * P < m <= cc * P).
  { intros P HP H1.
    assert (HdP : 0 < d' * P) by (apply Z.mul_pos_pos; assumption).
    assert (Hu : n' <= cc * d' * P).
    { apply (Z.mul_le_mono_pos_r _ _ b Hb). rewrite H1.
      replace (cc * d' * P * b) with (cc * b * (d' * P)) by ring.
      replace (a * d' * P) with (a * (d' * P)) by ring.
      apply Z.mul_le_mono_nonneg_r; lia. }
    assert (Hl : (cc - 1) * d' * P < n').
    { apply (Z.mul_lt_mono_pos_r b); [exact Hb|]. rewrite H1.
      replace ((cc - 1) * d' * P * b) with ((cc - 1) * b * (d' * P)) by ring.
      replace (a * d' * P) with (a * (d' * P)) by ring.
      apply Z.mul_lt_mono_pos_r; lia. }
    assert (Hb2 : b < 2 * P).
    { apply (Z.mul_lt_mono_pos_l (2 ^ 52 * d')); [lia|].
      apply Z.le_lt_trans with (n' * b).
      - replace (2 ^ 52 * d' * b) with (2 ^ 52 * d' * b) by ring.
        apply Z.mul_le_mono_nonneg_r; lia.
      - rewrite H1. replace (a * d' * P) with (a * (d' * P)) by ring.
        replace (2 ^ 52 * d' * (2 * P)) with (2 ^ 53 * (d' * P))
          by (change (2 ^ 53) with (2 * 2 ^ 52); ring).
        apply Z.mul_lt_mono_pos_r; lia. }
    assert (Hq1 : q <= cc * P).
    { apply (Z.mul_le_mono_pos_l _ _ d' Hd'). lia. }
    assert (Hq2 : (cc - 1) * P <= q).
    { assert ((cc - 1) * P < q + 1); [|lia].
      apply (Z.mul_lt_mono_pos_l d'); [exact Hd'|]. lia. }
    clearbody q r m.
    split.
    - destruct Hm as [[-> Hdn]|[-> Hup]]; [|lia].
      destruct (Z.eq_dec q ((cc - 1) * P)) as [Hq|Hq]; [|lia].
      exfalso.
      assert (E1 : n' * b = d' * q * b + r * b) by (rewrite Hqr at 1; ring).
      assert (Hrb : r * b = d' * P * (a - (cc - 1) * b)).
      { rewrite Hq in E1. rewrite H1 in E1. ring_simplify. ring_simplify in E1. lia. }
      assert (Hrb2 : d' * P <= r * b).
      { rewrite Hrb. rewrite <- (Z.mul_1_r (d' * P)) at 1.
        apply Z.mul_le_mono_nonneg_l; lia. }
      assert (Hdb : d' * b < d' * (2 * P)) by (apply Z.mul_lt_mono_pos_l; lia).
      assert (H2r : d' * b < 2 * r * b) by lia.
      assert (d' < 2 * r) by (apply (Z.mul_lt_mono_pos_r b); [exact Hb|lia]).
      lia.
    - destruct Hm as [[-> _]|[-> Hup]]; [lia|].
      assert (Hlt : q * d' < cc * P * d').
      { apply Z.lt_le_trans with n'; [lia|]. lia. }
      assert (q < cc * P) by (apply (Z.mul_lt_mono_pos_r d'); [exact Hd'|exact Hlt]).
      lia. }
  unfold dyadic.
  destruct Hsc as [(He & -> & ->)|(He & -> & ->)].
  - assert (He0 : e = 0).
    { destruct (Z.eq_dec e 0) as [|Hne]; [assumption|exfalso].
      assert (He1 : 2 ^ e = 2 * 2 ^ (e - 1)).
      { rewrite <- pow2_succ by lia. f_equal. lia. }
      pose proof (pow2_gt0 (e - 1) ltac:(lia)).
      change (2 ^ 53) with (2 * 2 ^ 52) in *. nia. }
    subst e. change (2 ^ 0) with 1 in *.
    destruct (Z.leb_spec 0 0); [|lia].
    exists (m * 1), 1. split; [reflexivity|]. split; [lia|].
    apply ceil_unique; [lia|].
    specialize (Hmain 1 ltac:(lia) ltac:(lia)). lia.
  - destruct (Z.leb_spec 0 e); [lia|].
    pose proof (pow2_gt0 (- e) ltac:(lia)) as HP.
    exists m, (2 ^ (- e)). split; [reflexivity|]. split; [assumption|].
    apply ceil_unique; [assumption|].
    apply Hmain; [assumption|]. nia.
Qed.

(** A conversion from an integer gives an integer value: the integer itself
    below [2^53], and some integer from [2^53] on otherwise. *)
Lemma of_int_pos z :
  0 < z ->
  exists n d v, of_int z = Fin n d /\ 0 < d /\ n = v * d /\ 0 < v
                /\ (z < 2 ^ 53 -> v = z) /\ (2 ^ 53 <= z -> 2 ^ 53 <= v).
Proof.
  intros Hz. unfold of_int, round53.
  destruct (Z.eqb_spec z 0); [lia|]. destruct (Z.ltb_spec 0 z); [|lia].
  destruct (round53_pos_spec z 1 Hz ltac:(lia)) as (e & n' & d' & -> & Hd' & Hn' & Hsc).
  pose proof (rne_int_spec n' d' Hd') as Hm.
  pose proof (Z.div_mod n' d' ltac:(lia)) as Hqr.
  pose proof (Z.mod_pos_bound n' d' Hd') as Hr.
  unfold dyadic.
  destruct Hsc as [(He & -> & ->)|(He & -> & ->)].
  - destruct (Z.leb_spec 0 e); [|lia].
    pose proof (pow2_gt0 e He) as HP. rewrite Z.mul_1_l in *.
    exists (rne_int z (2 ^ e) * 2 ^ e), 1, (rne_int z (2 ^ e) * 2 ^ e).
    split; [reflexivity|]. split; [lia|]. split; [lia|].
    assert (Hq : 2 ^ 52 <= z / 2 ^ e) by (apply Z.div_le_lower_bound; lia).
    split; [destruct Hm as [[-> _]|[-> _]]; nia|].
    split.
    + intros Hlt. assert (e = 0).
      { destruct (Z.eq_dec e 0) as [|Hne]; [assumption|exfalso].
        assert (He1 : 2 ^ e = 2 * 2 ^ (e - 1)).
        { rewrite <- pow2_succ by lia. f_equal. lia. }
        pose proof (pow2_gt0 (e - 1) ltac:(lia)).
        change (2 ^ 53) with (2 * 2 ^ 52) in *. nia. }
      subst e. change (2 ^ 0) with 1 in *.
      rewrite Z.mod_1_r, Z.div_1_r in *. destruct Hm as [[-> _]|[_ ?]]; lia.
    + intros Hge. assert (1 <= e).
      { destruct (Z.eq_dec e 0) as [->|]; [|lia]. change (2 ^ 0) with 1 in *. lia. }
      assert (He1 : 2 ^ e = 2 * 2 ^ (e - 1)).
      { rewrite <- pow2_succ by lia. f_equal. lia. }
      pose proof (pow2_gt0 (e - 1) ltac:(lia)).
      change (2 ^ 53) with (2 * 2 ^ 52) in *.
      destruct Hm as [[-> _]|[-> _]]; nia.
  - destruct (Z.leb_spec 0 e); [lia|].
    pose proof (pow2_gt0 (- e) ltac:(lia)) as HP.
    rewrite Z.mod_1_r, Z.div_1_r in *.
    exists (z * 2 ^ (- e)), (2 ^ (- e)), z.
    destruct Hm as [[-> _]|[_ ?]]; [|lia].
    split; [reflexivity|]. split; [assumption|]. split; [reflexivity|].
    split; [assumption|]. split; [reflexivity|]. intros. nia.
Qed.

Lemma to_int64_range z : is_int64 (to_int64 z).
Proof.
  unfold is_int64, to_int64.
  pose proof (Z.mod_pos_bound (z + two63) two64 ltac:(unfold two64; lia)).
  unfold two63, two64 in *. lia.
Qed.

Lemma to_uint64_range z : is_uint64 (to_uint64 z).
Proof.
  unfold is_uint64, to_uint64. apply Z.mod_pos_bound. unfold two64. lia.
Qed.

(** The value of a conversion stays within the bounds of [int64]. *)
Lemma of_int_pos_le z :
  0 < z <= 2 ^ 63 ->
  exists n d, of_int z = Fin n d /\ 0 < d /\ 0 < n <= 2 ^ 63 * d.
Proof.
  intros Hz. unfold of_int, round53.
  destruct (Z.eqb_spec z 0); [lia|]. destruct (Z.ltb_spec 0 z); [|lia].
  destruct (round53_pos_spec z 1 ltac:(lia) ltac:(lia)) as (e & n' & d' & -> & Hd' & Hn' & Hsc).
  pose proof (rne_int_spec n' d' Hd') as Hm.
  pose proof (Z.div_mod n' d' ltac:(lia)) as Hqr.
  pose proof (Z.mod_pos_bound n' d' Hd') as Hr.
  unfold dyadic.
  destruct Hsc as [(He & -> & ->)|(He & -> & ->)].
  - destruct (Z.leb_spec 0 e); [|lia].
    pose proof (pow2_gt0 e He) as HP. rewrite Z.mul_1_l in *.
    exists (rne_int z (2 ^ e) * 2 ^ e), 1.
    split; [reflexivity|]. split; [lia|].
    assert (Hq : 2 ^ 52 <= z / 2 ^ e) by (apply Z.div_le_lower_bound; lia).
    assert (He63 : e <= 63).
    { destruct (Z_le_gt_dec e 63); [assumption|exfalso].
      assert (2 ^ e = 2 ^ 64 * 2 ^ (e - 64)) by (rewrite <- pow2_add by lia; f_equal; lia).
      pose proof (pow2_gt0 (e - 64) ltac:(lia)). nia. }
    assert (H63 : 2 ^ 63 = 2 ^ (63 - e) * 2 ^ e)
      by (rewrite <- pow2_add by lia; f_equal; lia).
    pose proof (pow2_gt0 (63 - e) ltac:(lia)) as HP2.
    set (q := z / 2 ^ e) in *. set (r := z mod 2 ^ e) in *. clearbody q r.
    destruct Hm as [[-> _]|[-> Hup]].
    + split; [nia|]. nia.
    + split; [nia|].
      assert (q < 2 ^ (63 - e)).
      { apply (Z.mul_lt_mono_pos_r (2 ^ e)); [exact HP|]. lia. }
      rewrite Z.mul_1_r. rewrite H63. apply Z.mul_le_mono_nonneg_r; lia.
  - destruct (Z.leb_spec 0 e); [lia|].
    pose proof (pow2_gt0 (- e) ltac:(lia)) as HP.
    rewrite Z.mod_1_r, Z.div_1_r in *.
    exists (z * 2 ^ (- e)), (2 ^ (- e)).
    destruct Hm as [[-> _]|[_ ?]]; [|lia].
    split; [reflexivity|]. split; [assumption|]. nia.
Qed.

Lemma of_int_range z :
  is_int64 z ->
  exists n d, of_int z = Fin n d /\ 0 < d /\ - 2 ^ 63 * d <= n <= 2 ^ 63 * d.
Proof.
  unfold is_int64, two63. intros Hz.
  destruct (Z.lt_trichotomy z 0) as [Hneg|[->|Hpos]].
  - destruct (of_int_pos_le (- z) ltac:(lia)) as (n & d & Hof & Hd & Hn).
    exists (- n), d. split; [|lia].
    unfold of_int, round53 in *.
    destruct (Z.eqb_spec z 0); [lia|]. destruct (Z.ltb_spec 0 z); [lia|].
    destruct (Z.eqb_spec (- z) 0); [lia|]. destruct (Z.ltb_spec 0 (- z)); [|lia].
    rewrite Hof. reflexivity.
  - exists 0, 1. split; [reflexivity|]. lia.
  - destruct (of_int_pos_le z ltac:(lia)) as (n & d & Hof & Hd & Hn).
    exists n, d. split; [assumption|]. lia.
Qed.

Section Computed.
Variable E : Env.

(** Below [2^53] the part count is the exact ceiling of size over chunk
    size. *)
Lemma parts_of_exact size chunk :
  0 <= size < 2 ^ 53 -> 0 < chunk ->
  parts_of E size chunk = - ((- size) / chunk).
Proof.
  intros Hs Hc. unfold parts_of.
  destruct (of_int_pos chunk Hc) as (n2 & d2 & v & -> & Hd2 & -> & Hv & Hlt & Hge).
  assert (Hn2 : 0 < v * d2) by (apply Z.mul_pos_pos; assumption).
  destruct (Z.eq_dec size 0) as [->|Hne].
  - unfold of_int, round53. simpl Z.eqb. cbv iota. unfold div.
    destruct (Z.eqb_spec (v * d2) 0); [lia|].
    destruct (Z.ltb_spec 0 (v * d2)); [|lia].
    unfold round53. simpl. reflexivity.
  - destruct (of_int_pos size ltac:(lia)) as (n1 & d1 & v1 & -> & Hd1 & -> & Hv1 & Hlt1 & _).
    rewrite (Hlt1 ltac:(lia)) in *. clear Hlt1 v1.
    unfold div.
    destruct (Z.eqb_spec (v * d2) 0); [lia|].
    destruct (Z.ltb_spec 0 (v * d2)); [|lia].
    unfold round53.
    assert (Hn : 0 < size * d1 * d2) by (repeat apply Z.mul_pos_pos; lia).
    destruct (Z.eqb_spec (size * d1 * d2) 0); [lia|].
    destruct (Z.ltb_spec 0 (size * d1 * d2)); [|lia].
    destruct (ceil_round53_pos (size * d1 * d2) (d1 * (v * d2)) size v)
      as (N & D & -> & HD & Hceil); [lia| |lia|lia|ring|].
    { repeat apply Z.mul_pos_pos; lia. }
    unfold ceil, uint64_of_float, trunc. rewrite Hceil.
    pose proof (ceil_bounds size v Hv) as Hcb.
    set (cc := - ((- size) / v)) in *.
    assert (Hcc : 1 <= cc <= size) by nia.
    rewrite Z.quot_1_r.
    destruct (Z.leb_spec 0 cc); [|lia].
    destruct (Z.ltb_spec cc two64); [|unfold two64 in *; lia].
    simpl. symmetry.
    destruct (Z_lt_le_dec chunk (2 ^ 53)) as [Hsmall|Hbig].
    + subst cc. rewrite (Hlt Hsmall). reflexivity.
    + specialize (Hge Hbig).
      rewrite (ceil_unique size chunk 1) by lia.
      subst cc. symmetry. apply ceil_unique; lia.
Qed.

(** With a chunk size below [2^53] a part is never larger than a chunk. *)
Lemma partSize_of_le i chunk size :
  0 < chunk < 2 ^ 53 -> partSize_of E i chunk size <= chunk.
Proof.
  intros Hc. unfold partSize_of.
  set (rem := i64_sub size _).
  assert (Hrem : is_int64 rem) by apply to_int64_range.
  destruct (of_int_pos chunk ltac:(lia)) as (n1 & d1 & v & -> & Hd1 & -> & Hv & Hlt & _).
  rewrite (Hlt ltac:(lia)) in *. clear Hlt v.
  destruct (of_int_range rem Hrem) as (n2 & d2 & -> & Hd2 & Hn2).
  unfold min, fin_le.
  assert (Hfin : forall n d, 0 < d -> - 2 ^ 63 * d <= n -> n * d1 <= chunk * d1 * d ->
             int_of_float E (ceil (Fin n d)) <= chunk).
  { intros n d Hd Hlo Hhi. unfold int_of_float, ceil, trunc.
    rewrite Z.quot_1_r.
    pose proof (ceil_bounds n d Hd) as Hcb. set (cc := - ((- n) / d)) in *.
    assert (Hle : n <= chunk * d).
    { apply (Z.mul_le_mono_pos_r _ _ d1 Hd1). lia. }
    assert (Hcc1 : cc <= chunk).
    { assert ((cc - 1) * d < chunk * d) by lia.
      assert (cc - 1 < chunk) by (apply (Z.mul_lt_mono_pos_r d); assumption). lia. }
    assert (Hcc2 : - 2 ^ 63 <= cc).
    { assert (- 2 ^ 63 * d <= cc * d) by lia.
      apply (Z.mul_le_mono_pos_r _ _ d Hd). assumption. }
    unfold two63.
    destruct (Z.leb_spec (- 2 ^ 63) cc); [|lia].
    destruct (Z.ltb_spec cc (2 ^ 63)); [|lia]. simpl. exact Hcc1. }
  destruct (Z.leb_spec (chunk * d1 * d2) (n2 * d1)).
  - apply Hfin; [assumption|nia|lia].
  - apply Hfin; [assumption|lia|lia].
Qed.

Lemma partSize_of_int64 i chunk size : is_int64 (partSize_of E i chunk size).
Proof.
  unfold partSize_of, int_of_float.
  destruct (trunc _) as [z|]; [|apply to_int64_range].
  destruct (Z.leb_spec (- two63) z); simpl; [|apply to_int64_range].
  destruct (Z.ltb_spec z two63); simpl; [|apply to_int64_range].
  unfold is_int64. lia.
Qed.

End Computed.

End F64Facts.

Import F64Facts.

(** ** A program logic for the methods *)

Section Logic.

Context {A B : Type}.

Lemma triple_ret (a : A) (P : State -> Prop) Q X :
  (forall st, P st -> Q a st) -> triple P (ret a) Q X.
Proof. intros H st HP. simpl. auto. Qed.

Lemma triple_bind (m : M A) (k : A -> M B) P Q1 Q X :
  triple P m Q1 X -> (forall a, triple (Q1 a) (k a) Q X) ->
  triple P (bind m k) Q X.
Proof.
  intros Hm Hk st HP. unfold bind. specialize (Hm st HP).
  destruct (m st) as [[a| |] st']; [|assumption..].
  apply Hk. assumption.
Qed.

Lemma triple_weaken (m : M A) (P P' : State -> Prop) (Q Q' : A -> State -> Prop) (X X' : State -> Prop) :
  triple P' m Q' X' ->
  (forall st, P st -> P' st) -> (forall a st, Q' a st -> Q a st) ->
  (forall st, X' st -> X st) ->
  triple P m Q X.
Proof.
  intros Hm HP HQ HX st Hst. specialize (Hm st (HP st Hst)).
  destruct (m st) as [[a| |] st']; auto.
Qed.

Lemma triple_pre (m : M A) (P P' : State -> Prop) Q X :
  triple P' m Q X -> (forall st, P st -> P' st) -> triple P m Q X.
Proof. intros Hm HP st Hst. exact (Hm st (HP st Hst)). Qed.

Lemma triple_post (m : M A) (P : State -> Prop) (Q Q' : A -> State -> Prop) X :
  triple P m Q' X -> (forall a st, Q' a st -> Q a st) -> triple P m Q X.
Proof.
  intros Hm HQ st Hst. specialize (Hm st Hst).
  destruct (m st) as [[a| |] st']; auto.
Qed.

Lemma triple_conj (m : M A) P1 P2 (Q1 Q2 : A -> State -> Prop) X1 X2 :
  triple P1 m Q1 X1 -> triple P2 m Q2 X2 ->
  triple (fun st => P1 st /\ P2 st) m (fun a st => Q1 a st /\ Q2 a st)
         (fun st => X1 st /\ X2 st).
Proof.
  intros H1 H2 st [Hp1 Hp2]. specialize (H1 st Hp1). specialize (H2 st Hp2).
  destruct (m st) as [[a| |] st']; auto.
Qed.

Lemma triple_false (m : M A) Q X : triple (fun _ => False) m Q X.
Proof. intros st []. Qed.

Lemma triple_pure (m : M A) (P : State -> Prop) (phi : Prop) Q X :
  (phi -> triple P m Q X) -> triple (fun st => phi /\ P st) m Q X.
Proof. intros H st [Hphi HP]. apply (H Hphi). exact HP. Qed.

End Logic.

Lemma triple_get (P : State -> Prop) X :
  triple P get (fun u st => u = c st /\ P st) X.
Proof. intros st HP. simpl. auto. Qed.

Lemma triple_lift {A : Type} (o : Outcome A) (P : State -> Prop) :
  triple P (lift o) (fun a st => o = Val a /\ P st) P.
Proof. intros st HP. unfold lift. destruct o; auto. Qed.

Lemma triple_out_of_fuel {A : Type} (P : State -> Prop) (Q : A -> State -> Prop) :
  triple P out_of_fuel Q P.
Proof. intros st HP. exact HP. Qed.

Section Frame.

Variable E : Env.
Variable fuel : nat.
Variable P : State -> Prop.
Variable Q : DoOutcome -> Prop.
Hypothesis P_framed : framed P.
Hypothesis P_logged : logged P.
Hypothesis P_net : forall st, P st -> Forall Q (net (w st)).
Hypothesis Q_none : Q (DoErr (ErrOther "no response")).
Variable X : State -> Prop.
Hypothesis P_X : forall st, P st -> X st.

Lemma triple_log : triple P log (fun _ => P) X.
Proof. intros st HP. apply (P_logged st HP). Qed.

Lemma triple_ReadFull partSize :
  triple P (ReadFull partSize) (fun _ => P) X.
Proof.
  intros st HP. unfold ReadFull.
  destruct (reader (c st)); [|exact (P_X st HP)].
  destruct (reads (w st)) as [|r rest]; [exact HP|].
  eapply framed_ext; [exact P_framed|exact HP|reflexivity..].
Qed.

Lemma triple_client_Do rq :
  triple P (client_Do rq) (fun o st => P st /\ Q o) X.
Proof.
  intros st HP. unfold client_Do. pose proof (P_net st HP) as HQ.
  destruct (net (w st)) as [|o rest] eqn:Hnet.
  - split; [|exact Q_none].
    eapply framed_ext; [exact P_framed|exact HP|try reflexivity..].
    simpl. symmetry. exact Hnet.
  - apply Forall_cons in HQ as [Ho Hrest].
    split; [|exact Ho].
    eapply framed_net; [exact P_framed|exact HP|try reflexivity..].
    simpl. exact Hnet.
Qed.

Lemma triple_Stat path :
  triple P (Stat path) (fun r st => r = os_Stat (w st) path /\ P st) X.
Proof. intros st HP. simpl. auto. Qed.

Lemma triple_Open path :
  triple P (Open path) (fun r st => r = os_Open (w st) path /\ P st) X.
Proof. intros st HP. simpl. auto. Qed.

Lemma triple_file_close : triple P file_close (fun _ => P) X.
Proof.
  intros st HP. unfold file_close. destruct (file (c st)); [|exact HP].
  eapply framed_ext; [exact P_framed|exact HP|reflexivity..].
Qed.

Lemma triple_log_keep (phi : Prop) :
  triple (fun st => P st /\ phi) log (fun _ st => P st /\ phi) X.
Proof. intros st [HP Hphi]. split; [apply (P_logged st HP)|exact Hphi]. Qed.

Lemma triple_httpRequest method0 url0 ah sid part cr fn :
  triple P (httpRequest E method0 url0 ah sid part cr fn)
    (fun r st => P st
                 /\ ((exists e, r = (false, "", Some e))
                     \/ exists o, Q o /\ attempt_of o r)) X.
Proof.
  unfold httpRequest. destruct (NewRequest_err E method0 url0) as [msg|].
  - apply triple_ret. intros st HP. eauto 10.
  - eapply triple_bind; [apply triple_client_Do|].
    intros [e|code body].
    + apply triple_ret. intros st (HP & Ho).
      split; [assumption|]. right. exists (DoErr e). split; [assumption|reflexivity].
    + eapply triple_bind; [apply triple_log_keep|].
      intros ? . destruct body as [e|body].
      * apply triple_ret. intros st (HP & Ho).
        split; [assumption|]. right. exists (DoResp code (inl e)).
        split; [assumption|reflexivity].
      * eapply triple_bind; [apply triple_log_keep|].
        intros ? . apply triple_ret. intros st (HP & Ho).
        split; [assumption|]. right. exists (DoResp code (inr body)).
        split; [assumption|reflexivity].
Qed.

(** The retry loop keeps [P]; entered with [isSuccess] false it reports a
    success only with the body of an accepted response. *)
Lemma triple_sendLoop n part cr fn isSuccess responseBody errorCount :
  triple (fun st => P st /\ sent_result Q (isSuccess, responseBody, errorCount))
    (sendLoop E n part cr fn isSuccess responseBody errorCount)
    (fun r st => P st /\ sent_result Q r) X.
Proof.
  revert isSuccess responseBody errorCount.
  induction n as [|n IH]; intros isSuccess responseBody errorCount; simpl.
  - destruct (negb isSuccess && (errorCount <? 3)).
    + intros st [HP _]. exact (P_X st HP).
    + apply triple_ret. auto.
  - destruct (negb isSuccess && (errorCount <? 3)) eqn:Hgo.
    + eapply triple_bind.
      { eapply triple_pre; [apply (triple_get P X)|].
        intros st [HP _]. exact HP. }
      intros u. eapply triple_bind.
      { eapply triple_pre; [apply triple_httpRequest|].
        intros st [_ HP]. exact HP. }
      intros [[ok body] err].
      eapply triple_bind; [apply triple_log_keep|].
      intros ? . eapply triple_bind
        with (Q1 := fun ok' st => P st /\ sent_result Q (ok', body, 0)).
      { destruct err as [e|].
        - eapply triple_bind; [apply triple_log_keep|].
          intros ? . apply triple_ret. intros st [HP _]. split; [exact HP|].
          intros Hf. discriminate.
        - apply triple_ret. intros st [HP Hr]. split; [exact HP|].
          unfold sent_result. simpl. intros ->.
          destruct Hr as [[e He]|[o [Ho Hat]]]; [discriminate|].
          destruct o as [e|code [e|b]]; simpl in Hat; try discriminate.
          inversion Hat; subst. exists code. split; [exact Ho|].
          symmetry. assumption. }
      intros ok'. eapply triple_pre; [apply IH|].
      intros st [HP Hr]. split; [exact HP|]. exact Hr.
    + apply triple_ret. auto.
Qed.

End Frame.

Lemma framed_and (P1 P2 : State -> Prop) :
  framed P1 -> framed P2 -> framed (fun st => P1 st /\ P2 st).
Proof.
  intros [e1 n1] [e2 n2]. split.
  - intros st st' [H1 H2] Hs Hc Ho Hn.
    split; [exact (e1 st st' H1 Hs Hc Ho Hn)|exact (e2 st st' H2 Hs Hc Ho Hn)].
  - intros st st' o [H1 H2] Hs Hc Ho Hn.
    split; [exact (n1 st st' o H1 Hs Hc Ho Hn)|exact (n2 st st' o H2 Hs Hc Ho Hn)].
Qed.

Lemma logged_and (P1 P2 : State -> Prop) :
  logged P1 -> logged P2 -> logged (fun st => P1 st /\ P2 st).
Proof. intros H1 H2 st [Hp1 Hp2]. split; auto. Qed.

Lemma framed_same_as u : framed (same_as u).
Proof.
  split.
  - intros st st' [H1 H2] Hs Hc _ _. split; congruence.
  - intros st st' o [H1 H2] Hs Hc _ _. split; congruence.
Qed.

Lemma logged_same_as u : logged (same_as u).
Proof. intros st H. exact H. Qed.

(** ** One walk through the engine, for two predicates

    [PA] is to hold of the state while the upload is active, [PK] from the
    moment it is done.  The section derives, from what the two predicates
    are assumed to survive, that [uploadChunk], [uploadFile], [Close] and
    [Init] lead from [PA] to [PK], whatever the outcome. *)
Section Walk.

Variable E : Env.
Variable fuel : nat.
Variables PA PK : State -> Prop.
Variable Q : DoOutcome -> Prop.

Hypothesis PA_framed : framed PA.
Hypothesis PA_logged : logged PA.
Hypothesis PA_net : forall st, PA st -> Forall Q (net (w st)).
Hypothesis Q_none : Q (DoErr (ErrOther "no response")).
Hypothesis PK_framed : framed PK.
Hypothesis PK_logged : logged PK.
Hypothesis PA_PK : forall st, PA st -> PK st.
Hypothesis PK_active :
  forall st, PK st -> IsDone (Status (c st)) = false -> PA st.
Hypothesis PA_done : forall st b, PA st -> PK (done_state b st).
Hypothesis PA_recorded :
  forall st i body transferredBytes,
    PA st ->
    (exists code, Q (DoResp code (inr body))
                  /\ (200 <=? code) && (code <=? 299) = true) ->
    let partSize := partSize_of E i (chunkSize (c st)) (Size (Status (c st))) in
    0 < partSize ->
    calculateTransferredSize body partSize (Status (c st))
    = Val (transferredBytes, None) ->
    PA (recorded_state i transferredBytes st).

Lemma triple_uploadDone b : triple PA (uploadDone b) (fun _ => PK) PK.
Proof.
  intros st HP. unfold uploadDone, bind, update. simpl.
  apply (PA_done _ b (PA_logged st HP)).
Qed.

Lemma triple_checkError err :
  triple PA (checkError err)
    (fun b st => match err with
                 | Some _ => b = true /\ PK st
                 | None => b = false /\ PA st
                 end) PK.
Proof.
  destruct err as [e|]; simpl.
  - eapply triple_bind; [apply (triple_log PA PA_logged)|]. intros ?.
    eapply triple_bind; [apply triple_uploadDone|]. intros ?.
    apply triple_ret. auto.
  - apply triple_ret. auto.
Qed.

(** The end of [uploadChunk], after the retry loop. *)
Lemma triple_record i u partSize isSuccess responseBody (errorCount : Z) :
  partSize = partSize_of E i (chunkSize u) (Size (Status u)) ->
  0 < partSize ->
  triple (fun st => (PA st /\ same_as u st)
                    /\ sent_result Q (isSuccess, responseBody, errorCount))
    ((if isSuccess then
        let* u1 := get in
        let* (transferredBytes, err1) :=
          lift (calculateTransferredSize responseBody partSize (Status u1)) in
        let* failed := checkError err1 in
        if negb failed then
          update (fun s => set_SizeTransferred
                             (i64_add (SizeTransferred s) transferredBytes) s) ;;;
          update (set_PartsTransferred (u64_add i 1))
        else ret tt
      else uploadDone true) ;;;
     log)
    (fun _ => PK) PK.
Proof.
  intros Hps Hpos st [[HP [Hst Hch]] Hres].
  destruct isSuccess.
  - unfold bind at 1. unfold bind at 1. unfold get at 1.
    unfold bind at 1. unfold lift at 1.
    destruct (calculateTransferredSize responseBody partSize (Status (c st)))
      as [[tb err1]| |] eqn:Hcalc; [|apply PA_PK; exact HP..].
    destruct err1 as [e|].
    + pose proof (triple_checkError (Some e) st HP) as Hce.
      unfold bind at 1. destruct (checkError (Some e) st) as [[b| |] st'];
        [|exact Hce..].
      destruct Hce as [-> HK]. simpl. apply (PK_logged st' HK).
    + simpl. apply (PK_logged (recorded_state i tb st)). apply PA_PK.
      apply (PA_recorded st i responseBody tb HP (Hres eq_refl)).
      * rewrite Hst, Hch, <- Hps. exact Hpos.
      * rewrite Hst, Hch, <- Hps. rewrite <- Hst. exact Hcalc.
  - pose proof (triple_uploadDone true st HP) as Hd.
    unfold bind. destruct (uploadDone true st) as [[[]| |] st']; [|exact Hd..].
    apply (PK_logged st' Hd).
Qed.

Lemma triple_uploadChunk i : triple PA (uploadChunk E fuel i) (fun _ => PK) PK.
Proof.
  unfold uploadChunk.
  eapply triple_bind; [apply (triple_get PA PK)|]. intros u.
  set (P' := fun st => PA st /\ same_as u st).
  assert (Hf : framed P')
    by (apply framed_and; [exact PA_framed|apply framed_same_as]).
  assert (Hl : logged P')
    by (apply logged_and; [exact PA_logged|apply logged_same_as]).
  assert (Hn : forall st, P' st -> Forall Q (net (w st)))
    by (intros st [HP _]; apply PA_net; exact HP).
  assert (Hweak : forall st, P' st -> PK st)
    by (intros st [HP _]; apply PA_PK; exact HP).
  assert (Hpa : forall st, P' st -> PA st) by (intros st [HP _]; exact HP).
  eapply triple_pre with (P' := P');
    [|intros st [-> HP]; split; [exact HP|split; reflexivity]].
  destruct (i =? Parts (Status u)).
  { eapply triple_pre; [|exact Hpa].
    eapply triple_bind; [apply (triple_log PA PA_logged PK)|]. intros ?.
    apply triple_uploadDone. }
  destruct (TransferredException (Status u)).
  { eapply triple_pre; [|exact Hpa].
    eapply triple_post; [apply (triple_log PA PA_logged PK)|].
    intros ? st. apply PA_PK. }
  destruct (Z.leb_spec (partSize_of E i (chunkSize u) (Size (Status u))) 0)
    as [Hle|Hpos].
  { apply triple_ret. exact Hweak. }
  eapply triple_bind; [apply (triple_ReadFull P' Hf PK Hweak)|].
  intros [partBuffer [e|]].
  { eapply triple_pre; [|exact Hpa].
    eapply triple_bind; [apply (triple_log PA PA_logged PK)|]. intros ?.
    apply triple_uploadDone. }
  eapply triple_bind; [apply (triple_log P' Hl PK)|]. intros ?.
  eapply triple_bind.
  { eapply triple_pre;
      [apply (triple_sendLoop E P' Q Hf Hl Hn Q_none PK Hweak)|].
    intros st HP. split; [exact HP|]. intros Hs. discriminate. }
  intros [[isSuccess responseBody] errorCount].
  apply (triple_record i u _ isSuccess responseBody errorCount eq_refl Hpos).
Qed.

Lemma triple_uploadFile_loop n i :
  triple PK (uploadFile_loop E fuel n i) (fun _ => PK) PK.
Proof.
  revert i. induction n as [|n IH]; intros i; simpl.
  - eapply triple_bind; [apply (triple_get PK PK)|]. intros u.
    destruct (negb (IsDone (Status u))).
    + intros st [_ HK]. exact HK.
    + apply triple_ret. intros st [_ HK]. exact HK.
  - eapply triple_bind; [apply (triple_get PK PK)|]. intros u.
    destruct (IsDone (Status u)) eqn:Hdone; simpl.
    + apply triple_ret. intros st [_ HK]. exact HK.
    + eapply triple_bind; [|intros ?; apply IH].
      eapply triple_pre; [apply triple_uploadChunk|].
      intros st [-> HK]. apply PK_active; assumption.
Qed.

Lemma triple_Close : triple PK Close (fun _ => PK) PK.
Proof.
  unfold Close.
  eapply triple_bind; [apply (triple_log PK PK_logged PK)|]. intros ?.
  eapply triple_bind; [apply (triple_get PK PK)|]. intros u.
  eapply triple_pre with (P' := PK); [|intros st [_ HK]; exact HK].
  destruct (negb (filePath u =? "")%string).
  - eapply triple_bind; [apply (triple_log PK PK_logged PK)|]. intros ?.
    eapply triple_bind; [apply (triple_file_close PK PK_framed PK)|].
    intros [e|]; [apply (triple_log PK PK_logged PK)|apply triple_ret; auto].
  - apply triple_ret. auto.
Qed.

Lemma triple_defer {A : Type} (P : State -> Prop) (phi : A -> Prop)
    (cleanup : M unit) (body : M A) :
  triple P body (fun a st => phi a /\ PK st) PK ->
  triple PK cleanup (fun _ => PK) PK ->
  triple P (defer cleanup body) (fun a st => phi a /\ PK st) PK.
Proof.
  intros Hb Hc st HP. unfold defer. specialize (Hb st HP).
  destruct (body st) as [[a| |] st']; [| |exact Hb].
  - destruct Hb as [Hphi Hb]. specialize (Hc st' Hb).
    destruct (cleanup st') as [[[]| |] st'']; [split|..]; assumption.
  - specialize (Hc st' Hb). destruct (cleanup st') as [[[]| |] st'']; exact Hc.
Qed.

(** [P0] is to hold when [Init] starts, [P1] once the source is set up,
    [PE] when it could not be. *)
Variables P0 P1 PE : State -> Prop.

Hypothesis P1_parts :
  forall st, P1 st ->
    PA {| c := with_Status
                 (set_Parts (parts_of E (Size (Status (c st))) (chunkSize (c st))))
                 (c st);
          w := w st |}.

Hypothesis P0_source :
  triple P0 Init_source
    (fun r st => match r with Some _ => PE st | None => P1 st end) PK.

Lemma triple_Init :
  triple P0 (Init E fuel)
    (fun r st => match r with Some _ => PE st | None => PK st end) PK.
Proof.
  unfold Init. eapply triple_bind; [exact P0_source|].
  intros [e|]; [apply triple_ret; auto|].
  unfold Init_upload. eapply triple_post.
  - apply (triple_defer P1 (fun r => r = None)); [|apply triple_Close].
    eapply triple_bind; [apply (triple_get P1 PK)|]. intros u.
    eapply triple_bind with (Q1 := fun _ => PA).
    { intros st [-> HP]. apply P1_parts. exact HP. }
    intros ?. eapply triple_bind.
    { eapply triple_pre; [apply triple_uploadFile_loop|exact PA_PK]. }
    intros ?. eapply triple_bind; [apply (triple_log PK PK_logged PK)|].
    intros ?. apply triple_ret. auto.
  - intros r st [-> HK]. exact HK.
Qed.

End Walk.

(** ** Once done, the status stays as it is *)

Lemma quiet_settled l x : quiet l -> settled (l ++ [x]).
Proof.
  intros Hq j k oj ok Hjk Hj Hk Hdone.
  destruct (Nat.lt_ge_cases j (length l)) as [Hlt|Hge].
  - rewrite lookup_app_l in Hj by exact Hlt.
    unfold quiet in Hq. rewrite Forall_lookup in Hq.
    specialize (Hq j oj Hj). simpl in Hq. congruence.
  - pose proof (lookup_lt_Some _ _ _ Hk) as Hk'.
    rewrite length_app in Hk'. simpl in Hk'.
    assert (k = j) by lia. subst k. congruence.
Qed.

Lemma settled_again l x : settled (l ++ [x]) -> settled ((l ++ [x]) ++ [x]).
Proof.
  intros Hs j k oj ok Hjk Hj Hk Hdone.
  assert (Hlen : length (l ++ [x]) = S (length l)) by (rewrite length_app; simpl; lia).
  assert (Hx : (l ++ [x]) !! length l = Some x).
  { rewrite lookup_app_r by lia. rewrite Nat.sub_diag. reflexivity. }
  destruct (Nat.lt_ge_cases k (length (l ++ [x]))) as [Hlt|Hge].
  - rewrite lookup_app_l in Hk by exact Hlt.
    rewrite lookup_app_l in Hj by lia.
    exact (Hs j k oj ok Hjk Hj Hk Hdone).
  - pose proof (lookup_lt_Some _ _ _ Hk) as Hk'. rewrite length_app in Hk'. simpl in Hk'.
    assert (k = length (l ++ [x])) by lia. subst k.
    rewrite lookup_app_r in Hk by lia. rewrite Nat.sub_diag in Hk.
    simpl in Hk. inversion Hk; subst ok.
    destruct (Nat.lt_ge_cases j (length (l ++ [x]))) as [Hjlt|Hjge].
    + rewrite lookup_app_l in Hj by exact Hjlt.
      apply (Hs j (length l) oj x); [lia|exact Hj|exact Hx|exact Hdone].
    + pose proof (lookup_lt_Some _ _ _ Hj) as Hj'. rewrite length_app in Hj'. simpl in Hj'.
      assert (j = length (l ++ [x])) by lia. subst j.
      rewrite lookup_app_r in Hj by lia. rewrite Nat.sub_diag in Hj.
      simpl in Hj. congruence.
Qed.

Lemma settled_quiet l x : settled (l ++ [x]) -> IsDone x = false -> quiet l.
Proof.
  intros Hs Hx. unfold quiet. rewrite Forall_lookup. intros j oj Hj. simpl.
  destruct (IsDone oj) eqn:Hdone; [|reflexivity].
  assert (Hjl : (j < length l)%nat) by (eapply lookup_lt_Some; exact Hj).
  assert (Heq : x = oj).
  { apply (Hs j (length l) oj x); [lia| | |exact Hdone].
    - rewrite lookup_app_l by exact Hjl. exact Hj.
    - rewrite lookup_app_r by lia. rewrite Nat.sub_diag. reflexivity. }
  congruence.
Qed.

Lemma framed_active : framed active.
Proof.
  split.
  - intros st st' [Hq Hd] Hs _ Ho _. split; [rewrite Ho|rewrite Hs]; assumption.
  - intros st st' o [Hq Hd] Hs _ Ho _. split; [rewrite Ho|rewrite Hs]; assumption.
Qed.

Lemma logged_active : logged active.
Proof.
  intros st [Hq Hd]. split; [|exact Hd]. simpl.
  apply Forall_app. split; [exact Hq|]. apply Forall_cons. split; [exact Hd|constructor].
Qed.

Lemma framed_settled : framed (fun st => settled (reads_of st)).
Proof.
  unfold reads_of. split.
  - intros st st' H Hs _ Ho _. rewrite Ho, Hs. exact H.
  - intros st st' o H Hs _ Ho _. rewrite Ho, Hs. exact H.
Qed.

Lemma logged_settled : logged (fun st => settled (reads_of st)).
Proof. intros st H. unfold reads_of in *. simpl. apply settled_again. exact H. Qed.

Lemma active_settled st : active st -> settled (reads_of st).
Proof. intros [Hq _]. apply quiet_settled. exact Hq. Qed.

Lemma triple_Init_source_active :
  triple active Init_source
    (fun r st => match r with Some _ => settled (reads_of st) | None => active st end)
    (fun st => settled (reads_of st)).
Proof.
  intros st [Hq Hd]. unfold Init_source, bind, get, Stat, Open, checkError, uploadDone, update, log, ret.
  simpl.
  destruct (negb (filePath (c st) =? "")%string); [|split; assumption].
  assert (Hq' : quiet (observed (w st) ++ [Status (c st)])).
  { apply Forall_app. split; [exact Hq|]. apply Forall_cons. split; [exact Hd|constructor]. }
  destruct (os_Stat (w st) (filePath (c st))) as [e|size]; simpl.
  - apply quiet_settled. apply Forall_app. split; [exact Hq'|].
    apply Forall_cons. split; [exact Hd|constructor].
  - destruct (os_Open (w st) (filePath (c st))) as [e|]; simpl.
    + apply quiet_settled. repeat (apply Forall_app; split); [exact Hq|..];
        (apply Forall_cons; split; [exact Hd|constructor]).
    + split; assumption.
Qed.

Lemma Init_settled (E : Env) (fuel : nat) :
  triple active (Init E fuel) (fun _ st => settled (reads_of st))
    (fun st => settled (reads_of st)).
Proof.
  eapply triple_post;
    [apply (triple_Init E fuel active (fun st => settled (reads_of st)) (fun _ => True)
              ltac:(exact framed_active) ltac:(exact logged_active)) with
       (P0 := active) (P1 := active) (PE := fun st => settled (reads_of st))
    |intros [e|] st H; exact H].
  - intros st _. apply Forall_forall. intros; exact I.
  - exact I.
  - exact framed_settled.
  - exact logged_settled.
  - exact active_settled.
  - intros st Hs Hd. split; [|exact Hd]. exact (settled_quiet _ _ Hs Hd).
  - intros st b [Hq _]. apply quiet_settled. exact Hq.
  - intros st i body tb [Hq Hd] _ _ _ _. split; assumption.
  - intros st [Hq Hd]. split; assumption.
  - exact triple_Init_source_active.
Qed.

Lemma uploadFile_loop_done E fuel n i st :
  IsDone (Status (c st)) = true -> uploadFile_loop E fuel n i st = (Val tt, st).
Proof. intros H. destruct n; simpl; unfold bind, get; rewrite H; reflexivity. Qed.

(** C7, amended. When [Init] is called on an uploader that is not done,
    then among the reads of the status at the logger calls while it runs
    and after it has returned, every read from one that shows [IsDone] on
    returns the same status: all six fields, so the four the claim names;
    and on a done uploader the loop of [uploadFile] does nothing, so no
    further chunk is processed. *)
Theorem status_frozen_once_done (E : Env) (fuel : nat) (u : UploadData) (w0 : World) :
  IsDone (Status u) = false -> observed w0 = [] ->
  settled (reads_of (snd (Init E fuel {| c := u; w := w0 |})))
  /\ (forall st, IsDone (Status (c st)) = true ->
                 uploadFile E fuel st = (Val tt, st)).
Proof.
  intros Hd Ho. split.
  - pose proof (Init_settled E fuel {| c := u; w := w0 |}) as H.
    assert (Ha : active {| c := u; w := w0 |}).
    { split; [simpl; rewrite Ho; constructor|exact Hd]. }
    specialize (H Ha).
    destruct (Init E fuel {| c := u; w := w0 |}) as [[r| |] st']; exact H.
  - intros st H. apply uploadFile_loop_done. exact H.
Qed.

(** ** The transferred size against the total size *)

Lemma framed_bounded : framed bounded.
Proof.
  split.
  - intros st st' (H1 & H2 & H3 & H4) Hs Hc Ho Hn.
    unfold bounded. rewrite Hs, Hc, Ho, Hn. auto.
  - intros st st' o (H1 & H2 & H3 & H4) Hs Hc Ho Hn.
    unfold bounded. rewrite Hs, Hc, Ho. rewrite Hn in H4.
    apply Forall_cons in H4 as [_ H4]. auto.
Qed.

Lemma logged_bounded : logged bounded.
Proof.
  intros st (H1 & H2 & H3 & H4). unfold bounded. simpl.
  repeat split; try assumption; try apply H1; try apply H3.
  apply Forall_app. split; [exact H2|]. apply Forall_cons. split; [exact H1|constructor].
Qed.

(** The default reconciliation keeps the transferred size within the
    total. *)
Lemma default_within_total partSize status tb :
  0 < partSize -> within_total status ->
  Size status + partSize < two63 ->
  calculateTransferredSize "" partSize status = Val (tb, None) ->
  within_total (set_SizeTransferred (i64_add (SizeTransferred status) tb) status).
Proof.
  unfold calculateTransferredSize, within_total, i64_add, i64_sub. simpl.
  intros Hp [H0 H1] Hfit Hcalc.
  assert (H63 : two63 = 2 ^ 63) by reflexivity.
  rewrite (to_int64_small partSize) in Hcalc by lia.
  rewrite (to_int64_small (partSize + _)) in Hcalc by lia.
  rewrite (to_int64_small (Size status - _)) in Hcalc by lia.
  destruct (Z.gtb_spec (partSize + SizeTransferred status) (Size status));
    inversion Hcalc; subst tb; rewrite to_int64_small; lia.
Qed.

Section Bounded.

Variable E : Env.
Variable fuel : nat.

Lemma bounded_recorded st i body tb :
  bounded st ->
  (exists code, empty_if_accepted (DoResp code (inr body))
                /\ (200 <=? code) && (code <=? 299) = true) ->
  let partSize := partSize_of E i (chunkSize (c st)) (Size (Status (c st))) in
  0 < partSize ->
  calculateTransferredSize body partSize (Status (c st)) = Val (tb, None) ->
  bounded (recorded_state i tb st).
Proof.
  intros (H1 & H2 & H3 & H4) (code & Hb & Hcode) partSize Hpos Hcalc.
  simpl in Hb. rewrite (Hb Hcode) in Hcalc.
  destruct H3 as (Hc & Hs & Hfit).
  assert (Hle : partSize <= chunkSize (c st)) by (apply partSize_of_le; exact Hc).
  pose proof (default_within_total partSize (Status (c st)) tb Hpos H1
                ltac:(lia) Hcalc) as Hnew.
  unfold bounded, recorded_state. simpl.
  repeat split; try assumption; try apply Hnew; try apply Hc.
Qed.

Lemma triple_Init_source_bounded :
  triple (fun st => bounded st /\ SizeTransferred (Status (c st)) = 0
                    /\ forall s, os_Stat (w st) (filePath (c st)) = inr s ->
                                 sizes_fit (chunkSize (c st)) s)
    Init_source
    (fun r st => match r with Some _ => bounded st | None => bounded st end)
    bounded.
Proof.
  intros st ((H1 & H2 & H3 & H4) & Hz & Hstat).
  unfold Init_source, bind, get, Stat, Open, checkError, uploadDone, update, log, ret.
  simpl.
  destruct (negb (filePath (c st) =? "")%string);
    [|repeat split; try assumption; try apply H1; try apply H3].
  assert (Ho : Forall within_total (observed (w st) ++ [Status (c st)])).
  { apply Forall_app. split; [exact H2|]. apply Forall_cons. split; [exact H1|constructor]. }
  destruct (os_Stat (w st) (filePath (c st))) as [e|size] eqn:Hs; simpl.
  - unfold bounded. simpl. repeat split; try assumption; try apply H1; try apply H3.
    apply Forall_app. split; [exact Ho|]. apply Forall_cons. split; [exact H1|constructor].
  - specialize (Hstat size eq_refl).
    assert (Hw : within_total (set_Size size (Status (c st)))).
    { unfold within_total. simpl. rewrite Hz. destruct Hstat as (_ & ? & _). lia. }
    destruct (os_Open (w st) (filePath (c st))) as [e|]; simpl.
    + unfold bounded. simpl. repeat split; try assumption; try apply Hw; try apply Hstat.
      repeat (apply Forall_app; split); [exact H2|..];
        (apply Forall_cons; split; [exact Hw|constructor]).
    + unfold bounded. simpl. repeat split; try assumption; try apply Hw; try apply Hstat.
Qed.

Lemma Init_bounded :
  triple (fun st => bounded st /\ SizeTransferred (Status (c st)) = 0
                    /\ forall s, os_Stat (w st) (filePath (c st)) = inr s ->
                                 sizes_fit (chunkSize (c st)) s)
    (Init E fuel) (fun _ => bounded) bounded.
Proof.
  eapply triple_post;
    [apply (triple_Init E fuel bounded bounded empty_if_accepted
              ltac:(exact framed_bounded) ltac:(exact logged_bounded)) with
       (P1 := bounded) (PE := bounded)
    |intros [e|] st H; exact H].
  - intros st (_ & _ & _ & H). exact H.
  - exact I.
  - exact framed_bounded.
  - exact logged_bounded.
  - auto.
  - auto.
  - intros st b (H1 & H2 & H3 & H4). unfold bounded. simpl.
    repeat split; try assumption; try apply H1; try apply H3.
  - apply bounded_recorded.
  - intros st (H1 & H2 & H3 & H4). unfold bounded. simpl.
    repeat split; try assumption; try apply H1; try apply H3.
  - exact triple_Init_source_bounded.
Qed.

End Bounded.

(** C2, amended. With a chunk size below [2^53], sizes whose sum fits
    [int64], and a server that leaves the body of every accepted response
    empty, the status satisfies [0 <= transferredSize <= totalSize] at every
    read while [Init] runs and when it has ended, however it ends. *)
Theorem transferred_within_total_by_default
    (E : Env) (fuel : nat) (u : UploadData) (w0 : World) :
  SizeTransferred (Status u) = 0 ->
  sizes_fit (chunkSize u) (Size (Status u)) ->
  (forall s, os_Stat w0 (filePath u) = inr s -> sizes_fit (chunkSize u) s) ->
  Forall empty_if_accepted (net w0) ->
  observed w0 = [] ->
  Forall within_total (reads_of (snd (Init E fuel {| c := u; w := w0 |}))).
Proof.
  intros Hz Hfit Hstat Hnet Hobs.
  pose proof (Init_bounded E fuel {| c := u; w := w0 |}) as H.
  assert (Hpre : bounded {| c := u; w := w0 |}
                 /\ SizeTransferred (Status u) = 0
                 /\ forall s, os_Stat w0 (filePath u) = inr s -> sizes_fit (chunkSize u) s).
  { split; [|split; assumption]. unfold bounded. simpl. rewrite Hobs.
    repeat split; try assumption; try apply Hfit; try constructor.
    - rewrite Hz. lia.
    - rewrite Hz. apply Hfit. }
  specialize (H Hpre).
  assert (Hb : bounded (snd (Init E fuel {| c := u; w := w0 |}))).
  { destruct (Init E fuel {| c := u; w := w0 |}) as [[r| |] st']; exact H. }
  destruct Hb as (H1 & H2 & _). unfold reads_of.
  apply Forall_app. split; [exact H2|]. apply Forall_cons. split; [exact H1|constructor].
Qed.

(** ** The part count *)

Section PartCount.

Variable E : Env.
Variable fuel : nat.

Lemma framed_parts_set : framed (parts_set E).
Proof.
  unfold parts_set. split.
  - intros st st' H Hs Hc _ _. rewrite Hs, Hc. exact H.
  - intros st st' o H Hs Hc _ _. rewrite Hs, Hc. exact H.
Qed.

Lemma Init_parts_set :
  triple (fun _ => True) (Init E fuel)
    (fun r st => match r with Some _ => True | None => parts_set E st end)
    (parts_set E).
Proof.
  apply (triple_Init E fuel (parts_set E) (parts_set E) (fun _ => True)
           framed_parts_set ltac:(intros st H; exact H))
    with (P1 := fun _ => True).
  - intros st _. apply Forall_forall. intros; exact I.
  - exact I.
  - exact framed_parts_set.
  - intros st H. exact H.
  - auto.
  - auto.
  - intros st b H. exact H.
  - intros st i body tb H _ _ _ _. exact H.
  - intros st _. reflexivity.
  - intros st _. unfold Init_source, bind, get, Stat, Open, checkError, uploadDone, update, log, ret.
    simpl. destruct (negb (filePath (c st) =? "")%string); [|exact I].
    destruct (os_Stat (w st) (filePath (c st))) as [e|size]; simpl; [exact I|].
    destruct (os_Open (w st) (filePath (c st))) as [e|]; exact I.
Qed.

Lemma parts_of_zero chunk : 0 < chunk -> parts_of E 0 chunk = 0.
Proof. intros H. rewrite parts_of_exact by lia. reflexivity. Qed.

Lemma uploadFile_no_parts n st :
  IsDone (Status (c st)) = false -> Parts (Status (c st)) = 0 ->
  uploadFile_loop E fuel (S n) 0 st
  = (Val tt, done_state false (snd (log (snd (log st))))).
Proof.
  intros Hd Hp. destruct st as [u x]. simpl in Hd, Hp.
  cbn [uploadFile_loop]. unfold bind at 1. unfold get at 1. cbn [c Status].
  rewrite Hd. cbn [negb]. unfold bind at 1. unfold uploadChunk.
  unfold bind at 1. unfold get at 1. cbn [c Status]. rewrite Hp.
  cbn [Z.eqb]. unfold uploadDone, bind, update, log. cbn [c w snd].
  rewrite uploadFile_loop_done by reflexivity. reflexivity.
Qed.

Lemma Close_frame st :
  exists st', Close st = (Val tt, st') /\ c st' = c st
              /\ sent (w st') = sent (w st) /\ net (w st') = net (w st).
Proof.
  destruct st as [u x].
  unfold Close, bind, get, log, ret. simpl.
  destruct (negb (filePath u =? "")%string); [|eexists; repeat split].
  unfold file_close. simpl.
  destruct (file u) as [path|]; simpl.
  - destruct (file_Close x path); eexists; repeat split.
  - eexists; repeat split.
Qed.

End PartCount.

Lemma Init_upload_empty (E : Env) (fuel : nat) st :
  (0 < fuel)%nat -> Size (Status (c st)) = 0 -> IsDone (Status (c st)) = false ->
  0 < chunkSize (c st) ->
  exists st', Init_upload E fuel st = (Val None, st')
              /\ Parts (Status (c st')) = 0
              /\ IsDone (Status (c st')) = true
              /\ TransferredException (Status (c st')) = false
              /\ sent (w st') = sent (w st) /\ net (w st') = net (w st).
Proof.
  intros Hfuel Hsize Hdone Hchunk. destruct fuel as [|n]; [lia|].
  unfold Init_upload, defer.
  set (st0 := {| c := with_Status (set_Parts 0) (c st); w := w st |}).
  assert (Hbody :
    (let* u := get in
     update (set_Parts (parts_of E (Size (Status u)) (chunkSize u))) ;;;
     uploadFile E (S n) ;;; log ;;; ret None) st
    = (Val (None : error), snd (log (done_state false (snd (log (snd (log st0)))))))).
  { unfold bind at 1. unfold get at 1. unfold bind at 1. unfold update at 1.
    rewrite Hsize, (parts_of_zero E _ Hchunk). fold st0.
    unfold bind at 1. unfold uploadFile.
    rewrite (uploadFile_no_parts E (S n) n st0) by (destruct st; simpl in *; assumption || reflexivity).
    reflexivity. }
  rewrite Hbody.
  destruct (Close_frame (snd (log (done_state false (snd (log (snd (log st0))))))))
    as (st' & -> & Hc & Hs & Hn).
  exists st'. split; [reflexivity|]. rewrite Hc, Hs, Hn.
  destruct st as [u x]. repeat split.
Qed.

(** ** The retry policy *)

Section Retry.

Variable E : Env.

Lemma httpRequest_run u part cr fn st :
  NewRequest_err E (method u) (url u) = None ->
  let o := next_outcome (net (w st)) in
  exists st',
    httpRequest E (method u) (url u) None (id u) part cr fn st
    = (Val (accepted o, body_of o, err_of o), st')
    /\ c st' = c st
    /\ net (w st') = tl (net (w st))
    /\ sent (w st') = sent (w st) ++ [chunk_request E u part cr fn]
    /\ reads (w st') = reads (w st).
Proof.
  intros Hnr. cbv zeta. unfold httpRequest. rewrite Hnr.
  fold (chunk_request E u part cr fn).
  destruct st as [u0 x]. unfold bind, client_Do, log, ret. cbn [c w].
  destruct (net x) as [|o rest]; cbn [next_outcome hd tl].
  - eexists. repeat split.
  - destruct o as [e|code [e|body]]; cbn [accepted body_of err_of];
      eexists; repeat split.
Qed.

Lemma sendLoop_done n part cr fn body errorCount st :
  sendLoop E n part cr fn true body errorCount st = (Val (true, body, errorCount), st).
Proof. destruct n; reflexivity. Qed.

Lemma sendLoop_exhausted n part cr fn ok body st :
  sendLoop E n part cr fn ok body 3 st = (Val (ok, body, 3), st).
Proof. destruct n; destruct ok; reflexivity. Qed.

Lemma drop_S_tl {A : Type} (k : nat) (l : list A) : drop (S k) l = drop k (tl l).
Proof. destruct l; [destruct k|]; reflexivity. Qed.

(** The loop of [uploadChunk] carries out the retry policy with the bound
    [3 - errorCount]. *)
Lemma sendLoop_retry_policy bound :
  forall n part cr fn body0 errorCount st,
    errorCount = 3 - Z.of_nat bound -> (bound <= n)%nat ->
    NewRequest_err E (method (c st)) (url (c st)) = None ->
    exists st' ec,
      sendLoop E n part cr fn false body0 errorCount st
      = (Val ((retry_policy bound (net (w st)) body0).1.1,
              (retry_policy bound (net (w st)) body0).1.2, ec), st')
      /\ c st' = c st
      /\ net (w st') = drop (retry_policy bound (net (w st)) body0).2 (net (w st))
      /\ sent (w st')
         = sent (w st) ++ replicate (retry_policy bound (net (w st)) body0).2
                            (chunk_request E (c st) part cr fn)
      /\ reads (w st') = reads (w st).
Proof.
  induction bound as [|b IH]; intros n part cr fn body0 errorCount st Hec Hn Hnr.
  - replace errorCount with 3 by lia. rewrite sendLoop_exhausted.
    exists st, 3. cbn [retry_policy fst snd replicate]. rewrite drop_0, app_nil_r.
    repeat split.
  - destruct n as [|n]; [lia|].
    cbn [sendLoop]. cbn [negb andb].
    destruct (Z.ltb_spec errorCount 3) as [_|Hge]; [|lia].
    unfold bind at 1. unfold get at 1.
    destruct (httpRequest_run (c st) part cr fn st Hnr) as (st1 & Hrun & Hc1 & Hn1 & Hs1 & Hr1).
    cbv zeta in Hrun. unfold bind at 1. rewrite Hrun.
    set (o := next_outcome (net (w st))) in *.
    assert (Hlog : forall (k : unit -> M (bool * string * Z)) s, bind log k s = k tt (snd (log s)))
      by reflexivity.
    rewrite Hlog.
    assert (Hok : forall s,
      bind (match err_of o with
            | Some _ => log ;;; ret false
            | None => ret (accepted o)
            end)
        (fun isSuccess =>
           sendLoop E n part cr fn isSuccess (body_of o)
             (if negb isSuccess then errorCount + 1 else errorCount)) s
      = sendLoop E n part cr fn (accepted o) (body_of o)
          (if negb (accepted o) then errorCount + 1 else errorCount)
          (match err_of o with Some _ => snd (log s) | None => s end)).
    { intros s. destruct o as [e|code [e|body]]; reflexivity. }
    rewrite Hok. cbn [retry_policy]. fold o.
    set (st2 := match err_of o with Some _ => snd (log (snd (log st1))) | None => snd (log st1) end).
    assert (Hc2 : c st2 = c st) by (subst st2; destruct (err_of o); simpl; exact Hc1).
    assert (Hn2 : net (w st2) = tl (net (w st))) by (subst st2; destruct (err_of o); simpl; exact Hn1).
    assert (Hs2 : sent (w st2) = sent (w st) ++ [chunk_request E (c st) part cr fn])
      by (subst st2; destruct (err_of o); simpl; exact Hs1).
    assert (Hr2 : reads (w st2) = reads (w st)) by (subst st2; destruct (err_of o); simpl; exact Hr1).
    destruct (accepted o) eqn:Hacc.
    + cbn [negb]. rewrite sendLoop_done. exists st2, errorCount.
      cbn [fst snd replicate]. rewrite drop_S_tl, drop_0.
      repeat split; assumption.
    + cbn [negb].
      destruct (IH n part cr fn (body_of o) (errorCount + 1) st2)
        as (st' & ec & Hrec & Hc' & Hn' & Hs' & Hr'); [lia|lia|rewrite Hc2; exact Hnr|].
      rewrite Hn2 in *. rewrite Hc2 in *.
      destruct (retry_policy b (tl (net (w st))) (body_of o)) as [[ok body] k] eqn:Hpol.
      cbn [fst snd] in *.
      exists st', ec. rewrite Hrec. split; [reflexivity|].
      split; [congruence|]. split; [rewrite drop_S_tl; exact Hn'|].
      split; [|congruence].
      rewrite Hs', Hs2. rewrite <- app_assoc. reflexivity.
Qed.

Lemma retry_policy_attempts bound outcomes body0 :
  ((retry_policy bound outcomes body0).2 <= bound)%nat.
Proof.
  revert outcomes body0. induction bound as [|b IH]; intros outcomes body0; cbn [retry_policy].
  - simpl. lia.
  - destruct (accepted (next_outcome outcomes)); [simpl; lia|].
    specialize (IH (tl outcomes) (body_of (next_outcome outcomes))).
    destruct (retry_policy b (tl outcomes) (body_of (next_outcome outcomes))) as [[ok body] k].
    simpl in *. lia.
Qed.

Lemma retry_policy_failed bound outcomes body0 :
  (retry_policy bound outcomes body0).1.1 = false ->
  (retry_policy bound outcomes body0).2 = bound.
Proof.
  revert outcomes body0. induction bound as [|b IH]; intros outcomes body0; cbn [retry_policy].
  - reflexivity.
  - destruct (accepted (next_outcome outcomes)); [discriminate|].
    specialize (IH (tl outcomes) (body_of (next_outcome outcomes))).
    destruct (retry_policy b (tl outcomes) (body_of (next_outcome outcomes))) as [[ok body] k].
    simpl in *. intros H. rewrite (IH H). reflexivity.
Qed.

End Retry.

Section RetryChunk.

Variable E : Env.
Variable fuel : nat.

(** [uploadChunk] up to the end of its retry loop. *)
Lemma uploadChunk_retry i st partBuffer later :
  i <> Parts (Status (c st)) -> TransferredException (Status (c st)) = false ->
  0 < partSize_of E i (chunkSize (c st)) (Size (Status (c st))) ->
  reader (c st) <> None -> reads (w st) = (partBuffer, None) :: later ->
  NewRequest_err E (method (c st)) (url (c st)) = None -> (3 <= fuel)%nat ->
  let partSize := partSize_of E i (chunkSize (c st)) (Size (Status (c st))) in
  let policy := retry_policy 3 (net (w st)) "" in
  exists st1,
    c st1 = c st
    /\ net (w st1) = drop policy.2 (net (w st))
    /\ length (sent (w st1)) = (length (sent (w st)) + policy.2)%nat
    /\ uploadChunk E fuel i st
       = ((if policy.1.1 then
             let* u1 := get in
             let* (transferredBytes, err1) :=
               lift (calculateTransferredSize policy.1.2 partSize (Status u1)) in
             let* failed := checkError err1 in
             if negb failed then
               update (fun s => set_SizeTransferred
                                  (i64_add (SizeTransferred s) transferredBytes) s) ;;;
               update (set_PartsTransferred (u64_add i 1))
             else ret tt
           else uploadDone true) ;;; log) st1.
Proof.
  intros Hi Hexc Hpos Hrd Hreads Hnr Hfuel partSize policy.
  unfold uploadChunk. unfold bind at 1. unfold get at 1.
  destruct (Z.eqb_spec i (Parts (Status (c st)))) as [|_]; [contradiction|].
  rewrite Hexc. fold partSize.
  destruct (Z.leb_spec partSize 0) as [|_]; [lia|].
  unfold bind at 1. unfold ReadFull at 1.
  destruct (reader (c st)) as [src|]; [|contradiction]. rewrite Hreads.
  unfold bind at 1. unfold log at 1. cbn [c w].
  set (st2 := {| c := c st; w := with_observed _ _ |}).
  destruct (sendLoop_retry_policy E 3 fuel partBuffer
              (generateContentRange i (chunkSize (c st)) partSize (Size (Status (c st))))
              (filepath_Base E (filePath (c st))) "" 0 st2)
    as (st3 & ec & Hrun & Hc3 & Hn3 & Hs3 & _); [reflexivity|exact Hfuel|exact Hnr|].
  change (net (w st2)) with (net (w st)) in *.
  change (sent (w st2)) with (sent (w st)) in *.
  change (c st2) with (c st) in *.
  fold policy in Hrun, Hn3, Hs3.
  exists st3. split; [exact Hc3|]. split; [exact Hn3|].
  split; [rewrite Hs3, length_app, length_replicate; reflexivity|].
  unfold bind at 1. rewrite Hrun. reflexivity.
Qed.

End RetryChunk.

(** C6, amended. A chunk that is read and sent gets at most three attempts,
    one after the other, ending at the first accepted one; an attempt fails
    unless a response with a status in [200, 299] arrives and its body is
    read.  If all three fail, the upload is done and failed, with
    [PartsTransferred] and [SizeTransferred] as they were.  If one succeeds
    (the third after two failures, say) and the reconciliation of its body
    gives a size, the chunk is recorded and the upload goes on. *)
Theorem retry_three_attempts
    (E : Env) (fuel : nat) (i : Z) (st : State)
    (partBuffer : list Byte.byte) (later : list (list Byte.byte * error)) :
  let u := c st in
  let partSize := partSize_of E i (chunkSize u) (Size (Status u)) in
  let policy := retry_policy 3 (net (w st)) "" in
  let run := uploadChunk E fuel i st in
  IsDone (Status u) = false -> i <> Parts (Status u) ->
  TransferredException (Status u) = false -> 0 < partSize ->
  reader u <> None -> reads (w st) = (partBuffer, None) :: later ->
  NewRequest_err E (method u) (url u) = None -> (3 <= fuel)%nat ->
  (policy.2 <= 3)%nat
  /\ length (sent (w run.2)) = (length (sent (w st)) + policy.2)%nat
  /\ net (w run.2) = drop policy.2 (net (w st))
  /\ (forall o rest, net (w st) = o :: rest -> accepted o = true ->
        policy = (true, body_of o, 1%nat))
  /\ (forall o1 o2 o3 rest,
        net (w st) = o1 :: o2 :: o3 :: rest ->
        accepted o1 = false -> accepted o2 = false ->
        policy = (accepted o3, body_of o3, 3%nat))
  /\ (policy.1.1 = false ->
        run.1 = Val tt /\ policy.2 = 3%nat
        /\ IsDone (Status (c run.2)) = true
        /\ TransferredException (Status (c run.2)) = true
        /\ PartsTransferred (Status (c run.2)) = PartsTransferred (Status u)
        /\ SizeTransferred (Status (c run.2)) = SizeTransferred (Status u))
  /\ (policy.1.1 = true ->
      forall transferredBytes,
        calculateTransferredSize policy.1.2 partSize (Status u)
        = Val (transferredBytes, None) ->
        run.1 = Val tt
        /\ PartsTransferred (Status (c run.2)) = u64_add i 1
        /\ SizeTransferred (Status (c run.2))
           = i64_add (SizeTransferred (Status u)) transferredBytes
        /\ IsDone (Status (c run.2)) = false
        /\ TransferredException (Status (c run.2)) = false).
Proof.
  intros u partSize policy run Hdone Hi Hexc Hpos Hrd Hreads Hnr Hfuel.
  destruct (uploadChunk_retry E fuel i st partBuffer later Hi Hexc Hpos Hrd Hreads Hnr Hfuel)
    as (st1 & Hc1 & Hn1 & Hs1 & Hrun).
  cbv zeta in Hn1, Hs1, Hrun. fold u partSize policy in Hn1, Hs1, Hrun.
  fold run in Hrun.
  split; [apply retry_policy_attempts|].
  assert (Hframe : c run.2 = c run.2 /\ sent (w run.2) = sent (w run.2)) by (split; reflexivity).
  destruct st1 as [u1 x1]. simpl in Hc1, Hn1, Hs1. subst u1.
  assert (Hshape :
    sent (w run.2) = sent x1 /\ net (w run.2) = net x1
    /\ (policy.1.1 = false ->
        run.1 = Val tt
        /\ Status (c run.2)
           = set_TransferredException true (set_IsDone true (Status u)))
    /\ (policy.1.1 = true ->
        forall tb,
          calculateTransferredSize policy.1.2 partSize (Status u) = Val (tb, None) ->
          run.1 = Val tt
          /\ Status (c run.2)
             = set_PartsTransferred (u64_add i 1)
                 (set_SizeTransferred (i64_add (SizeTransferred (Status u)) tb)
                    (Status u)))).
  { rewrite Hrun. fold u.
    destruct (policy.1.1).
    - unfold bind, get, lift. cbn [c w].
      destruct (calculateTransferredSize policy.1.2 partSize (Status u))
        as [[tb [e|]]| |]; simpl.
      + split; [reflexivity|]. split; [reflexivity|].
        split; [discriminate|]. intros _ tb' Heq. discriminate.
      + split; [reflexivity|]. split; [reflexivity|].
        split; [discriminate|]. intros _ tb' Heq. inversion Heq; subst.
        split; reflexivity.
      + split; [reflexivity|]. split; [reflexivity|].
        split; [discriminate|]. intros _ tb' Heq. discriminate.
      + split; [reflexivity|]. split; [reflexivity|].
        split; [discriminate|]. intros _ tb' Heq. discriminate.
    - simpl. split; [reflexivity|]. split; [reflexivity|].
      split; [intros _; split; reflexivity|discriminate]. }
  destruct Hshape as (Hsent & Hnet & Hfail & Hok).
  split; [rewrite Hsent; exact Hs1|]. split; [rewrite Hnet; exact Hn1|].
  split.
  { intros o rest Hnetst Hacc. subst policy. rewrite Hnetst.
    cbn [retry_policy next_outcome hd]. rewrite Hacc. reflexivity. }
  split.
  { intros o1 o2 o3 rest Hnetst H1 H2. subst policy. rewrite Hnetst.
    cbn [retry_policy next_outcome hd tl]. rewrite H1, H2.
    destruct (accepted o3); reflexivity. }
  split.
  - intros Hp. destruct (Hfail Hp) as [Hr Hst].
    split; [exact Hr|]. split; [apply (retry_policy_failed 3); exact Hp|].
    rewrite Hst. repeat split.
  - intros Hp tb Hcalc. destruct (Hok Hp tb Hcalc) as [Hr Hst].
    split; [exact Hr|]. rewrite Hst. simpl. repeat split; assumption.
Qed.

(** Two failures, then a response 200 with an empty body: the first chunk
    of the sample upload is recorded with its 100 bytes. *)
Lemma retry_three_attempts_witness :
  let run :=
    uploadChunk sample_env 3 0
      {| c := sample_running;
         w := sample_world sample_chunks
                [DoResp 500 (inr "busy"); DoErr (ErrOther "connection reset");
                 DoResp 200 (inr "")] |} in
  run.1 = Val tt
  /\ PartsTransferred (Status (c run.2)) = 1
  /\ SizeTransferred (Status (c run.2)) = 100
  /\ IsDone (Status (c run.2)) = false
  /\ length (sent (w run.2)) = 3%nat.
Proof.
  pose proof (retry_three_attempts sample_env 3 0
    {| c := sample_running;
       w := sample_world sample_chunks
              [DoResp 500 (inr "busy"); DoErr (ErrOther "connection reset");
               DoResp 200 (inr "")] |}
    (replicate 100 Byte.x00)
    [(replicate 100 Byte.x00, None); (replicate 50 Byte.x00, None)]
    eq_refl ltac:(discriminate) eq_refl eq_refl ltac:(discriminate)
    eq_refl eq_refl ltac:(lia)) as (_ & Hsent & _ & _ & _ & _ & Hok).
  destruct (Hok eq_refl 100 eq_refl) as (Hr & Hp & Hs & Hd & _).
  cbv zeta. repeat split; assumption.
Defined.

(** C6, as stated, fails when the body of the successful attempt does not
    reconcile: after two failures the third attempt is accepted with the
    body "0-x/250", whose end is no number; the chunk is not recorded and
    the upload is done and failed. *)
Lemma third_attempt_accepted_not_recorded :
  let run :=
    uploadChunk sample_env 3 0
      {| c := sample_running;
         w := sample_world sample_chunks
                [DoResp 500 (inr "busy"); DoErr (ErrOther "connection reset");
                 DoResp 200 (inr "0-x/250")] |} in
  accepted (DoResp 200 (inr "0-x/250")) = true
  /\ length (sent (w run.2)) = 3%nat
  /\ PartsTransferred (Status (c run.2)) = 0
  /\ IsDone (Status (c run.2)) = true
  /\ TransferredException (Status (c run.2)) = true.
Proof. vm_compute. repeat split. Qed.

(** ** The part count and the empty upload *)

(** C5, as stated, fails from [2^53] on, where [float64] no longer holds
    every integer: for a total size of [2^53 + 1] and a chunk size of 1 the
    conversion rounds the size to [2^53], and that is the part count. *)
Lemma part_count_rounded_above_2_53 :
  parts_of sample_env (2 ^ 53 + 1) 1 = 2 ^ 53
  /\ parts_of sample_env (2 ^ 53 + 1) 1 <> ceil_div (2 ^ 53 + 1) 1.
Proof. split; [vm_compute; reflexivity|vm_compute; discriminate]. Qed.

(** C5, amended. For a total size from 0 to below [2^53] and a positive
    chunk size the part count is the ceiling of size over chunk size; that
    count is in [Parts] from the moment [Init] has set up its source; and an
    upload of no bytes ends at once: [Init] returns nil with [Parts] 0,
    [IsDone] set and [TransferredException] not, and nothing is sent. *)
Theorem part_count_exact_below_2_53
    (E : Env) (fuel : nat) (u : UploadData) (w0 : World) :
  let run := Init E fuel {| c := u; w := w0 |} in
  0 < chunkSize u ->
  (forall size, 0 <= size < 2 ^ 53 ->
                parts_of E size (chunkSize u) = ceil_div size (chunkSize u))
  /\ match run.1 with
     | Val (Some _) => True
     | _ => parts_set E run.2 /\ chunkSize (c run.2) = chunkSize u
     end
  /\ ((0 < fuel)%nat -> IsDone (Status u) = false -> empty_source u w0 ->
      run.1 = Val None
      /\ Parts (Status (c run.2)) = 0
      /\ IsDone (Status (c run.2)) = true
      /\ TransferredException (Status (c run.2)) = false
      /\ sent (w run.2) = sent w0 /\ net (w run.2) = net w0).
Proof.
  intros run Hchunk. split; [|split].
  - intros size Hsize. apply parts_of_exact; assumption.
  - pose proof (triple_conj _ _ _ _ _ _ _
                  (Init_parts_set E fuel)
                  (triple_Init E fuel (fun st => chunkSize (c st) = chunkSize u)
                     (fun st => chunkSize (c st) = chunkSize u) (fun _ => True)
                     ltac:(split; intros; congruence) ltac:(intros st H; exact H)
                     ltac:(intros; apply Forall_forall; intros; exact I) I
                     ltac:(split; intros; congruence) ltac:(intros st H; exact H)
                     ltac:(auto) ltac:(auto) ltac:(intros st b H; exact H)
                     ltac:(intros st i body tb H _ _ _ _; exact H)
                     (fun st => chunkSize (c st) = chunkSize u)
                     (fun st => chunkSize (c st) = chunkSize u)
                     (fun _ => True)
                     ltac:(intros st H; exact H)
                     ltac:(intros st H;
                           unfold Init_source, bind, get, Stat, Open, checkError,
                             uploadDone, update, log, ret; simpl;
                           destruct (negb (filePath (c st) =? "")%string); [|exact H];
                           destruct (os_Stat (w st) (filePath (c st))); simpl; [exact I|];
                           destruct (os_Open (w st) (filePath (c st))); simpl;
                             [exact I|exact H]))
                  {| c := u; w := w0 |} (conj I eq_refl)) as H.
    fold run in H. destruct run as [[[e|]| |] st']; simpl in *; tauto.
  - intros Hfuel Hdone Hsrc.
    assert (Hrun : exists st',
      Init E fuel {| c := u; w := w0 |} = (Val None, st')
      /\ Parts (Status (c st')) = 0
      /\ IsDone (Status (c st')) = true
      /\ TransferredException (Status (c st')) = false
      /\ sent (w st') = sent w0 /\ net (w st') = net w0).
    { unfold Init. unfold bind at 1.
      destruct Hsrc as [[Hpath Hsize]|(Hpath & Hstat & Hopen)].
      + assert (Hs : Init_source {| c := u; w := w0 |} = (Val None, {| c := u; w := w0 |})).
        { unfold Init_source, bind, get. simpl. rewrite Hpath. reflexivity. }
        rewrite Hs.
        destruct (Init_upload_empty E fuel {| c := u; w := w0 |} Hfuel Hsize Hdone Hchunk)
          as (st' & -> & H).
        exists st'. exact (conj eq_refl H).
      + assert (Hne : negb (filePath u =? "")%string = true).
        { apply negb_true_iff. apply String.eqb_neq. exact Hpath. }
        set (st1 := {| c := with_reader (Some (FileReader (filePath u))) (Some (filePath u))
                            (with_Status (set_Size 0) u);
                       w := w0 |}).
        assert (Hs : Init_source {| c := u; w := w0 |} = (Val None, st1)).
        { unfold Init_source, bind, get, Stat, Open, checkError, update, ret. simpl.
          rewrite Hne. simpl. rewrite Hstat. simpl. rewrite Hopen. reflexivity. }
        rewrite Hs.
        destruct (Init_upload_empty E fuel st1 Hfuel eq_refl Hdone Hchunk)
          as (st' & -> & H).
        exists st'. exact (conj eq_refl H). }
    destruct Hrun as (st' & Heq & H). subst run. rewrite Heq. exact (conj eq_refl H).
Qed.

(** The sample uploader with a total size of 0. *)
Lemma part_count_exact_below_2_53_witness :
  let run :=
    Init sample_env 1
      {| c := NewUploaderFromReader "POST" "http://host/upload" true 0 None 100
                "0123456789ABCDEF";
         w := sample_world [] [] |} in
  run.1 = Val None /\ Parts (Status (c run.2)) = 0
  /\ IsDone (Status (c run.2)) = true
  /\ TransferredException (Status (c run.2)) = false
  /\ sent (w run.2) = [].
Proof.
  pose proof (part_count_exact_below_2_53 sample_env 1
    (NewUploaderFromReader "POST" "http://host/upload" true 0 None 100
       "0123456789ABCDEF")
    (sample_world [] []) eq_refl) as (_ & _ & H).
  destruct (H ltac:(lia) eq_refl (or_introl (conj eq_refl eq_refl)))
    as (Hr & Hp & Hd & He & Hs & _).
  cbv zeta. repeat split; assumption.
Defined.

(** ** Witnesses and counterexamples on the sample upload *)

(** C2, as stated, fails when the server reports ranges: its answers
    "0-100/250", "100-200/250" and "200-249/250" to the three chunks are
    added up as 100, 200 and 249, and the upload ends as a success with a
    transferred size of 549 of 250. *)
Lemma transferred_exceeds_total_with_server_ranges :
  let run :=
    Init sample_env 4
      {| c := sample_uploader;
         w := sample_world sample_chunks
                [DoResp 200 (inr "0-100/250"); DoResp 200 (inr "100-200/250");
                 DoResp 200 (inr "200-249/250")] |} in
  run.1 = Val None
  /\ IsDone (Status (c run.2)) = true
  /\ TransferredException (Status (c run.2)) = false
  /\ Size (Status (c run.2)) = 250
  /\ SizeTransferred (Status (c run.2)) = 549
  /\ ~ within_total (Status (c run.2)).
Proof.
  vm_compute. do 5 (split; [reflexivity|]).
  intros [_ H]. apply H. reflexivity.
Qed.

(** The sample upload against a server that accepts every chunk with an
    empty body. *)
Lemma transferred_within_total_by_default_witness :
  Forall within_total
    (reads_of
       (Init sample_env 4
          {| c := sample_uploader;
             w := sample_world sample_chunks
                    [DoResp 200 (inr ""); DoResp 200 (inr "");
                     DoResp 200 (inr "")] |}).2).
Proof.
  apply (transferred_within_total_by_default sample_env 4 sample_uploader).
  - reflexivity.
  - unfold sizes_fit. simpl. unfold two63. lia.
  - intros s Hs. discriminate.
  - repeat constructor; simpl; intros _; reflexivity.
  - reflexivity.
Defined.

(** C7, as stated, fails in two ways.  [uploadDone] sets [IsDone] before
    [TransferredException]: when an upload fails, the status is done and
    not failed between the two assignments, and failed after them.  And
    [Init] can be called again: the upload of the sample file ends done and
    not failed, and a second [Init] on that uploader, once the file is
    gone, returns the error of [os.Stat] and leaves the status failed. *)
Lemma status_changes_after_done :
  (let st := {| c := sample_running; w := sample_world [] [] |} in
   let between := ((log ;;; update (set_IsDone true)) st).2 in
   uploadDone true st = update (set_TransferredException true) between
   /\ IsDone (Status (c between)) = true
   /\ TransferredException (Status (c between)) = false
   /\ TransferredException (Status (c (uploadDone true st).2)) = true
   /\ ~ settled [Status (c between); Status (c (uploadDone true st).2)])
  /\ (let first :=
        Init sample_env 4
          {| c := sample_file_uploader;
             w := sample_file_world sample_chunks
                    [DoResp 200 (inr ""); DoResp 200 (inr ""); DoResp 200 (inr "")] |} in
      let second :=
        Init sample_env 4 {| c := c first.2; w := without_files (w first.2) |} in
      first.1 = Val None
      /\ IsDone (Status (c first.2)) = true
      /\ TransferredException (Status (c first.2)) = false
      /\ second.1 = Val (Some (ErrOther "no such file"))
      /\ IsDone (Status (c second.2)) = true
      /\ TransferredException (Status (c second.2)) = true).
Proof.
  split.
  - cbv zeta. split; [reflexivity|]. do 3 (split; [reflexivity|]).
    intros H. specialize (H 0%nat 1%nat _ _ ltac:(lia) eq_refl eq_refl eq_refl).
    discriminate H.
  - vm_compute. repeat split.
Qed.

(** The sample upload against a server that is down. *)
Lemma status_frozen_once_done_witness :
  settled
    (reads_of
       (Init sample_env 4
          {| c := sample_uploader; w := sample_world sample_chunks [] |}).2).
Proof.
  apply (status_frozen_once_done sample_env 4 sample_uploader
           (sample_world sample_chunks []) eq_refl eq_refl).
Defined.

(** ** The additional headers of the caller *)

(** C3. The additional headers of the caller do not reach the chunk
    requests.  The uploader keeps the map it was made with, and
    [httpRequest] would add each of its entries to the request; but the
    call in [uploadChunk] hands it none.  The sample upload with the
    additional header "Authorization: Bearer t" succeeds with three
    requests, none of which carries that header. *)
Theorem Init_drops_additional_headers :
  let run :=
    Init sample_env 4
      {| c := sample_authorized;
         w := sample_world sample_chunks
                [DoResp 200 (inr ""); DoResp 200 (inr ""); DoResp 200 (inr "")] |} in
  additionalHeaders sample_authorized = Some {["Authorization" := "Bearer t"]}
  /\ (forall sessionID contentRange fileName,
        carries sample_env
          (request_headers sample_env (additionalHeaders sample_authorized)
             sessionID contentRange fileName)
          "Authorization" "Bearer t")
  /\ run.1 = Val None
  /\ IsDone (Status (c run.2)) = true
  /\ TransferredException (Status (c run.2)) = false
  /\ length (sent (w run.2)) = 3%nat
  /\ Forall (fun r => req_header r !! "Authorization" = None
                      /\ ~ carries sample_env (req_header r) "Authorization" "Bearer t")
       (sent (w run.2)).
Proof.
  split; [reflexivity|]. split.
  { intros sessionID contentRange fileName. unfold request_headers.
    change (additionalHeaders sample_authorized)
      with (Some ({["Authorization" := "Bearer t"]} : gmap string string)).
    apply foldl_Header_Add_carries.
    rewrite (map_range_perm sample_env). apply elem_of_map_to_list.
    apply lookup_singleton_eq. }
  vm_compute. do 4 (split; [reflexivity|]).
  repeat constructor; intros H; inversion H.
Qed.

(** ** A body without '-' *)

(** C8 (and C4). The server accepts the first chunk of the sample upload
    with the body "OK": [parseBody] panics, and so does [Init], which
    returns neither nil nor an error and leaves the status not done and not
    failed. *)
Theorem Init_panics_on_body_without_dash :
  let run :=
    Init sample_env 4
      {| c := sample_uploader;
         w := sample_world sample_chunks [DoResp 200 (inr "OK")] |} in
  run.1 = Panic
  /\ IsDone (Status (c run.2)) = false
  /\ TransferredException (Status (c run.2)) = false.
Proof. vm_compute. repeat split. Qed.

(** ** Termination *)

Section Finishes.

Context {A B : Type}.

Lemma finishes_ret (a : A) : finishes (ret a).
Proof. intros st. discriminate. Qed.

Lemma finishes_bind (m : M A) (k : A -> M B) :
  finishes m -> (forall a, finishes (k a)) -> finishes (bind m k).
Proof.
  intros Hm Hk st. unfold bind. specialize (Hm st).
  destruct (m st) as [[a| |] st']; simpl in *;
    [apply Hk|discriminate|contradiction].
Qed.

Lemma finishes_lift (o : Outcome A) : o <> OutOfFuel -> finishes (lift o).
Proof. intros H st. exact H. Qed.

End Finishes.

Lemma finishes_get : finishes get.
Proof. intros st. discriminate. Qed.

Lemma finishes_log : finishes log.
Proof. intros st. discriminate. Qed.

Lemma finishes_update f : finishes (update f).
Proof. intros st. discriminate. Qed.

Lemma finishes_ReadFull n : finishes (ReadFull n).
Proof.
  intros st. unfold ReadFull. destruct (reader (c st)); [|discriminate].
  destruct (reads (w st)); discriminate.
Qed.

Lemma finishes_client_Do rq : finishes (client_Do rq).
Proof. intros st. unfold client_Do. destruct (net (w st)); discriminate. Qed.

Lemma finishes_uploadDone b : finishes (uploadDone b).
Proof.
  unfold uploadDone. repeat (apply finishes_bind; [|intros ?]);
    first [apply finishes_log|apply finishes_update].
Qed.

Lemma finishes_checkError err : finishes (checkError err).
Proof.
  destruct err; simpl; [|apply finishes_ret].
  apply finishes_bind; [apply finishes_log|intros ?].
  apply finishes_bind; [apply finishes_uploadDone|intros ?; apply finishes_ret].
Qed.

Lemma calculateTransferredSize_finishes body partSize status :
  calculateTransferredSize body partSize status <> OutOfFuel.
Proof.
  unfold calculateTransferredSize, parseBody, index.
  destruct (negb (body =? "")%string); [|discriminate].
  destruct (nth_error _ 0); [|discriminate].
  destruct (nth_error _ 1); [|discriminate].
  destruct (ParseInt _) as [partTo [e|]]; discriminate.
Qed.

Section Fuel.

Variable E : Env.
Variable fuel : nat.

Lemma finishes_httpRequest method0 url0 ah sid part cr fn :
  finishes (httpRequest E method0 url0 ah sid part cr fn).
Proof.
  unfold httpRequest. destruct (NewRequest_err E method0 url0); [apply finishes_ret|].
  apply finishes_bind; [apply finishes_client_Do|]. intros [e|code body].
  - apply finishes_ret.
  - apply finishes_bind; [apply finishes_log|intros ?].
    destruct body; [apply finishes_ret|].
    apply finishes_bind; [apply finishes_log|intros ?; apply finishes_ret].
Qed.

(** The retry loop ends within [3 - errorCount] iterations. *)
Lemma finishes_sendLoop bound :
  forall n part cr fn isSuccess responseBody errorCount,
    3 - Z.of_nat bound <= errorCount -> (bound <= n)%nat ->
    finishes (sendLoop E n part cr fn isSuccess responseBody errorCount).
Proof.
  induction bound as [|b IH]; intros n part cr fn ok body ec Hec Hn.
  - assert (Hc : negb ok && (ec <? 3) = false).
    { destruct (Z.ltb_spec ec 3); [lia|apply andb_false_r]. }
    destruct n; simpl; rewrite Hc; apply finishes_ret.
  - destruct n as [|n]; [lia|]. simpl.
    destruct (negb ok && (ec <? 3)); [|apply finishes_ret].
    apply finishes_bind; [apply finishes_get|intros u].
    apply finishes_bind; [apply finishes_httpRequest|intros [[ok1 body1] err]].
    apply finishes_bind; [apply finishes_log|intros ?].
    apply finishes_bind.
    { destruct err; [|apply finishes_ret].
      apply finishes_bind; [apply finishes_log|intros ?; apply finishes_ret]. }
    intros ok2. destruct ok2; simpl.
    + intros st. destruct n; discriminate.
    + apply IH; lia.
Qed.

Lemma finishes_uploadChunk i : (3 <= fuel)%nat -> finishes (uploadChunk E fuel i).
Proof.
  intros Hfuel. unfold uploadChunk.
  apply finishes_bind; [apply finishes_get|intros u].
  destruct (i =? Parts (Status u)).
  { apply finishes_bind; [apply finishes_log|intros ?; apply finishes_uploadDone]. }
  destruct (TransferredException (Status u)); [apply finishes_log|].
  destruct (partSize_of E i (chunkSize u) (Size (Status u)) <=? 0); [apply finishes_ret|].
  apply finishes_bind; [apply finishes_ReadFull|intros [partBuffer [e|]]].
  { apply finishes_bind; [apply finishes_log|intros ?; apply finishes_uploadDone]. }
  apply finishes_bind; [apply finishes_log|intros ?].
  apply finishes_bind; [apply (finishes_sendLoop 3); lia|].
  intros [[ok body] ec].
  apply finishes_bind; [|intros ?; apply finishes_log].
  destruct ok; [|apply finishes_uploadDone].
  apply finishes_bind; [apply finishes_get|intros u1].
  apply finishes_bind;
    [apply finishes_lift; apply calculateTransferredSize_finishes|intros [tb err1]].
  apply finishes_bind; [apply finishes_checkError|intros failed].
  destruct failed; simpl; [apply finishes_ret|].
  apply finishes_bind; [apply finishes_update|intros ?; apply finishes_update].
Qed.

End Fuel.

Section LoopFuel.

Variable E : Env.
Variable fuel : nat.
Hypothesis enough : (3 <= fuel)%nat.

Lemma framed_parts_are p : framed (parts_are p).
Proof.
  unfold parts_are. split.
  - intros st st' H Hs _ _ _. rewrite Hs. exact H.
  - intros st st' o H Hs _ _ _. rewrite Hs. exact H.
Qed.

Lemma uploadChunk_parts_are p i :
  triple (parts_are p) (uploadChunk E fuel i) (fun _ => parts_are p) (parts_are p).
Proof.
  apply (triple_uploadChunk E fuel (parts_are p) (parts_are p) (fun _ => True)).
  - apply framed_parts_are.
  - intros st H. exact H.
  - intros st _. apply Forall_forall. intros; exact I.
  - exact I.
  - intros st H. exact H.
  - auto.
  - intros st b H. exact H.
  - intros st j body tb H _ _ _ _. exact H.
Qed.

Lemma uploadFile_loop_parts_are p n i :
  triple (parts_are p) (uploadFile_loop E fuel n i) (fun _ => parts_are p) (parts_are p).
Proof.
  apply (triple_uploadFile_loop E fuel (parts_are p) (parts_are p) (fun _ => True)).
  - apply framed_parts_are.
  - intros st H. exact H.
  - intros st _. apply Forall_forall. intros; exact I.
  - exact I.
  - intros st H. exact H.
  - auto.
  - auto.
  - intros st b H. exact H.
  - intros st j body tb H _ _ _ _. exact H.
Qed.

(** At the index that equals the part count, [uploadChunk] ends the
    upload. *)
Lemma uploadChunk_last i st :
  i = Parts (Status (c st)) ->
  IsDone (Status (c (uploadChunk E fuel i st).2)) = true.
Proof.
  intros ->. unfold uploadChunk, bind, get. rewrite Z.eqb_refl. reflexivity.
Qed.

(** The loop of [uploadFile] ends within [Parts - i + 1] iterations. *)
Lemma uploadFile_loop_finishes n :
  forall i st,
    0 <= i <= Parts (Status (c st)) -> Parts (Status (c st)) < two64 ->
    (Z.to_nat (Parts (Status (c st)) - i) < n)%nat ->
    (uploadFile_loop E fuel n i st).1 <> OutOfFuel.
Proof.
  induction n as [|n IH]; intros i st Hi Hp Hn; [lia|].
  simpl. unfold bind at 1. unfold get at 1.
  destruct (IsDone (Status (c st))) eqn:Hdone; simpl; [discriminate|].
  unfold bind.
  pose proof (finishes_uploadChunk E fuel i enough st) as Hfin.
  pose proof (uploadChunk_parts_are _ i st eq_refl) as Hparts.
  pose proof (uploadChunk_last i st) as Hlast.
  destruct (uploadChunk E fuel i st) as [[[]| |] st1]; simpl in *;
    [|discriminate|contradiction].
  unfold parts_are in Hparts.
  destruct (IsDone (Status (c st1))) eqn:Hdone1.
  - rewrite uploadFile_loop_done by exact Hdone1. discriminate.
  - assert (Hlt : i < Parts (Status (c st))).
    { destruct (Z.eq_dec i (Parts (Status (c st)))) as [Heq|]; [|lia].
      specialize (Hlast Heq). congruence. }
    unfold u64_add. rewrite to_uint64_small by lia.
    apply IH; rewrite Hparts; lia.
Qed.

End LoopFuel.

Lemma parts_of_uint64 E size chunk : is_uint64 (parts_of E size chunk).
Proof.
  unfold parts_of, uint64_of_float.
  destruct (F64.trunc _) as [z|]; [|apply to_uint64_range].
  destruct (Z.leb_spec 0 z); simpl; [|apply to_uint64_range].
  destruct (Z.ltb_spec z two64); simpl; [|apply to_uint64_range].
  unfold is_uint64. lia.
Qed.

Lemma Init_source_finishes st : (Init_source st).1 <> OutOfFuel.
Proof.
  unfold Init_source, bind, get, Stat, Open, checkError, uploadDone, update, log, ret.
  simpl. destruct (negb (filePath (c st) =? "")%string); [|discriminate].
  destruct (os_Stat (w st) (filePath (c st))); simpl; [discriminate|].
  destruct (os_Open (w st) (filePath (c st))); discriminate.
Qed.

(** The upload part of [Init], by the outcome of the loop of
    [uploadFile]. *)
Lemma Init_upload_run E fuel st :
  let p := parts_of E (Size (Status (c st))) (chunkSize (c st)) in
  let st0 := {| c := with_Status (set_Parts p) (c st); w := w st |} in
  let loop := uploadFile_loop E fuel fuel 0 st0 in
  exists st',
    Init_upload E fuel st
    = (match loop.1 with
       | Val _ => Val None
       | Panic => Panic
       | OutOfFuel => OutOfFuel
       end, st')
    /\ c st' = c loop.2 /\ sent (w st') = sent (w loop.2)
    /\ net (w st') = net (w loop.2).
Proof.
  intros p st0 loop. unfold Init_upload, defer.
  unfold bind at 1. unfold get at 1. unfold bind at 1. unfold update at 1.
  fold p. fold st0. unfold uploadFile. unfold bind at 1. fold loop.
  destruct loop as [[[]| |] st3]; cbn [fst snd].
  - unfold bind, log, ret.
    match goal with
    | |- context [Close ?s] => destruct (Close_frame s) as (st' & -> & Hc & Hs & Hn)
    end.
    exists st'. split; [reflexivity|]. rewrite Hc, Hs, Hn. repeat split.
  - destruct (Close_frame st3) as (st' & -> & Hc & Hs & Hn).
    exists st'. repeat split; assumption.
  - exists st3. repeat split.
Qed.

(** With at least three units of fuel, and more than the part count that
    [Init] computes, no loop of [Init] is cut short: [Init] returns or
    panics. *)
Theorem Init_ends_with_enough_fuel
    (E : Env) (fuel : nat) (u : UploadData) (w0 : World) :
  let run := Init E fuel {| c := u; w := w0 |} in
  (3 <= fuel)%nat ->
  (Z.to_nat (Parts (Status (c run.2))) < fuel)%nat ->
  run.1 <> OutOfFuel.
Proof.
  intros run Hfuel. subst run. unfold Init, bind.
  pose proof (Init_source_finishes {| c := u; w := w0 |}) as Hsrc.
  destruct (Init_source {| c := u; w := w0 |}) as [[[e|]| |] st1]; simpl in Hsrc;
    [discriminate| |discriminate|contradiction].
  destruct (Init_upload_run E fuel st1) as (st' & -> & Hc & _ & _). cbn [fst snd].
  rewrite Hc.
  set (p := parts_of E (Size (Status (c st1))) (chunkSize (c st1))).
  set (st0 := {| c := with_Status (set_Parts p) (c st1); w := w st1 |}).
  pose proof (uploadFile_loop_parts_are E fuel p fuel 0 st0 eq_refl) as Hparts.
  pose proof (uploadFile_loop_finishes E fuel Hfuel fuel 0 st0) as Hfin.
  pose proof (parts_of_uint64 E (Size (Status (c st1))) (chunkSize (c st1))) as Hp.
  fold p in Hp. unfold is_uint64 in Hp.
  destruct (uploadFile_loop E fuel fuel 0 st0) as [[t| |] st3];
    cbn [fst snd] in *; [discriminate|discriminate|].
  unfold parts_are in Hparts. rewrite Hparts. intros Hlt.
  exfalso. apply Hfin; [simpl; lia|simpl; lia|simpl|reflexivity].
  replace (p - 0) with p by lia. exact Hlt.
Qed.

(** The sample upload, three parts, with fuel 4. *)
Lemma Init_ends_with_enough_fuel_witness :
  (Init sample_env 4
     {| c := sample_uploader;
        w := sample_world sample_chunks
               [DoResp 200 (inr ""); DoResp 200 (inr ""); DoResp 200 (inr "")] |}).1
  <> OutOfFuel.
Proof.
  apply (Init_ends_with_enough_fuel sample_env 4 sample_uploader); [lia|].
  vm_compute. lia.
Defined.

Lemma uploadFile_loop_returns_eq E fuel n :
  forall i st st',
    uploadFile_loop E fuel n i st = (Val tt, st') ->
    IsDone (Status (c st')) = true.
Proof.
  induction n as [|n IH]; intros i st st'; simpl; unfold bind at 1; unfold get at 1.
  - destruct (IsDone (Status (c st))) eqn:Hd; simpl; [|discriminate].
    intros H. inversion H; subst. exact Hd.
  - destruct (IsDone (Status (c st))) eqn:Hd; simpl.
    + intros H. inversion H; subst. exact Hd.
    + unfold bind. destruct (uploadChunk E fuel i st) as [[[]| |] st1];
        [apply IH|discriminate..].
Qed.

Lemma uploadFile_loop_returns E fuel n i st :
  (uploadFile_loop E fuel n i st).1 = Val tt ->
  IsDone (Status (c (uploadFile_loop E fuel n i st).2)) = true.
Proof.
  pose proof (uploadFile_loop_returns_eq E fuel n i st) as H.
  destruct (uploadFile_loop E fuel n i st) as [r st']. simpl.
  intros ->. apply H. reflexivity.
Qed.

(** [Init] returns a non-nil error exactly when the stat or the open of the
    source file fails, and that error; the upload is then done and failed
    and nothing was sent.  When [Init] returns nil the upload is done. *)
Theorem Init_error_only_from_source
    (E : Env) (fuel : nat) (u : UploadData) (w0 : World) :
  let run := Init E fuel {| c := u; w := w0 |} in
  (forall e,
      run.1 = Val (Some e)
      <-> filePath u <> ""
          /\ (os_Stat w0 (filePath u) = inl e
              \/ exists size, os_Stat w0 (filePath u) = inr size
                              /\ os_Open w0 (filePath u) = Some e))
  /\ (forall e, run.1 = Val (Some e) ->
                IsDone (Status (c run.2)) = true
                /\ TransferredException (Status (c run.2)) = true
                /\ sent (w run.2) = sent w0)
  /\ (run.1 = Val None -> IsDone (Status (c run.2)) = true).
Proof.
  intros run.
  assert (Hup : forall st1,
    (forall e, (Init_upload E fuel st1).1 <> Val (Some e))
    /\ ((Init_upload E fuel st1).1 = Val None ->
        IsDone (Status (c (Init_upload E fuel st1).2)) = true)).
  { intros st1. destruct (Init_upload_run E fuel st1) as (st' & -> & Hc & _ & _).
    cbn [fst snd]. rewrite Hc.
    match goal with
    | |- context [uploadFile_loop E fuel fuel 0 ?s] =>
        pose proof (uploadFile_loop_returns E fuel fuel 0 s) as Hret;
        destruct (uploadFile_loop E fuel fuel 0 s) as [[[]| |] st3]
    end; cbn [fst snd] in *; split; try discriminate; intros _; auto. }
  subst run. unfold Init, bind.
  destruct (String.eqb_spec (filePath u) "") as [Hpath|Hpath].
  - assert (Hs : Init_source {| c := u; w := w0 |} = (Val None, {| c := u; w := w0 |})).
    { unfold Init_source, bind, get. simpl. rewrite Hpath. reflexivity. }
    rewrite Hs. destruct (Hup {| c := u; w := w0 |}) as [Hne Hnone].
    split; [|split].
    + intros e. split; [intros H; destruct (Hne e H)|intros [H _]; contradiction].
    + intros e H. destruct (Hne e H).
    + exact Hnone.
  - assert (Hne : negb (filePath u =? "")%string = true).
    { apply negb_true_iff. apply String.eqb_neq. exact Hpath. }
    destruct (os_Stat w0 (filePath u)) as [e0|size] eqn:Hstat.
    + assert (Hs : exists st1, Init_source {| c := u; w := w0 |} = (Val (Some e0), st1)
                   /\ IsDone (Status (c st1)) = true
                   /\ TransferredException (Status (c st1)) = true
                   /\ sent (w st1) = sent w0).
      { unfold Init_source, bind, get, Stat, checkError, uploadDone, update, log, ret.
        simpl. rewrite Hne. simpl. rewrite Hstat. simpl. eexists. repeat split. }
      destruct Hs as (st1 & -> & Hd & Hx & Hsent). cbn [fst snd ret].
      split; [|split].
      * intros e. split.
        -- intros H. inversion H; subst. split; [exact Hpath|left; reflexivity].
        -- intros [_ [H|(s & H & _)]]; [inversion H; reflexivity|discriminate].
      * intros e _. repeat split; assumption.
      * discriminate.
    + destruct (os_Open w0 (filePath u)) as [e0|] eqn:Hopen.
      * assert (Hs : exists st1, Init_source {| c := u; w := w0 |} = (Val (Some e0), st1)
                     /\ IsDone (Status (c st1)) = true
                     /\ TransferredException (Status (c st1)) = true
                     /\ sent (w st1) = sent w0).
        { unfold Init_source, bind, get, Stat, Open, checkError, uploadDone, update, log, ret.
          simpl. rewrite Hne. simpl. rewrite Hstat. simpl. rewrite Hopen. simpl.
          eexists. repeat split. }
        destruct Hs as (st1 & -> & Hd & Hx & Hsent). cbn [fst snd ret].
        split; [|split].
        -- intros e. split.
           ++ intros H. inversion H; subst. split; [exact Hpath|].
              right. exists size. split; reflexivity.
           ++ intros [_ [H|(s & _ & H)]]; [discriminate|inversion H; reflexivity].
        -- intros e _. repeat split; assumption.
        -- discriminate.
      * assert (Hs : exists st1, Init_source {| c := u; w := w0 |} = (Val None, st1)).
        { unfold Init_source, bind, get, Stat, Open, checkError, update, ret.
          simpl. rewrite Hne. simpl. rewrite Hstat. simpl. rewrite Hopen. simpl.
          eexists. reflexivity. }
        destruct Hs as (st1 & ->). destruct (Hup st1) as [Hnot Hnone].
        split; [|split].
        -- intros e. split; [intros H; destruct (Hnot e H)|].
           intros [_ [H|(s & _ & H)]]; discriminate.
        -- intros e H. destruct (Hnot e H).
        -- exact Hnone.
Qed.

(** With a '-' the slice is long enough: [n] separators make [n + 1]
    pieces. *)
Lemma Split_two_pieces s sep :
  occurs sep s = true -> exists a b rest, Split s sep = a :: b :: rest.
Proof.
  induction s as [|x s IH]; simpl; [discriminate|].
  destruct (Ascii.eqb x sep) eqn:Hx; simpl.
  - intros _. destruct (Split s sep) as [|b rest] eqn:Hs.
    + destruct (Split_not_nil _ _ Hs).
    + eauto.
  - intros H. destruct (IH H) as (a & b & rest & ->). eauto.
Qed.

(** When the part of the body before the first '/' holds a '-',
    [parseBody] returns: a size, or the error of [strconv.ParseInt]. *)
Theorem parseBody_returns_with_dash (body : string) :
  occurs "-"%char (hd "" (Split body "/"%char)) = true ->
  exists partTo err, parseBody body = Val (partTo, err).
Proof.
  intros H. unfold parseBody.
  destruct (Split body "/"%char) as [|fromTo rest] eqn:Hsp.
  - destruct (Split_not_nil _ _ Hsp).
  - simpl in *. destruct (Split_two_pieces _ _ H) as (a & b & tail & ->). simpl.
    destruct (ParseInt b) as [partTo [e|]]; eauto.
Qed.

(** The body "0-99/250" gives 99. *)
Lemma parseBody_returns_with_dash_witness :
  exists partTo err, parseBody "0-99/250" = Val (partTo, err).
Proof. apply parseBody_returns_with_dash. reflexivity. Defined.

(** ** Decimal numerals: [fmt.Sprintf] against [strconv.ParseInt] *)

Lemma uint_value_ge d : forall acc, 0 <= acc -> acc <= uint_value d acc.
Proof.
  induction d; intros acc Hacc; simpl; [lia|..];
    match goal with
    | |- _ <= uint_value _ ?a => specialize (IHd a ltac:(lia)); lia
    end.
Qed.

Lemma uint_value_acc d : forall acc,
  uint_value d (Z.pos acc) = Z.pos (Pos.of_uint_acc d acc).
Proof.
  induction d; intros acc; simpl; [reflexivity|..];
    match goal with
    | |- uint_value _ ?a = Z.pos (Pos.of_uint_acc _ ?b) =>
        replace a with (Z.pos b) by lia; apply IHd
    end.
Qed.

Lemma uint_value_of_uint d : uint_value d 0 = Z.of_N (Pos.of_uint d).
Proof.
  induction d; simpl; [reflexivity|exact IHd|..];
    match goal with
    | |- uint_value _ ?a = Z.pos (Pos.of_uint_acc _ ?b) =>
        change a with (Z.pos b); apply uint_value_acc
    end.
Qed.

(** [ParseUint_loop] reads a numeral back, as long as its value fits
    [uint64]. *)
Lemma ParseUint_loop_numeral d : forall acc,
  0 <= acc -> uint_value d acc < two64 ->
  ParseUint_loop (NilEmpty.string_of_uint d) acc = inr (uint_value d acc).
Proof.
  induction d; intros acc Hacc Hv; [reflexivity|..];
    cbn [NilEmpty.string_of_uint ParseUint_loop uint_value] in *;
    match goal with
    | |- context [digit_of ?ch] =>
        let v := eval vm_compute in (digit_of ch) in
        change (digit_of ch) with v; cbv iota beta
    end;
    match type of Hv with
    | uint_value _ ?a < _ =>
        pose proof (uint_value_ge d a ltac:(lia)) as Hge;
        change ((two64 - 1) / 10 + 1) with 1844674407370955162;
        unfold two64 in *;
        destruct (Z.geb_spec acc 1844674407370955162) as [Hbig|_]; [lia|];
        destruct (Z.gtb_spec a (2 ^ 64 - 1)) as [Hbig|_]; [lia|];
        apply IHd; [lia|exact Hv]
    end.
Qed.

(** A numeral holds digits only. *)
Lemma numeral_no_occurs ch d :
  is_digit ch = false -> occurs ch (NilEmpty.string_of_uint d) = false.
Proof.
  intros Hch. induction d; cbn [NilEmpty.string_of_uint occurs];
    [reflexivity|..]; rewrite IHd, orb_false_r;
    match goal with
    | |- Ascii.eqb ?x ch = false =>
        destruct (Ascii.eqb_spec x ch) as [<-|]; [discriminate Hch|reflexivity]
    end.
Qed.

Lemma to_uint_value p :
  Pos.to_uint p <> Decimal.Nil
  /\ uint_value (Pos.to_uint p) 0 = Z.pos p.
Proof.
  pose proof (DecimalPos.Unsigned.of_to p) as H. split.
  - intros Hn. rewrite Hn in H. discriminate.
  - rewrite uint_value_of_uint, H. reflexivity.
Qed.

Lemma numeral_first_digit d :
  d <> Decimal.Nil ->
  exists ch rest, NilEmpty.string_of_uint d = String ch rest /\ is_digit ch = true.
Proof. destruct d; [contradiction|..]; intros _; simpl; eauto. Qed.

Lemma is_digit_not_sign ch :
  is_digit ch = true -> Ascii.eqb ch "-" = false /\ Ascii.eqb ch "+" = false.
Proof.
  intros H. split.
  - destruct (Ascii.eqb_spec ch "-"%char) as [->|]; [discriminate|reflexivity].
  - destruct (Ascii.eqb_spec ch "+"%char) as [->|]; [discriminate|reflexivity].
Qed.

(** [strconv.ParseInt] reads back what [fmt.Sprintf("%v", z)] prints, for
    every [int64]. *)
Lemma ParseInt_fmt_v z : is_int64 z -> ParseInt (fmt_v z) = (z, None).
Proof.
  unfold is_int64, two63. intros Hz. unfold fmt_v.
  destruct z as [|p|p]; [reflexivity|..]; cbn [Z.to_int NilZero.string_of_int].
  - destruct (to_uint_value p) as [Hnil Hval].
    assert (Hs : NilZero.string_of_uint (Pos.to_uint p)
                 = NilEmpty.string_of_uint (Pos.to_uint p))
      by (destruct (Pos.to_uint p); [contradiction|reflexivity..]).
    rewrite Hs.
    pose proof (ParseUint_loop_numeral (Pos.to_uint p) 0 ltac:(lia)
                  ltac:(rewrite Hval; unfold two64; lia)) as Hloop.
    destruct (numeral_first_digit _ Hnil) as (ch & rest & Heq & Hdig).
    rewrite Heq in *. destruct (is_digit_not_sign ch Hdig) as [Hm Hp].
    unfold ParseInt. rewrite Hm, Hp. cbn [orb]. unfold ParseUint.
    rewrite Hloop, Hval. cbn [negb andb].
    destruct (Z.geb_spec (Z.pos p) two63) as [Hbig|_];
      [unfold two63 in Hbig; lia|reflexivity].
  - destruct (to_uint_value p) as [Hnil Hval].
    assert (Hs : NilZero.string_of_uint (Pos.to_uint p)
                 = NilEmpty.string_of_uint (Pos.to_uint p))
      by (destruct (Pos.to_uint p); [contradiction|reflexivity..]).
    rewrite Hs.
    pose proof (ParseUint_loop_numeral (Pos.to_uint p) 0 ltac:(lia)
                  ltac:(rewrite Hval; unfold two64; lia)) as Hloop.
    destruct (numeral_first_digit _ Hnil) as (ch & rest & Heq & Hdig).
    unfold ParseInt. change (Ascii.eqb "-" "-") with true.
    rewrite orb_true_r. unfold ParseUint. rewrite Heq in *.
    rewrite Hloop, Hval. cbn [negb andb].
    destruct (Z.gtb_spec (Z.pos p) two63) as [Hbig|_];
      [unfold two63 in Hbig; lia|reflexivity].
Qed.

(** The numeral of a number that is not negative holds neither '-' nor
    '/'. *)
Lemma fmt_v_no_occurs ch z :
  0 <= z -> is_digit ch = false -> occurs ch (fmt_v z) = false.
Proof.
  intros Hz Hch. unfold fmt_v. destruct z as [|p|p]; [|  |lia].
  - change (occurs ch "0" = false). cbn [occurs]. rewrite orb_false_r.
    destruct (Ascii.eqb_spec "0"%char ch) as [<-|]; [discriminate|reflexivity].
  - cbn [Z.to_int NilZero.string_of_int].
    destruct (to_uint_value p) as [Hnil _].
    destruct (Pos.to_uint p) eqn:Hd; [contradiction|..];
      rewrite <- Hd; replace (NilZero.string_of_uint (Pos.to_uint p))
        with (NilEmpty.string_of_uint (Pos.to_uint p))
        by (rewrite Hd; reflexivity); apply numeral_no_occurs; exact Hch.
Qed.

Lemma occurs_app ch s1 s2 :
  occurs ch (s1 +:+ s2) = occurs ch s1 || occurs ch s2.
Proof.
  induction s1 as [|x s1 IH]; simpl; [reflexivity|].
  rewrite IH. apply orb_assoc.
Qed.

Lemma append_assoc s1 s2 s3 : (s1 +:+ s2) +:+ s3 = s1 +:+ (s2 +:+ s3).
Proof.
  induction s1 as [|x s1 IH]; [reflexivity|].
  change (String x ((s1 +:+ s2) +:+ s3) = String x (s1 +:+ (s2 +:+ s3))).
  rewrite IH. reflexivity.
Qed.

(** Up to the first separator, [strings.Split] cuts one piece. *)
Lemma Split_first s1 s2 sep :
  occurs sep s1 = false ->
  Split (s1 +:+ String sep s2) sep = s1 :: Split s2 sep.
Proof.
  induction s1 as [|x s1 IH]; simpl.
  - intros _. rewrite Ascii.eqb_refl. reflexivity.
  - intros H. apply orb_false_iff in H as [Hx Hs]. rewrite Hx, (IH Hs). reflexivity.
Qed.

Lemma parseBody_range (from to : Z) (total : string) :
  0 <= from -> 0 <= to < two63 ->
  parseBody (fmt_v from +:+ "-" +:+ fmt_v to +:+ "/" +:+ total) = Val (to, None).
Proof.
  intros Hfrom Hto. unfold parseBody.
  assert (Hslash : occurs "/" (fmt_v from +:+ "-" +:+ fmt_v to) = false).
  { rewrite !occurs_app, !fmt_v_no_occurs by (reflexivity || lia). reflexivity. }
  replace (fmt_v from +:+ "-" +:+ fmt_v to +:+ "/" +:+ total)
    with ((fmt_v from +:+ "-" +:+ fmt_v to) +:+ String "/" total).
  2:{ rewrite !append_assoc. reflexivity. }
  rewrite (Split_first _ _ _ Hslash). cbn [index nth_error].
  change ("-" +:+ fmt_v to) with (String "-" (fmt_v to)).
  rewrite Split_first by (apply fmt_v_no_occurs; [lia|reflexivity]).
  rewrite Split_no_sep by (apply fmt_v_no_occurs; [lia|reflexivity]).
  cbn [index nth_error].
  rewrite ParseInt_fmt_v by (unfold is_int64, two63 in *; lia).
  reflexivity.
Qed.

(** A body in the form the server is to answer with,
    ["{from}-{to}/{total}"]: [parseBody] returns its [to], whatever follows
    the '/'. *)
Theorem parseBody_reads_range_end (from to : Z) (total : string) :
  0 <= from -> 0 <= to < two63 ->
  parseBody (fmt_v from +:+ "-" +:+ fmt_v to +:+ "/" +:+ total) = Val (to, None).
Proof. exact (parseBody_range from to total). Qed.

Lemma parseBody_reads_range_end_witness :
  parseBody "100-200/250" = Val (200, None).
Proof.
  apply (parseBody_reads_range_end 100 200 "250"); unfold two63; lia.
Defined.

(** ** The default delta and the parsed one *)

(** C10, as stated, fails on its last clause: "x-100" is not empty and not
    of the form "{from}-{to}/{total}", and for a part size of 100 it
    yields 100, which is the default delta. *)
Lemma malformed_body_yields_default_delta :
  let status := {| Size := 250; SizeTransferred := 0; Parts := 3;
                   PartsTransferred := 0; IsDone := false;
                   TransferredException := false |} in
  calculateTransferredSize "x-100" 100 status = Val (100, None)
  /\ calculateTransferredSize "" 100 status = Val (100, None).
Proof. split; reflexivity. Qed.

(** C10, amended. The default delta, the requested part size capped by
    what is left of the total, is computed for the empty body only.  A
    body that is not empty is parsed, whatever it holds, and what it
    yields depends neither on the part size nor on the status: the [to] of
    a body "{from}-{to}/{total}", and a panic when there is no '-' before
    the first '/'. *)
Theorem calculateTransferredSize_parses_nonempty_body
    (body : string) (partSize : Z) (status : UploadStatus) :
  body <> "" ->
  calculateTransferredSize body partSize status = parseBody body
  /\ (forall partSize' status',
        calculateTransferredSize body partSize' status'
        = calculateTransferredSize body partSize status)
  /\ (occurs "-" (hd "" (Split body "/")) = false ->
      calculateTransferredSize body partSize status = Panic)
  /\ (forall from to total,
        0 <= from -> 0 <= to < two63 ->
        body = fmt_v from +:+ "-" +:+ fmt_v to +:+ "/" +:+ total ->
        calculateTransferredSize body partSize status = Val (to, None))
  /\ (is_int64 partSize ->
      is_int64 (partSize + SizeTransferred status) ->
      is_int64 (Size status - SizeTransferred status) ->
      calculateTransferredSize "" partSize status
      = Val (Z.min partSize (Size status - SizeTransferred status), None)).
Proof.
  intros Hne.
  assert (Hparsed : forall p s, calculateTransferredSize body p s = parseBody body).
  { intros p s. unfold calculateTransferredSize.
    destruct (String.eqb_spec body ""); [contradiction|reflexivity]. }
  split; [apply Hparsed|].
  split; [intros p s; rewrite !Hparsed; reflexivity|].
  split; [intros Hno; rewrite Hparsed; apply parseBody_range_no_dash; exact Hno|].
  split.
  - intros from to total Hfrom Hto ->. rewrite Hparsed. apply parseBody_range; assumption.
  - intros Hp Hs Hd. unfold calculateTransferredSize, is_int64, i64_add, i64_sub in *.
    simpl. rewrite (to_int64_small partSize) by lia.
    rewrite (to_int64_small (partSize + _)) by lia.
    rewrite (to_int64_small (Size status - _)) by lia.
    destruct (Z.gtb_spec (partSize + SizeTransferred status) (Size status));
      do 2 f_equal; lia.
Qed.

(** A body in the form of a range, with a part size of 50: the result is
    the end of the range. *)
Lemma calculateTransferredSize_parses_nonempty_body_witness :
  calculateTransferredSize "100-200/250" 50
    {| Size := 250; SizeTransferred := 200; Parts := 3; PartsTransferred := 2;
       IsDone := false; TransferredException := false |}
  = Val (200, None).
Proof.
  destruct (calculateTransferredSize_parses_nonempty_body "100-200/250" 50
              {| Size := 250; SizeTransferred := 200; Parts := 3;
                 PartsTransferred := 2; IsDone := false;
                 TransferredException := false |})
    as (_ & _ & _ & Hrange & _); [discriminate|].
  apply (Hrange 100 200 "250"); [lia|unfold two63; lia|reflexivity].
Defined.

(** ** utils.go: the session id *)

Lemma rand_Read_length delivered n : length (rand_Read delivered n) = n.
Proof.
  unfold rand_Read. rewrite length_take, length_app, length_replicate. lia.
Qed.

Lemma rand_Read_full delivered n :
  length delivered = n -> rand_Read delivered n = delivered.
Proof.
  intros H. unfold rand_Read. rewrite take_app_le by lia.
  apply take_ge. lia.
Qed.

Lemma Sprintf_X_length b : String.length (Sprintf_X b) = (2 * length b)%nat.
Proof. induction b as [|x b IH]; simpl; [reflexivity|]. rewrite IH. lia. Qed.

Lemma hex_byte x :
  is_upper_hex (hex_digit (Byte.to_N x / 16)) = true
  /\ is_upper_hex (hex_digit (Byte.to_N x mod 16)) = true
  /\ Byte.of_N (hex_value (hex_digit (Byte.to_N x / 16)) * 16
                + hex_value (hex_digit (Byte.to_N x mod 16))) = Some x.
Proof. destruct x; vm_compute; repeat split. Qed.

Lemma Sprintf_X_hex b :
  Forall (fun ch => is_upper_hex ch = true) (list_ascii_of_string (Sprintf_X b)).
Proof.
  induction b as [|x b IH]; simpl; [constructor|].
  destruct (hex_byte x) as (H1 & H2 & _).
  constructor; [exact H1|]. constructor; [exact H2|exact IH].
Qed.

Lemma unhex_Sprintf_X b : unhex (Sprintf_X b) = b.
Proof.
  induction b as [|x b IH]; [reflexivity|].
  cbn [Sprintf_X unhex]. destruct (hex_byte x) as (_ & _ & ->).
  rewrite IH. reflexivity.
Qed.

(** The session id is a string of 16 upper-case hexadecimal digits that
    spells out the eight bytes drawn: ids are equal only when the bytes
    are. *)
Theorem generateSessionID_hex :
  (forall delivered,
      String.length (generateSessionID delivered) = 16%nat
      /\ Forall (fun ch => is_upper_hex ch = true)
           (list_ascii_of_string (generateSessionID delivered)))
  /\ (forall b1 b2,
        length b1 = 8%nat -> length b2 = 8%nat ->
        generateSessionID b1 = generateSessionID b2 -> b1 = b2).
Proof.
  split.
  - intros delivered. unfold generateSessionID. split.
    + rewrite Sprintf_X_length, rand_Read_length. reflexivity.
    + apply Sprintf_X_hex.
  - intros b1 b2 H1 H2 Heq. unfold generateSessionID in Heq.
    rewrite !rand_Read_full in Heq by assumption.
    rewrite <- (unhex_Sprintf_X b1), <- (unhex_Sprintf_X b2), Heq. reflexivity.
Qed.

(** ** The size of a part *)

Section PartSize.

Variable E : Env.

(** With a chunk size below [2^53], the size of a part that lies within the
    payload is the chunk size, or what is left of the payload when that is
    less: the detour through [float64] loses nothing. *)
Lemma partSize_of_exact i chunk size :
  0 < chunk < 2 ^ 53 -> 0 <= i -> i * chunk < size -> size < two63 ->
  partSize_of E i chunk size = Z.min chunk (size - i * chunk).
Proof.
  intros Hc Hi Hlt Hsize. unfold partSize_of.
  assert (H64 : two63 < two64) by (unfold two63, two64; lia).
  assert (H53 : 2 ^ 53 < two63) by (unfold two63; lia).
  assert (Hic : 0 <= i * chunk) by nia.
  assert (Hrem : i64_sub size (to_int64 (u64_mul i (to_uint64 chunk))) = size - i * chunk).
  { unfold i64_sub, u64_mul. rewrite (to_uint64_small chunk) by lia.
    rewrite (to_uint64_small (i * chunk)) by lia.
    rewrite (to_int64_small (i * chunk)) by lia.
    apply to_int64_small. lia. }
  rewrite Hrem. set (rem := size - i * chunk) in *.
  destruct (F64Facts.of_int_pos chunk ltac:(lia)) as (n1 & d1 & v1 & -> & Hd1 & -> & Hv1 & Hlt1 & _).
  rewrite (Hlt1 ltac:(lia)) in *. clear Hlt1 v1 Hv1.
  destruct (F64Facts.of_int_pos rem ltac:(lia)) as (n2 & d2 & v2 & -> & Hd2 & -> & Hv2 & Hlt2 & Hge2).
  unfold F64.min, F64.fin_le.
  assert (Hfin : forall v d, 0 < d -> 0 < v < two63 ->
            int_of_float E (F64.ceil (F64.Fin (v * d) d)) = v).
  { intros v d Hd Hv. unfold int_of_float, F64.ceil, F64.trunc.
    rewrite Z.quot_1_r.
    replace (- (v * d)) with ((- v) * d) by ring.
    rewrite Z.div_mul by lia. rewrite Z.opp_involutive.
    destruct (Z.leb_spec (- two63) v); [|lia].
    destruct (Z.ltb_spec v two63); [|lia]. reflexivity. }
  destruct (Z.leb_spec (chunk * d1 * d2) (v2 * d2 * d1)) as [Hle|Hgt].
  - rewrite Hfin by lia.
    assert (chunk <= v2).
    { assert (chunk * (d1 * d2) <= v2 * (d1 * d2)) by lia.
      apply (Z.mul_le_mono_pos_r _ _ (d1 * d2)); [apply Z.mul_pos_pos; assumption|exact H]. }
    destruct (Z_lt_le_dec rem (2 ^ 53)) as [Hs|Hb].
    + rewrite (Hlt2 Hs) in *. lia.
    + lia.
  - assert (v2 < chunk).
    { assert (v2 * (d1 * d2) < chunk * (d1 * d2)) by lia.
      apply (Z.mul_lt_mono_pos_r (d1 * d2)); [apply Z.mul_pos_pos; assumption|exact H]. }
    destruct (Z_lt_le_dec rem (2 ^ 53)) as [Hs|Hb].
    + rewrite (Hlt2 Hs) in *. rewrite Hfin by lia. lia.
    + specialize (Hge2 Hb). lia.
Qed.

Lemma of_int_nonpos z :
  is_int64 z -> z <= 0 ->
  exists n d, F64.of_int z = F64.Fin n d /\ 0 < d /\ - 2 ^ 63 * d <= n <= 0.
Proof.
  intros Hz Hle. destruct (Z.eq_dec z 0) as [->|Hne].
  - exists 0, 1. split; [reflexivity|]. lia.
  - unfold is_int64, two63 in Hz.
    destruct (F64Facts.of_int_pos_le (- z) ltac:(lia)) as (n & d & Hof & Hd & Hn).
    exists (- n), d. split; [|lia].
    unfold F64.of_int, F64.round53 in *.
    destruct (Z.eqb_spec z 0); [lia|]. destruct (Z.ltb_spec 0 z); [lia|].
    destruct (Z.eqb_spec (- z) 0); [lia|]. destruct (Z.ltb_spec 0 (- z)); [|lia].
    rewrite Hof. reflexivity.
Qed.

(** With a chunk size of 0 or below, no part has a positive size. *)
Lemma partSize_of_nonpos i chunk size :
  is_int64 chunk -> chunk <= 0 -> partSize_of E i chunk size <= 0.
Proof.
  intros Hc Hle. unfold partSize_of.
  set (rem := i64_sub size _).
  assert (Hrem : is_int64 rem) by apply F64Facts.to_int64_range.
  destruct (of_int_nonpos chunk Hc Hle) as (n1 & d1 & -> & Hd1 & Hn1).
  destruct (F64Facts.of_int_range rem Hrem) as (n2 & d2 & -> & Hd2 & Hn2).
  unfold F64.min, F64.fin_le.
  assert (Hfin : forall n d, 0 < d -> - 2 ^ 63 * d <= n <= 0 ->
            int_of_float E (F64.ceil (F64.Fin n d)) <= 0).
  { intros n d Hd Hn. unfold int_of_float, F64.ceil, F64.trunc.
    rewrite Z.quot_1_r.
    pose proof (F64Facts.ceil_bounds n d Hd) as Hcb. set (cc := - ((- n) / d)) in *.
    assert (Hcc1 : cc <= 0).
    { assert ((cc - 1) * d < 0 * d) by lia.
      assert (cc - 1 < 0) by (apply (Z.mul_lt_mono_pos_r d); assumption). lia. }
    assert (Hcc2 : - 2 ^ 63 <= cc).
    { assert (- 2 ^ 63 * d <= cc * d) by lia.
      apply (Z.mul_le_mono_pos_r _ _ d Hd). assumption. }
    unfold two63.
    destruct (Z.leb_spec (- 2 ^ 63) cc); [|lia].
    destruct (Z.ltb_spec cc (2 ^ 63)); [|lia]. simpl. exact Hcc1. }
  destruct (Z.leb_spec (n1 * d2) (n2 * d1)).
  - apply Hfin; assumption.
  - apply Hfin; [assumption|]. split; [lia|]. nia.
Qed.

End PartSize.

(** ** What a chunk can do to the uploader and to the world *)

Lemma same_files_refl x : same_files x x.
Proof. repeat split. Qed.

Lemma same_files_trans x1 x2 x3 :
  same_files x1 x2 -> same_files x2 x3 -> same_files x1 x3.
Proof. unfold same_files. intros (?&?&?&?) (?&?&?&?). repeat split; congruence. Qed.

Lemma evolves_refl rq st : evolves rq 0 0 st st.
Proof.
  unfold evolves. simpl. rewrite !app_nil_r, drop_0.
  repeat split.
Qed.

Lemma evolves_trans rq k1 m1 k2 m2 st1 st2 st3 :
  evolves rq k1 m1 st1 st2 -> evolves rq k2 m2 st2 st3 ->
  evolves rq (k1 + k2) (m1 + m2) st1 st3.
Proof.
  intros (Hc1 & Hr1 & Hf1 & Hs1 & Hn1 & Ho1) (Hc2 & Hr2 & Hf2 & Hs2 & Hn2 & Ho2).
  unfold evolves. split; [congruence|]. split; [congruence|].
  split; [eapply same_files_trans; eassumption|].
  split; [|split].
  - rewrite Hs2, Hs1, <- app_assoc, <- replicate_add. reflexivity.
  - rewrite Hn2, Hn1, drop_drop. reflexivity.
  - rewrite Ho2, Ho1, Hc1, <- app_assoc, <- replicate_add. reflexivity.
Qed.

Lemma evolves_log rq st : evolves rq 0 1 st (log st).2.
Proof.
  unfold evolves, log. simpl. rewrite app_nil_r, drop_0. repeat split.
Qed.

Section Shape.

Variable E : Env.

(** One call of [httpRequest]: it returns, with an error only together with
    [false] and an empty body; the request went out once, unless
    [http.NewRequest] refused it. *)
Lemma httpRequest_shape u part cr fn st :
  exists res k m,
    httpRequest E (method u) (url u) None (id u) part cr fn st
    = (Val res, (httpRequest E (method u) (url u) None (id u)
                   part cr fn st).2)
    /\ evolves (chunk_request E u part cr fn) k m st
         (httpRequest E (method u) (url u) None (id u)
            part cr fn st).2
    /\ (k <= 1)%nat.
Proof.
  unfold httpRequest. fold (chunk_request E u part cr fn).
  destruct (NewRequest_err E (method u) (url u)) as [msg|].
  - exists (false, "", Some (ErrOther msg)), 0%nat, 0%nat.
    split; [reflexivity|]. split; [apply evolves_refl|lia].
  - destruct st as [u0 x]. unfold bind, client_Do, log, ret. cbn [c w].
    destruct (net x) as [|o rest] eqn:Hnet.
    + eexists _, 1%nat, 0%nat. split; [reflexivity|]. split; [|lia].
      unfold evolves. simpl. rewrite Hnet, app_nil_r. repeat split.
    + destruct o as [e|code [e|body]].
      * eexists _, 1%nat, 0%nat. split; [reflexivity|]. split; [|lia].
        unfold evolves. simpl. rewrite Hnet, app_nil_r. simpl. rewrite drop_0.
        repeat split.
      * eexists _, 1%nat, 1%nat. split; [reflexivity|]. split; [|lia].
        unfold evolves. simpl. rewrite Hnet. simpl. rewrite drop_0.
        repeat split.
      * eexists _, 1%nat, 2%nat. split; [reflexivity|]. split; [|lia].
        unfold evolves. simpl. rewrite Hnet. simpl. rewrite drop_0.
        rewrite <- app_assoc. repeat split.
Qed.

(** The retry loop: it leaves the uploader as it is and sends the one
    request it is given, at most [3 - errorCount] times. *)
Lemma sendLoop_shape n part cr fn :
  forall isSuccess responseBody errorCount st,
    exists k m,
      evolves (chunk_request E (c st) part cr fn) k m st
        (sendLoop E n part cr fn isSuccess responseBody errorCount st).2
      /\ (errorCount <= 3 -> Z.of_nat k <= 3 - errorCount)
      /\ (isSuccess = true -> k = 0%nat).
Proof.
  induction n as [|n IH]; intros ok body ec st.
  - exists 0%nat, 0%nat. split; [|split; [lia|reflexivity]].
    simpl. destruct (negb ok && (ec <? 3)); apply evolves_refl.
  - cbn [sendLoop].
    destruct (negb ok && (ec <? 3)) eqn:Hgo.
    2:{ exists 0%nat, 0%nat. split; [apply evolves_refl|split; [lia|reflexivity]]. }
    assert (Hok : ok = false) by (destruct ok; [discriminate|reflexivity]).
    apply andb_true_iff in Hgo as [_ Hec]. apply Z.ltb_lt in Hec.
    unfold bind at 1. unfold get at 1. unfold bind at 1.
    destruct (httpRequest_shape (c st) part cr fn st) as (res & k1 & m1 & Hrun & Hev1 & Hk1).
    rewrite Hrun.
    set (st1 := (httpRequest E (method (c st)) (url (c st)) None
                   (id (c st)) part cr fn st).2) in *.
    clearbody st1. clear Hrun.
    destruct res as [[ok1 body1] err].
    unfold bind at 1. unfold log at 1. cbn [fst snd].
    set (st2 := {| c := c st1; w := _ |}).
    assert (Hev2 : evolves (chunk_request E (c st) part cr fn) k1 (m1 + 1) st st2).
    { replace k1 with (k1 + 0)%nat by lia.
      eapply evolves_trans; [exact Hev1|]. apply (evolves_log _ st1). }
    clearbody st2.
    assert (Hc2 : c st2 = c st) by (destruct Hev2 as [H _]; exact H).
    destruct err as [e|].
    + unfold bind at 1. unfold bind at 1. unfold log at 1. unfold ret at 1.
      cbn [negb fst snd].
      set (st3 := {| c := c st2; w := _ |}).
      assert (Hev3 : evolves (chunk_request E (c st) part cr fn) k1 (m1 + 1 + 1) st st3).
      { replace k1 with (k1 + 0)%nat by lia.
        eapply evolves_trans; [exact Hev2|]. apply (evolves_log _ st2). }
      clearbody st3.
      assert (Hc3 : c st3 = c st) by (destruct Hev3 as [H _]; exact H).
      destruct (IH false body1 (ec + 1) st3) as (k & m & Hev & Hk & _).
      rewrite Hc3 in Hev.
      exists (k1 + k)%nat, (m1 + 1 + 1 + m)%nat. split; [|split].
      * eapply evolves_trans; eassumption.
      * intros _. specialize (Hk ltac:(lia)). lia.
      * intros Ht. congruence.
    + unfold bind at 1. unfold ret at 1.
      destruct (IH ok1 body1 (if negb ok1 then ec + 1 else ec) st2)
        as (k & m & Hev & Hk & Hk0).
      rewrite Hc2 in Hev.
      exists (k1 + k)%nat, (m1 + 1 + m)%nat. split; [|split].
      * eapply evolves_trans; eassumption.
      * intros _. destruct ok1; cbn [negb] in *.
        -- rewrite (Hk0 eq_refl). lia.
        -- specialize (Hk ltac:(lia)). lia.
      * intros Ht. congruence.
Qed.

Lemma untouched_refl u : untouched u u.
Proof. repeat split. Qed.

Lemma untouched_status u f :
  Size (f (Status u)) = Size (Status u) -> Parts (f (Status u)) = Parts (Status u) ->
  untouched u (with_Status f u).
Proof. intros H1 H2. repeat split; assumption. Qed.

Variable fuel : nat.

Lemma uploadChunk_shape i st : chunk_step E i st (uploadChunk E fuel i st).2.
Proof.
  assert (H : forall r, uploadChunk E fuel i st = r -> chunk_step E i st r.2);
    [|apply H; reflexivity].
  intros r. destruct st as [u x]. unfold chunk_step. cbn [c w].
  unfold uploadChunk. unfold bind at 1. unfold get at 1.
  cbn [c w fst snd]. cbv zeta.
  set (rq := fun part => chunk_request E u part
                (generateContentRange i (chunkSize u)
                   (partSize_of E i (chunkSize u) (Size (Status u))) (Size (Status u)))
                (filepath_Base E (filePath u))).
  assert (Hnone : forall x', sent x' = sent x -> net x' = net x ->
            exists (k : nat) (part : list Byte.byte),
              (k <= 3)%nat /\ sent x' = sent x ++ replicate k (rq part)
              /\ net x' = drop k (net x)
              /\ ((0 < k)%nat -> reads x = (part, None) :: reads x')).
  { intros x' Hs Hn. exists 0%nat, []. simpl. rewrite app_nil_r, drop_0.
    split; [lia|]. split; [exact Hs|]. split; [exact Hn|]. lia. }
  destruct (Z.eqb_spec i (Parts (Status u))) as [Hi|Hi].
  { intros <-. cbv [bind log uploadDone update ret fst snd c w].
    split; [repeat split|]. split; [repeat split|].
    split; [apply Hnone; reflexivity|]. split; [left; reflexivity|].
    split; [exists 2%nat, 0%nat; simpl; rewrite <- app_assoc; reflexivity|].
    split; [right; left; exists false; reflexivity|].
    intros _. split; reflexivity. }
  destruct (TransferredException (Status u)) eqn:Hte.
  { intros <-. cbv [bind log uploadDone update ret fst snd c w].
    split; [repeat split|]. split; [repeat split|].
    split; [apply Hnone; reflexivity|]. split; [left; reflexivity|].
    split; [exists 1%nat, 0%nat; simpl; reflexivity|].
    split; [left; reflexivity|]. intros; contradiction. }
  destruct (Z.leb_spec (partSize_of E i (chunkSize u) (Size (Status u))) 0) as [Hle|Hpos].
  { intros <-. cbv [bind log uploadDone update ret fst snd c w].
    split; [repeat split|]. split; [repeat split|].
    split; [apply Hnone; reflexivity|]. split; [left; reflexivity|].
    split; [exists 0%nat, 0%nat; simpl; rewrite app_nil_r; reflexivity|].
    split; [left; reflexivity|]. intros; contradiction. }
  unfold bind at 1. unfold ReadFull at 1. cbn [c w].
  destruct (reader u) as [src|].
  2:{ intros <-. cbn [fst snd c w].
      split; [repeat split|]. split; [repeat split|].
      split; [apply Hnone; reflexivity|]. split; [left; reflexivity|].
      split; [exists 0%nat, 0%nat; simpl; rewrite app_nil_r; reflexivity|].
      split; [left; reflexivity|]. intros; contradiction. }
  destruct (reads x) as [|[partBuffer err] later] eqn:Hreads.
  { intros <-. cbv [bind log uploadDone update ret fst snd c w].
    split; [repeat split|]. split; [repeat split|].
    split.
    { exists 0%nat, []. simpl. rewrite app_nil_r, drop_0.
      split; [lia|]. split; [reflexivity|]. split; [reflexivity|]. lia. }
    split; [left; assumption|].
    split; [exists 2%nat, 0%nat; simpl; rewrite <- app_assoc; reflexivity|].
    split; [right; left; exists true; reflexivity|]. intros; contradiction. }
  destruct err as [e|].
  { intros <-. cbv [bind log uploadDone update ret fst snd c w].
    split; [repeat split|]. split; [repeat split|].
    split.
    { exists 0%nat, []. simpl. rewrite app_nil_r, drop_0.
      split; [lia|]. split; [reflexivity|]. split; [reflexivity|]. lia. }
    split; [right; reflexivity|].
    split; [exists 2%nat, 0%nat; simpl; rewrite <- app_assoc; reflexivity|].
    split; [right; left; exists true; reflexivity|]. intros; contradiction. }
  unfold bind at 1. unfold log at 1. cbn [c w fst snd].
  set (st2 := {| c := u; w := _ |}).
  unfold bind at 1.
  destruct (sendLoop_shape fuel partBuffer
              (generateContentRange i (chunkSize u)
                 (partSize_of E i (chunkSize u) (Size (Status u))) (Size (Status u)))
              (filepath_Base E (filePath u)) false "" 0 st2)
    as (k & m & Hev & Hk & _).
  specialize (Hk ltac:(lia)).
  unfold evolves in Hev. change (c st2) with u in Hev. fold (rq partBuffer) in Hev.
  destruct Hev as (Hc3 & Hr3 & Hf3 & Hs3 & Hn3 & Ho3).
  change (reads (w st2)) with later in Hr3.
  change (sent (w st2)) with (sent x) in Hs3.
  change (net (w st2)) with (net x) in Hn3.
  change (observed (w st2)) with (observed x ++ [Status u]) in Ho3.
  change (c st2) with u in Ho3.
  change (w st2) with (with_observed (observed x ++ [Status u]) (with_reads later x)) in Hf3.
  assert (Hf : forall x', same_files (w (sendLoop E fuel partBuffer
              (generateContentRange i (chunkSize u)
                 (partSize_of E i (chunkSize u) (Size (Status u))) (Size (Status u)))
              (filepath_Base E (filePath u)) false "" 0 st2).2) x' -> same_files x x').
  { intros x' H. eapply same_files_trans; [|exact H].
    eapply same_files_trans; [|exact Hf3]. repeat split. }
  assert (Hsent : forall x',
            sent x' = sent (w (sendLoop E fuel partBuffer
              (generateContentRange i (chunkSize u)
                 (partSize_of E i (chunkSize u) (Size (Status u))) (Size (Status u)))
              (filepath_Base E (filePath u)) false "" 0 st2).2) ->
            net x' = net (w (sendLoop E fuel partBuffer
              (generateContentRange i (chunkSize u)
                 (partSize_of E i (chunkSize u) (Size (Status u))) (Size (Status u)))
              (filepath_Base E (filePath u)) false "" 0 st2).2) ->
            reads x' = later ->
            exists (k : nat) (part : list Byte.byte),
              (k <= 3)%nat /\ sent x' = sent x ++ replicate k (rq part)
              /\ net x' = drop k (net x)
              /\ ((0 < k)%nat -> (partBuffer, @None GoError) :: later
                                 = (part, None) :: reads x')).
  { intros x' Hs Hn Hr. exists k, partBuffer. split; [lia|].
    split; [congruence|]. split; [congruence|]. intros _. congruence. }
  clearbody st2.
  destruct (sendLoop E fuel partBuffer
              (generateContentRange i (chunkSize u)
                 (partSize_of E i (chunkSize u) (Size (Status u))) (Size (Status u)))
              (filepath_Base E (filePath u)) false "" 0 st2)
    as [[[[ok body] ec]| |] st3]; cbn [fst snd] in *.
  - destruct st3 as [u3 x3]. cbn [c w] in *. subst u3.
    destruct ok.
    + unfold bind at 1. unfold bind at 1. unfold get at 1. cbn [c w fst snd].
      unfold bind at 1. unfold lift at 1.
      destruct (calculateTransferredSize body
                  (partSize_of E i (chunkSize u) (Size (Status u))) (Status u))
        as [[tb [e|]]| |]; cbn [fst snd c w].
      * intros <-. cbv [bind checkError log uploadDone update ret fst snd c w negb].
        split; [repeat split|]. split; [apply Hf; repeat split|].
        split; [apply Hsent; (reflexivity || assumption)|]. split; [right; assumption|].
        split.
        { exists (1 + m + 2)%nat, 1%nat. rewrite Ho3. simpl.
          rewrite <- !app_assoc. simpl. rewrite replicate_add. simpl.
          rewrite <- !app_assoc. reflexivity. }
        split; [right; left; exists true; reflexivity|]. intros; contradiction.
      * intros <-. cbv [bind checkError log uploadDone update ret fst snd c w negb].
        split; [repeat split|]. split; [apply Hf; repeat split|].
        split; [apply Hsent; (reflexivity || assumption)|]. split; [right; assumption|].
        split.
        { exists (1 + m)%nat, 1%nat. rewrite Ho3. simpl.
          rewrite <- !app_assoc. reflexivity. }
        split; [right; right; split; [exact Hi|exists tb; reflexivity]|].
        intros; contradiction.
      * intros <-. cbn [fst snd c w].
        split; [repeat split|]. split; [apply Hf; repeat split|].
        split; [apply Hsent; (reflexivity || assumption)|]. split; [right; assumption|].
        split.
        { exists (1 + m)%nat, 0%nat. rewrite Ho3. simpl.
          rewrite <- !app_assoc, app_nil_r. reflexivity. }
        split; [left; reflexivity|]. intros; contradiction.
      * intros <-. cbn [fst snd c w].
        split; [repeat split|]. split; [apply Hf; repeat split|].
        split; [apply Hsent; (reflexivity || assumption)|]. split; [right; assumption|].
        split.
        { exists (1 + m)%nat, 0%nat. rewrite Ho3. simpl.
          rewrite <- !app_assoc, app_nil_r. reflexivity. }
        split; [left; reflexivity|]. intros; contradiction.
    + intros <-. cbv [bind log uploadDone update ret fst snd c w].
      split; [repeat split|]. split; [apply Hf; repeat split|].
      split; [apply Hsent; (reflexivity || assumption)|]. split; [right; assumption|].
      split.
      { exists (1 + m + 1)%nat, 1%nat. rewrite Ho3. simpl.
        rewrite <- !app_assoc. simpl. rewrite replicate_add. simpl.
        rewrite <- !app_assoc. reflexivity. }
      split; [right; left; exists true; reflexivity|]. intros; contradiction.
  - intros <-. destruct st3 as [u3 x3]. cbn [c w fst snd] in *. subst u3.
    split; [repeat split|]. split; [apply Hf; repeat split|].
    split; [apply Hsent; (reflexivity || assumption)|]. split; [right; assumption|].
    split.
    { exists (1 + m)%nat, 0%nat. rewrite Ho3. simpl.
      rewrite <- !app_assoc, app_nil_r. reflexivity. }
    split; [left; reflexivity|]. intros; contradiction.
  - intros <-. destruct st3 as [u3 x3]. cbn [c w fst snd] in *. subst u3.
    split; [repeat split|]. split; [apply Hf; repeat split|].
    split; [apply Hsent; (reflexivity || assumption)|]. split; [right; assumption|].
    split.
    { exists (1 + m)%nat, 0%nat. rewrite Ho3. simpl.
      rewrite <- !app_assoc, app_nil_r. reflexivity. }
    split; [left; reflexivity|]. intros; contradiction.
Qed.

End Shape.

Section Loop.

Variable E : Env.
Variable fuel : nat.

(** [J i] is to hold at the head of the loop of [uploadFile] when the index
    is [i]. *)
Variable J : Z -> State -> Prop.

Hypothesis J_step :
  forall i st st',
    J i st -> IsDone (Status (c st)) = false -> chunk_step E i st st' ->
    J (u64_add i 1) st'.

Lemma uploadFile_loop_inv n :
  forall i st, J i st -> exists j, J j (uploadFile_loop E fuel n i st).2.
Proof.
  induction n as [|n IH]; intros i st HJ; simpl; unfold bind at 1; unfold get at 1;
    cbn [fst snd].
  - destruct (IsDone (Status (c st))); simpl; exists i; exact HJ.
  - destruct (IsDone (Status (c st))) eqn:Hdone; simpl; [exists i; exact HJ|].
    unfold bind.
    pose proof (uploadChunk_shape E fuel i st) as Hstep.
    pose proof (J_step i st _ HJ Hdone Hstep) as HJ1.
    destruct (uploadChunk E fuel i st) as [[[]| |] st1]; cbn [fst snd] in *.
    + apply IH. exact HJ1.
    + eexists. exact HJ1.
    + eexists. exact HJ1.
Qed.

End Loop.

(** [Close]: it returns; the file of an uploader made from a path is
    closed; the status is observed, and nothing else changes. *)
Lemma Close_shape st :
  exists st' m,
    Close st = (Val tt, st') /\ c st' = c st
    /\ sent (w st') = sent (w st) /\ net (w st') = net (w st)
    /\ reads (w st') = reads (w st)
    /\ os_Stat (w st') = os_Stat (w st) /\ os_Open (w st') = os_Open (w st)
    /\ file_Close (w st') = file_Close (w st)
    /\ observed (w st') = observed (w st) ++ replicate m (Status (c st))
    /\ closed (w st') = closed (w st) ++ closing (c st).
Proof.
  destruct st as [u x]. unfold Close, closing, bind, get, log, ret. simpl.
  destruct (String.eqb (filePath u) ""); simpl.
  - exists {| c := u; w := with_observed (observed x ++ [Status u]) x |}, 1%nat.
    simpl. rewrite app_nil_r. repeat split.
  - unfold file_close. simpl. destruct (file u) as [path|]; simpl.
    + destruct (file_Close x path); eexists.
      * exists 3%nat. simpl. rewrite <- !app_assoc. repeat split.
      * exists 2%nat. simpl. rewrite <- !app_assoc. repeat split.
    + eexists. exists 3%nat. simpl. rewrite <- !app_assoc, app_nil_r. repeat split.
Qed.

(** The upload part of [Init] around the loop of [uploadFile]. *)
Lemma Init_upload_shape E fuel st :
  let p := parts_of E (Size (Status (c st))) (chunkSize (c st)) in
  let st0 := {| c := with_Status (set_Parts p) (c st); w := w st |} in
  let loop := uploadFile_loop E fuel fuel 0 st0 in
  exists st' m,
    Init_upload E fuel st
    = (match loop.1 with
       | Val _ => Val None
       | Panic => Panic
       | OutOfFuel => OutOfFuel
       end, st')
    /\ c st' = c loop.2
    /\ sent (w st') = sent (w loop.2) /\ net (w st') = net (w loop.2)
    /\ reads (w st') = reads (w loop.2)
    /\ os_Stat (w st') = os_Stat (w loop.2)
    /\ os_Open (w st') = os_Open (w loop.2)
    /\ file_Close (w st') = file_Close (w loop.2)
    /\ observed (w st') = observed (w loop.2) ++ replicate m (Status (c loop.2))
    /\ closed (w st')
       = closed (w loop.2)
         ++ match loop.1 with OutOfFuel => [] | _ => closing (c loop.2) end.
Proof.
  intros p st0 loop. unfold Init_upload, defer.
  unfold bind at 1. unfold get at 1. unfold bind at 1. unfold update at 1.
  fold p. fold st0. unfold uploadFile. unfold bind at 1. fold loop.
  destruct loop as [[[]| |] st3]; cbn [fst snd].
  - unfold bind, log, ret.
    match goal with
    | |- context [Close ?s] =>
        destruct (Close_shape s) as (st' & m & -> & Hc & Hs & Hn & Hr & H1 & H2 & H3 & Ho & Hcl)
    end.
    cbn [fst snd c w] in *. exists st', (1 + m)%nat.
    rewrite Hc, Hs, Hn, Hr, H1, H2, H3, Ho, Hcl. cbn [replicate Nat.add].
    unfold with_observed. cbn [sent net reads os_Stat os_Open file_Close observed closed].
    rewrite <- !app_assoc. repeat split.
  - destruct (Close_shape st3) as (st' & m & -> & Hc & Hs & Hn & Hr & H1 & H2 & H3 & Ho & Hcl).
    exists st', m. rewrite Hc, Hs, Hn, Hr, H1, H2, H3, Ho, Hcl. repeat split.
  - exists st3, 0%nat. simpl. rewrite !app_nil_r. repeat split.
Qed.

(** The part of [Init] that sets up the source, case by case. *)
Lemma Init_source_shape u x :
  let run := Init_source {| c := u; w := x |} in
  (filePath u = "" /\ run = (Val None, {| c := u; w := x |}))
  \/ (filePath u <> ""
      /\ ((exists e, os_Stat x (filePath u) = inl e
                     /\ run = (Val (Some e),
                               done_state true
                                 (log (log {| c := u; w := x |}).2).2))
          \/ (exists size e, os_Stat x (filePath u) = inr size
                /\ os_Open x (filePath u) = Some e
                /\ run = (Val (Some e),
                          done_state true
                            (log (log {| c := with_Status (set_Size size) u;
                                         w := x |}).2).2))
          \/ (exists size, os_Stat x (filePath u) = inr size
                /\ os_Open x (filePath u) = None
                /\ run = (Val None,
                          {| c := with_reader (Some (FileReader (filePath u)))
                                    (Some (filePath u))
                                    (with_Status (set_Size size) u);
                             w := x |})))).
Proof.
  intros run. subst run.
  destruct (String.eqb_spec (filePath u) "") as [Hpath|Hpath].
  - left. split; [exact Hpath|].
    unfold Init_source, bind, get. simpl. rewrite Hpath. reflexivity.
  - right. split; [exact Hpath|].
    assert (Hne : negb (filePath u =? "")%string = true).
    { apply negb_true_iff. apply String.eqb_neq. exact Hpath. }
    unfold Init_source, bind, get, Stat, Open, checkError, uploadDone, update, log, ret.
    simpl. rewrite Hne. simpl.
    destruct (os_Stat x (filePath u)) as [e|size]; simpl.
    + left. exists e. split; reflexivity.
    + destruct (os_Open x (filePath u)) as [e|]; simpl.
      * right. left. exists size, e. repeat split.
      * right. right. exists size. repeat split.
Qed.

Lemma untouched_trans u1 u2 u3 : untouched u1 u2 -> untouched u2 u3 -> untouched u1 u3.
Proof.
  unfold untouched. intros (?&?&?&?&?&?&?&?&?&?) (?&?&?&?&?&?&?&?&?&?).
  repeat split; congruence.
Qed.

Lemma request_of_untouched E u u' i part :
  untouched u u' -> request_of E u' i part = request_of E u i part.
Proof.
  intros (Hm & Hu & Hp & _ & Hid & Hc & _ & _ & Hs & _).
  unfold request_of, chunk_request. rewrite Hm, Hu, Hp, Hid, Hc, Hs. reflexivity.
Qed.

Lemma traffic_untouched E u u' attempts :
  untouched u u' -> forall first, traffic E u' first attempts = traffic E u first attempts.
Proof.
  intros H. induction attempts as [|[k part] rest IH]; intros first; simpl; [reflexivity|].
  rewrite IH, (request_of_untouched E u u' _ _ H). reflexivity.
Qed.

Lemma traffic_snoc E u attempts k part :
  forall first,
    traffic E u first (attempts ++ [(k, part)])
    = traffic E u first attempts
      ++ replicate k (request_of E u (first + Z.of_nat (length attempts)) part).
Proof.
  induction attempts as [|[k0 part0] rest IH]; intros first; simpl.
  - rewrite app_nil_r, Z.add_0_r. reflexivity.
  - rewrite IH, <- app_assoc.
    replace (first + 1 + Z.of_nat (length rest))
      with (first + Z.of_nat (S (length rest))) by lia.
    reflexivity.
Qed.

Lemma traffic_length E u attempts :
  Forall (fun a : nat * list Byte.byte => (a.1 <= 3)%nat) attempts ->
  forall first, (length (traffic E u first attempts) <= 3 * length attempts)%nat.
Proof.
  induction 1 as [|[k part] rest Hk _ IH]; intros first; simpl; [lia|].
  rewrite length_app, length_replicate. specialize (IH (first + 1)). simpl in Hk. lia.
Qed.

(** The bodies of the requests of an upload. *)
Lemma traffic_bodies E u attempts :
  forall first, map req_body (traffic E u first attempts) = payloads attempts.
Proof.
  unfold payloads.
  induction attempts as [|[k part] rest IH]; intros first; simpl; [reflexivity|].
  rewrite map_app, IH. f_equal.
  induction k as [|k IHk]; simpl; [reflexivity|]. rewrite IHk. reflexivity.
Qed.

Lemma delivered_snoc attempts k part :
  delivered (attempts ++ [(k, part)])
  = delivered attempts ++ (if decide (0 < k)%nat then [(part, None)] else []).
Proof.
  unfold delivered. rewrite filter_app, map_app. f_equal.
  destruct (decide (0 < k)%nat) as [Hk|Hk].
  - rewrite filter_cons_True by exact Hk. reflexivity.
  - rewrite filter_cons_False by exact Hk. reflexivity.
Qed.

Lemma sending_start E st0 :
  0 <= Parts (Status (c st0)) -> sending E st0 0 st0.
Proof.
  intros Hp. split; [apply untouched_refl|]. split; [apply same_files_refl|].
  exists [], 0%nat. simpl. rewrite app_nil_r.
  split; [reflexivity|]. split; [constructor|]. split; [lia|]. split; [reflexivity|].
  split; [reflexivity|]. constructor.
Qed.

Lemma sending_step E st0 i st st' :
  Parts (Status (c st0)) < two64 ->
  sending E st0 i st -> IsDone (Status (c st)) = false -> chunk_step E i st st' ->
  sending E st0 (u64_add i 1) st'.
Proof.
  intros Hp (Hu & Hf & attempts & n & Hsent & Hle & Hlen & Hi & Hrd & Hsub) Hdone
    (Hu' & Hf' & (k & part & Hk & Hsent' & _ & Hpart) & Hrd' & _ & _ & Hlast).
  specialize (Hi Hdone).
  split; [eapply untouched_trans; eassumption|].
  split; [eapply same_files_trans; eassumption|].
  assert (HP : Parts (Status (c st)) = Parts (Status (c st0))) by apply Hu.
  assert (Hnext : exists n', reads (w st') = drop n' (reads (w st0))
            /\ delivered attempts `sublist_of` take n' (reads (w st0))
            /\ ((0 < k)%nat ->
                delivered attempts ++ [(part, None)]
                  `sublist_of` take n' (reads (w st0)))).
  { destruct (decide (0 < k)%nat) as [Hpos|Hzero].
    - specialize (Hpart Hpos). exists (S n).
      assert (Hn : reads (w st0) !! n = Some (part, None)).
      { pose proof (lookup_drop (reads (w st0)) n 0) as Hl.
        rewrite <- Hrd, Hpart, Nat.add_0_r in Hl. symmetry. exact Hl. }
      assert (Ht : take (S n) (reads (w st0)) = take n (reads (w st0)) ++ [(part, None)])
        by (apply take_S_r; exact Hn).
      rewrite Ht.
      split.
      { replace (S n) with (n + 1)%nat by lia.
        rewrite <- (drop_drop (reads (w st0)) 1 n), <- Hrd, Hpart. reflexivity. }
      split; [apply sublist_inserts_r; exact Hsub|].
      intros _. apply sublist_app; [exact Hsub|reflexivity].
    - destruct Hrd' as [Hsame|Htl].
      + exists n. split; [congruence|]. split; [exact Hsub|]. intros; lia.
      + exists (S n). split.
        { rewrite Htl, Hrd. destruct (drop n (reads (w st0))) eqn:Hd.
          - simpl. symmetry. apply drop_ge.
            apply (f_equal length) in Hd. rewrite length_drop in Hd. simpl in Hd. lia.
          - simpl. replace (S n) with (n + 1)%nat by lia.
            rewrite <- (drop_drop (reads (w st0)) 1 n), Hd. reflexivity. }
        split; [|intros; lia].
        destruct (reads (w st0) !! n) as [x|] eqn:Hn.
        * assert (Ht : take (S n) (reads (w st0)) = take n (reads (w st0)) ++ [x])
            by (apply take_S_r; exact Hn).
          rewrite Ht. apply sublist_inserts_r. exact Hsub.
        * apply lookup_ge_None in Hn. rewrite take_ge by lia.
          rewrite take_ge in Hsub by lia. exact Hsub. }
  destruct Hnext as (n' & Hrd1 & Hsub0 & Hsub1).
  destruct (Z.eq_dec i (Parts (Status (c st)))) as [Heq|Hne].
  - destruct (Hlast Heq) as [Hd Hs]. exists attempts, n'.
    split; [congruence|]. split; [exact Hle|]. split; [exact Hlen|].
    split; [intros H; congruence|]. split; [exact Hrd1|exact Hsub0].
  - exists (attempts ++ [(k, part)]), n'.
    split.
    { fold (request_of E (c st) i part) in Hsent'.
      rewrite (request_of_untouched E _ _ _ _ Hu) in Hsent'.
      rewrite Hsent', Hsent, traffic_snoc, <- app_assoc, Z.add_0_l, <- Hi.
      reflexivity. }
    split; [apply Forall_app; split; [exact Hle|constructor; [exact Hk|constructor]]|].
    rewrite length_app. simpl. split; [lia|].
    split; [intros _; unfold u64_add; rewrite to_uint64_small by lia; lia|].
    split; [exact Hrd1|].
    rewrite delivered_snoc. destruct (decide (0 < k)%nat) as [Hpos|Hzero].
    + apply Hsub1. exact Hpos.
    + rewrite app_nil_r. exact Hsub0.
Qed.

Lemma uploadFile_loop_sending E fuel n st0 :
  0 <= Parts (Status (c st0)) < two64 ->
  exists j, sending E st0 j (uploadFile_loop E fuel n 0 st0).2.
Proof.
  intros Hp.
  apply (uploadFile_loop_inv E fuel (sending E st0)).
  - intros i st st'. apply sending_step. lia.
  - apply sending_start. lia.
Qed.

(** Whatever the server and the reader do, the bodies of the requests that
    [Init] sends are chunks read from the reader, in the order in which
    they were read, each sent at most three times in a row: never more
    than three times the part count in all. *)
Theorem Init_sends_chunks_in_order
    (E : Env) (fuel : nat) (u : UploadData) (w0 : World) :
  let run := Init E fuel {| c := u; w := w0 |} in
  0 <= Parts (Status u) ->
  exists (attempts : list (nat * list Byte.byte)) (n : nat),
    map req_body (sent (w run.2)) = map req_body (sent w0) ++ payloads attempts
    /\ Forall (fun a => (a.1 <= 3)%nat) attempts
    /\ Z.of_nat (length attempts) <= Parts (Status (c run.2))
    /\ Z.of_nat (length (sent (w run.2)))
       <= Z.of_nat (length (sent w0)) + 3 * Parts (Status (c run.2))
    /\ reads (w run.2) = drop n (reads w0)
    /\ delivered attempts `sublist_of` take n (reads w0).
Proof.
  intros run Hparts.
  assert (Hnone : forall st', sent (w st') = sent w0 -> reads (w st') = reads w0 ->
            0 <= Parts (Status (c st')) ->
            exists (attempts : list (nat * list Byte.byte)) (n : nat),
              map req_body (sent (w st')) = map req_body (sent w0) ++ payloads attempts
              /\ Forall (fun a => (a.1 <= 3)%nat) attempts
              /\ Z.of_nat (length attempts) <= Parts (Status (c st'))
              /\ Z.of_nat (length (sent (w st')))
                 <= Z.of_nat (length (sent w0)) + 3 * Parts (Status (c st'))
              /\ reads (w st') = drop n (reads w0)
              /\ delivered attempts `sublist_of` take n (reads w0)).
  { intros st' Hs Hr Hp. exists [], 0%nat. cbn [payloads map concat]. rewrite app_nil_r.
    split; [rewrite Hs; reflexivity|]. split; [constructor|]. split; [exact Hp|].
    split; [rewrite Hs; lia|]. split; [exact Hr|]. constructor. }
  assert (Hup : forall st1, sent (w st1) = sent w0 -> reads (w st1) = reads w0 ->
            exists (attempts : list (nat * list Byte.byte)) (n : nat),
              map req_body (sent (w (Init_upload E fuel st1).2))
              = map req_body (sent w0) ++ payloads attempts
              /\ Forall (fun a => (a.1 <= 3)%nat) attempts
              /\ Z.of_nat (length attempts)
                 <= Parts (Status (c (Init_upload E fuel st1).2))
              /\ Z.of_nat (length (sent (w (Init_upload E fuel st1).2)))
                 <= Z.of_nat (length (sent w0))
                    + 3 * Parts (Status (c (Init_upload E fuel st1).2))
              /\ reads (w (Init_upload E fuel st1).2) = drop n (reads w0)
              /\ delivered attempts `sublist_of` take n (reads w0)).
  { intros st1 Hs1 Hr1.
    destruct (Init_upload_shape E fuel st1) as (st' & m & -> & Hc & Hs & _ & Hr & _).
    cbn [fst snd]. cbv zeta in Hc, Hs, Hr. rewrite Hc, Hs, Hr.
    set (st0 := {| c := with_Status (set_Parts
                        (parts_of E (Size (Status (c st1))) (chunkSize (c st1)))) (c st1);
                   w := w st1 |}).
    pose proof (parts_of_uint64 E (Size (Status (c st1))) (chunkSize (c st1))) as Hp.
    destruct (uploadFile_loop_sending E fuel fuel st0 Hp)
      as (j & Hu & _ & attempts & n & Hsent & Hle & Hlen & _ & Hrd & Hsub).
    exists attempts, n.
    assert (HP : Parts (Status (c (uploadFile_loop E fuel fuel 0 st0).2))
                 = Parts (Status (c st0))) by apply Hu.
    rewrite HP, Hsent, Hrd.
    change (sent (w st0)) with (sent (w st1)). change (reads (w st0)) with (reads (w st1)).
    change (reads (w st0)) with (reads (w st1)) in Hsub.
    rewrite Hs1, Hr1. rewrite Hr1 in Hsub.
    split; [rewrite map_app, traffic_bodies; reflexivity|].
    split; [exact Hle|]. split; [exact Hlen|].
    split; [|split; [reflexivity|exact Hsub]].
    rewrite length_app. pose proof (traffic_length E (c st0) attempts Hle 0). lia. }
  subst run. unfold Init. unfold bind.
  destruct (Init_source_shape u w0) as [[Hpath ->]|[Hpath [(e & _ & ->)|[(size & e & _ & _ & ->)|(size & _ & _ & ->)]]]];
    cbn [fst snd ret].
  - apply Hup; reflexivity.
  - apply Hnone; [reflexivity|reflexivity|exact Hparts].
  - apply Hnone; [reflexivity|reflexivity|exact Hparts].
  - apply Hup; reflexivity.
Qed.

(** [Init] closes the file it has opened, once, also when the upload
    panics, and closes nothing when it has opened none: when the uploader
    was made from a reader, or when the stat or the open failed. *)
Theorem Init_closes_what_it_opened
    (E : Env) (fuel : nat) (u : UploadData) (w0 : World) :
  let run := Init E fuel {| c := u; w := w0 |} in
  run.1 <> OutOfFuel ->
  closed (w run.2) = closed w0 ++ opened u w0.
Proof.
  intros run.
  assert (Hup : forall st1,
            (Init_upload E fuel st1).1 <> OutOfFuel ->
            closed (w (Init_upload E fuel st1).2) = closed (w st1) ++ closing (c st1)).
  { intros st1.
    destruct (Init_upload_shape E fuel st1)
      as (st' & m & -> & _ & _ & _ & _ & _ & _ & _ & _ & Hcl).
    cbn [fst snd]. cbv zeta in Hcl. rewrite Hcl.
    set (st0 := {| c := with_Status (set_Parts
                        (parts_of E (Size (Status (c st1))) (chunkSize (c st1)))) (c st1);
                   w := w st1 |}).
    pose proof (parts_of_uint64 E (Size (Status (c st1))) (chunkSize (c st1))) as Hp.
    destruct (uploadFile_loop_sending E fuel fuel st0 Hp)
      as (j & Hu & Hf & _).
    assert (Hclosing : closing (c (uploadFile_loop E fuel fuel 0 st0).2) = closing (c st1)).
    { destruct Hu as (_ & _ & Hp1 & _ & _ & _ & Hp2 & _). unfold closing.
      rewrite Hp1, Hp2. reflexivity. }
    assert (Hclosed : closed (w (uploadFile_loop E fuel fuel 0 st0).2) = closed (w st1))
      by apply Hf.
    rewrite Hclosing, Hclosed.
    destruct (uploadFile_loop E fuel fuel 0 st0).1; [reflexivity|reflexivity|].
    intros H. destruct (H eq_refl). }
  subst run. unfold Init, opened. unfold bind.
  destruct (Init_source_shape u w0) as [[Hpath ->]|[Hpath [(e & Hstat & ->)|[(size & e & Hstat & Hopen & ->)|(size & Hstat & Hopen & ->)]]]];
    cbn [fst snd ret].
  - intros H. rewrite (Hup _ H). unfold closing. cbn [c w]. rewrite Hpath. reflexivity.
  - intros _. apply String.eqb_neq in Hpath. rewrite Hpath, Hstat.
    simpl. rewrite app_nil_r. reflexivity.
  - intros _. apply String.eqb_neq in Hpath. rewrite Hpath, Hstat, Hopen.
    simpl. rewrite app_nil_r. reflexivity.
  - intros H. rewrite (Hup _ H). unfold closing.
    cbn [c w with_reader with_Status filePath file].
    apply String.eqb_neq in Hpath. rewrite Hpath, Hstat, Hopen. reflexivity.
Qed.

(** ** The count of transferred parts *)

Lemma climbing_app l1 l2 :
  climbing (l1 ++ l2)
  <-> climbing l1 /\ climbing l2
      /\ forall a b, a ∈ l1 -> b ∈ l2 -> PartsTransferred a <= PartsTransferred b.
Proof.
  unfold climbing. split.
  - intros H. split; [|split].
    + intros j k oj ok Hjk Hj Hk.
      apply (H j k); [exact Hjk|apply lookup_app_l_Some; assumption..].
    + intros j k oj ok Hjk Hj Hk.
      apply (H (length l1 + j)%nat (length l1 + k)%nat); [lia|..].
      * rewrite lookup_app_r by lia.
        replace (length l1 + j - length l1)%nat with j by lia. exact Hj.
      * rewrite lookup_app_r by lia.
        replace (length l1 + k - length l1)%nat with k by lia. exact Hk.
    + intros a b Ha Hb.
      apply list_elem_of_lookup in Ha as [j Hj]. apply list_elem_of_lookup in Hb as [k Hk].
      pose proof (lookup_lt_Some _ _ _ Hj).
      apply (H j (length l1 + k)%nat); [lia|apply lookup_app_l_Some; assumption|].
      rewrite lookup_app_r by lia. replace (length l1 + k - length l1)%nat with k by lia.
      exact Hk.
  - intros (H1 & H2 & H12) j k oj ok Hjk Hj Hk.
    apply lookup_app_Some in Hj as [Hj|[Hlj Hj]];
      apply lookup_app_Some in Hk as [Hk|[Hlk Hk]].
    + apply (H1 j k); assumption.
    + apply H12; eapply list_elem_of_lookup_2; eassumption.
    + pose proof (lookup_lt_Some _ _ _ Hk). lia.
    + apply (H2 (j - length l1)%nat (k - length l1)%nat); [lia|assumption..].
Qed.

Lemma climbing_replicate n s : climbing (replicate n s).
Proof.
  intros j k oj ok _ Hj Hk.
  apply lookup_replicate in Hj as [-> _]. apply lookup_replicate in Hk as [-> _]. lia.
Qed.

(** The reads stay in order when the status is read some more times and
    then, after a step that does not lower the count, again. *)
Lemma climbing_extend l s s' m j :
  climbing (l ++ [s]) -> PartsTransferred s <= PartsTransferred s' ->
  climbing (l ++ replicate m s ++ replicate j s' ++ [s']).
Proof.
  intros H Hle. apply climbing_app in H as (Hl & _ & Hls).
  assert (Hs : forall a, a ∈ l -> PartsTransferred a <= PartsTransferred s).
  { intros a Ha. apply Hls; [exact Ha|apply list_elem_of_singleton; reflexivity]. }
  apply climbing_app. split; [exact Hl|]. split.
  - apply climbing_app. split; [apply climbing_replicate|]. split.
    + replace (replicate j s' ++ [s']) with (replicate (S j) s')
        by (rewrite replicate_S_end; reflexivity).
      apply climbing_replicate.
    + intros a b Ha Hb. apply elem_of_replicate in Ha as [-> _].
      apply elem_of_app in Hb as [Hb|Hb].
      * apply elem_of_replicate in Hb as [-> _]. exact Hle.
      * apply list_elem_of_singleton in Hb as ->. exact Hle.
  - intros a b Ha Hb. specialize (Hs a Ha).
    apply elem_of_app in Hb as [Hb|Hb].
    + apply elem_of_replicate in Hb as [-> _]. exact Hs.
    + apply elem_of_app in Hb as [Hb|Hb].
      * apply elem_of_replicate in Hb as [-> _]. lia.
      * apply list_elem_of_singleton in Hb as ->. lia.
Qed.

Lemma within_extend l s s' m j :
  Forall parts_within (l ++ [s]) -> parts_within s' ->
  Forall parts_within (l ++ replicate m s ++ replicate j s' ++ [s']).
Proof.
  intros H Hs'. apply Forall_app in H as [Hl Hs].
  apply (proj1 (Forall_singleton _ _)) in Hs.
  repeat (apply Forall_app; split); try assumption.
  - apply Forall_replicate. exact Hs.
  - apply Forall_replicate. exact Hs'.
  - apply Forall_singleton. exact Hs'.
Qed.

Lemma progressing_step E i st st' :
  0 <= i ->
  progressing i st -> IsDone (Status (c st)) = false -> chunk_step E i st st' ->
  0 <= u64_add i 1 /\ progressing (u64_add i 1) st'.
Proof.
  intros Hi0 (Hclimb & Hwithin & Hp & Hidx) Hdone
    (Hu & _ & _ & _ & (m & j & Hobs) & Hstatus & Hlast).
  specialize (Hidx Hdone).
  assert (HP : Parts (Status (c st')) = Parts (Status (c st))) by apply Hu.
  assert (Hcur : parts_within (Status (c st))).
  { unfold reads_of in Hwithin. apply Forall_app in Hwithin as [_ H].
    apply (proj1 (Forall_singleton _ _)) in H. exact H. }
  split; [unfold u64_add, to_uint64; apply Z.mod_pos_bound; unfold two64; lia|].
  assert (Hnext : IsDone (Status (c st')) = false -> u64_add i 1 = i + 1 /\ i < Parts (Status (c st))).
  { intros Hd'. assert (i <> Parts (Status (c st))).
    { intros Heq. destruct (Hlast Heq) as [Hd _]. congruence. }
    unfold u64_add. rewrite to_uint64_small by lia. lia. }
  assert (Hcase : PartsTransferred (Status (c st)) <= PartsTransferred (Status (c st'))
                  /\ parts_within (Status (c st'))
                  /\ (IsDone (Status (c st')) = false ->
                      PartsTransferred (Status (c st')) <= i + 1)).
  { destruct Hstatus as [Heq|[[b Heq]|[Hne [tb Heq]]]]; rewrite Heq.
    - split; [lia|]. split; [exact Hcur|]. intros _. lia.
    - split; [simpl; lia|]. split; [exact Hcur|]. simpl. discriminate.
    - unfold parts_within. simpl.
      unfold u64_add. rewrite to_uint64_small by lia.
      unfold parts_within in Hcur. split; [lia|]. split; [lia|]. intros _. lia. }
  destruct Hcase as (Hle & Hw' & Hidx').
  unfold progressing, reads_of. rewrite Hobs, <- !app_assoc.
  split; [apply climbing_extend; assumption|].
  split; [apply within_extend; assumption|].
  split; [rewrite HP; exact Hp|].
  intros Hd'. destruct (Hnext Hd') as [-> Hlt]. rewrite HP.
  specialize (Hidx' Hd'). lia.
Qed.

Lemma uploadFile_loop_progressing E fuel n st0 :
  progressing 0 st0 ->
  exists j, progressing j (uploadFile_loop E fuel n 0 st0).2.
Proof.
  intros H0.
  destruct (uploadFile_loop_inv E fuel (fun i st => 0 <= i /\ progressing i st))
    with (n := n) (i := 0) (st := st0) as (j & _ & Hj).
  - intros i st st' [Hi HJ] Hdone Hstep. eapply progressing_step; eassumption.
  - split; [lia|exact H0].
  - exists j. exact Hj.
Qed.

(** The count of transferred parts, read at any moment of [Init] and after
    it, lies between 0 and the part count, and from one read to a later one
    it never goes down: whatever the server answers and the reader
    delivers.  (Contrast [SizeTransferred], which a server can push beyond
    [Size].) *)
Theorem parts_transferred_climbs_within_parts
    (E : Env) (fuel : nat) (u : UploadData) (w0 : World) :
  let l := reads_of (Init E fuel {| c := u; w := w0 |}).2 in
  PartsTransferred (Status u) = 0 -> 0 <= Parts (Status u) -> observed w0 = [] ->
  Forall parts_within l /\ climbing l.
Proof.
  intros l Hpt Hparts Hobs.
  assert (Hup : forall st1, observed (w st1) = [] ->
            PartsTransferred (Status (c st1)) = 0 ->
            Forall parts_within (reads_of (Init_upload E fuel st1).2)
            /\ climbing (reads_of (Init_upload E fuel st1).2)).
  { intros st1 Ho1 Hp1.
    destruct (Init_upload_shape E fuel st1) as (st' & m & -> & Hc & _ & _ & _ & _ & _ & _ & Ho & _).
    cbn [fst snd]. cbv zeta in Hc, Ho. unfold reads_of. rewrite Hc, Ho.
    set (st0 := {| c := with_Status (set_Parts
                        (parts_of E (Size (Status (c st1))) (chunkSize (c st1)))) (c st1);
                   w := w st1 |}).
    pose proof (parts_of_uint64 E (Size (Status (c st1))) (chunkSize (c st1))) as Hp.
    unfold is_uint64 in Hp.
    destruct (uploadFile_loop_progressing E fuel fuel st0) as (j & Hclimb & Hwithin & _).
    { unfold progressing, reads_of. cbn [c w st0]. rewrite Ho1. simpl.
      rewrite Hp1. split; [|split; [|split]].
      - intros a b oa ob _ Ha Hb.
        destruct a; [|discriminate]. destruct b; [|discriminate].
        inversion Ha; inversion Hb; subst. simpl. lia.
      - repeat constructor; simpl; lia.
      - lia.
      - intros _. lia. }
    unfold reads_of in Hclimb, Hwithin. rewrite <- app_assoc. split.
    - pose proof (within_extend _ _ (Status (c (uploadFile_loop E fuel fuel 0 st0).2)) m 0 Hwithin) as H.
      simpl in H. apply H.
      apply Forall_app in Hwithin as [_ Hs]. apply (proj1 (Forall_singleton _ _)) in Hs. exact Hs.
    - pose proof (climbing_extend _ _ (Status (c (uploadFile_loop E fuel fuel 0 st0).2)) m 0 Hclimb) as H.
      simpl in H. apply H. lia. }
  assert (Hfail : forall s : UploadStatus,
            PartsTransferred s = 0 -> 0 <= Parts s ->
            Forall parts_within
              ([s; s] ++ [set_TransferredException true (set_IsDone true s)])
            /\ climbing ([s; s] ++ [set_TransferredException true (set_IsDone true s)])).
  { intros s Hs Hp. split.
    - repeat constructor; simpl; lia.
    - pose proof (climbing_extend [] s (set_TransferredException true (set_IsDone true s))
                    1 0) as H. simpl in H.
      intros a b oa ob Hab Ha Hb.
      assert (Hz : forall n o, [s; s; set_TransferredException true (set_IsDone true s)] !! n
                               = Some o -> PartsTransferred o = 0).
      { intros [|[|[|n]]] o Hn; simpl in Hn; inversion Hn; subst; simpl; try assumption.
      }
      rewrite (Hz _ _ Ha), (Hz _ _ Hb). lia. }
  subst l. unfold Init. unfold bind.
  destruct (Init_source_shape u w0) as [[Hpath ->]|[Hpath [(e & _ & ->)|[(size & e & _ & _ & ->)|(size & _ & _ & ->)]]]];
    cbn [fst snd ret].
  - apply Hup; assumption.
  - unfold reads_of, done_state, log. cbn [c w fst snd with_observed observed Status with_Status].
    rewrite Hobs. apply (Hfail (Status u)); assumption.
  - unfold reads_of, done_state, log. cbn [c w fst snd with_observed observed Status with_Status].
    rewrite Hobs. apply (Hfail (set_Size size (Status u))); assumption.
  - apply Hup; assumption.
Qed.

(** ** Uploads against a server that follows the protocol *)

Lemma retry_policy_accepted_after seg rest :
  accepted_after seg = true ->
  retry_policy 3 (seg ++ rest) "" = (true, "", length seg).
Proof.
  unfold accepted_after, settles.
  destruct seg as [|o1 [|o2 [|o3 [|o4 seg]]]]; try discriminate; intros H;
    repeat match goal with
           | H : _ && _ = true |- _ => apply andb_true_iff in H as [? ?]
           end;
    repeat match goal with
           | H : negb _ = true |- _ => apply negb_true_iff in H
           | H : (_ =? _)%string = true |- _ => apply String.eqb_eq in H
           end;
    cbn [app retry_policy next_outcome hd tl length];
    repeat (match goal with
            | H : accepted _ = _ |- _ => rewrite H
            end; cbn [app retry_policy next_outcome hd tl length]);
    congruence.
Qed.

Lemma retry_policy_three_failures outcomes :
  three_failures outcomes = true ->
  (retry_policy 3 outcomes "").1.1 = false /\ (retry_policy 3 outcomes "").2 = 3%nat.
Proof.
  unfold three_failures.
  destruct outcomes as [|o1 [|o2 [|o3 rest]]]; cbn [take forallb]; intros H;
    repeat match goal with
           | H : _ && _ = true |- _ => apply andb_true_iff in H as [? ?]
           end;
    repeat match goal with
           | H : negb _ = true |- _ => apply negb_true_iff in H
           end;
    cbn [retry_policy next_outcome hd tl accepted];
    repeat (match goal with
            | H : accepted _ = _ |- _ => rewrite H
            end; cbn [retry_policy next_outcome hd tl accepted]);
    split; reflexivity.
Qed.

Lemma ceil_div_gt a b i : 0 < b -> i < ceil_div a b -> i * b < a.
Proof.
  intros Hb Hi. unfold ceil_div in Hi.
  pose proof (F64Facts.ceil_bounds a b Hb) as [Hlo _].
  set (cc := - ((- a) / b)) in *.
  assert (i * b <= (cc - 1) * b) by (apply Z.mul_le_mono_nonneg_r; lia). lia.
Qed.

Lemma ceil_div_ge a b : 0 < b -> a <= ceil_div a b * b.
Proof. intros Hb. unfold ceil_div. apply (F64Facts.ceil_bounds a b Hb). Qed.

Lemma ceil_div_nonneg a b : 0 < b -> 0 <= a -> 0 <= ceil_div a b.
Proof.
  intros Hb Ha. unfold ceil_div.
  pose proof (F64Facts.ceil_bounds a b Hb) as [_ Hhi].
  set (cc := - ((- a) / b)) in *.
  destruct (Z_lt_le_dec cc 0); [|assumption].
  assert (cc * b <= (- 1) * b) by (apply Z.mul_le_mono_nonneg_r; lia). lia.
Qed.

Lemma ceil_div_le a b : 0 < b -> 0 <= a -> ceil_div a b <= a.
Proof.
  intros Hb Ha. unfold ceil_div.
  pose proof (F64Facts.ceil_bounds a b Hb) as [Hlo _].
  set (cc := - ((- a) / b)) in *.
  destruct (Z_le_gt_dec cc a); [assumption|].
  assert (a * 1 <= (cc - 1) * b) by (apply Z.mul_le_mono_nonneg; lia). lia.
Qed.

Section Runs.

Variable E : Env.
Variable fuel : nat.

(** At the index that equals the part count the loop ends the upload as a
    success. *)
Lemma uploadFile_loop_last n st :
  IsDone (Status (c st)) = false ->
  uploadFile_loop E fuel (S n) (Parts (Status (c st))) st
  = (Val tt, done_state false (log (log st).2).2).
Proof.
  intros Hd. destruct st as [u x]. simpl in Hd.
  cbn [uploadFile_loop]. unfold bind at 1. unfold get at 1. cbn [c Status].
  rewrite Hd. cbn [negb]. unfold bind at 1. unfold uploadChunk.
  unfold bind at 1. unfold get at 1. cbn [c Status]. rewrite Z.eqb_refl.
  unfold uploadDone, bind, update, log. cbn [c w snd fst].
  rewrite uploadFile_loop_done by reflexivity. reflexivity.
Qed.

(** A chunk that cannot be read ends the upload as a failure, and nothing
    is sent for it. *)
Lemma uploadChunk_unread i st :
  at_chunk i st -> i < Parts (Status (c st)) ->
  (reads (w st) = [] \/ exists b e later, reads (w st) = (b, Some e) :: later) ->
  exists st',
    uploadChunk E fuel i st = (Val tt, st')
    /\ c st' = with_Status (fun s => set_TransferredException true (set_IsDone true s)) (c st)
    /\ net (w st') = net (w st)
    /\ sent (w st') = sent (w st)
    /\ reads (w st') = tl (reads (w st))
    /\ same_files (w st) (w st').
Proof.
  destruct st as [u x]. unfold at_chunk. cbn [c w].
  intros (Hdone & Hexc & Hc & Hs & Hp & Hi & Hpt & Hst & Hrd) Hlt Hreads.
  assert (Hrem : i * chunkSize u < Size (Status u)).
  { apply ceil_div_gt; [lia|]. rewrite <- Hp. exact Hlt. }
  assert (H53 : 2 ^ 53 < two63) by (unfold two63; lia).
  pose proof (partSize_of_exact E i (chunkSize u) (Size (Status u))
                Hc ltac:(lia) Hrem ltac:(lia)) as Hps.
  unfold uploadChunk. unfold bind at 1. unfold get at 1. cbn [c w]. cbv zeta.
  destruct (Z.eqb_spec i (Parts (Status u))) as [|_]; [lia|].
  rewrite Hexc, Hps.
  destruct (Z.leb_spec (Z.min (chunkSize u) (Size (Status u) - i * chunkSize u)) 0) as [|_];
    [lia|].
  unfold bind at 1. unfold ReadFull at 1. cbn [c w].
  destruct (reader u) as [src|]; [|contradiction].
  destruct Hreads as [Hreads|(b & e & later & Hreads)]; rewrite Hreads;
    cbv [bind uploadDone ret update log fst snd c w];
    eexists; (split; [reflexivity|]); repeat split; cbn; exact Hreads.
Qed.

Hypothesis enough : (3 <= fuel)%nat.

(** [uploadChunk(i)] on a chunk that is read and whose request
    [http.NewRequest] accepts, up to the end of the retry loop. *)
Lemma uploadChunk_run i st partBuffer later :
  i <> Parts (Status (c st)) -> TransferredException (Status (c st)) = false ->
  0 < partSize_of E i (chunkSize (c st)) (Size (Status (c st))) ->
  reader (c st) <> None -> reads (w st) = (partBuffer, None) :: later ->
  NewRequest_err E (method (c st)) (url (c st)) = None ->
  let partSize := partSize_of E i (chunkSize (c st)) (Size (Status (c st))) in
  let policy := retry_policy 3 (net (w st)) "" in
  exists st1,
    c st1 = c st
    /\ net (w st1) = drop policy.2 (net (w st))
    /\ sent (w st1) = sent (w st) ++ replicate policy.2 (request_of E (c st) i partBuffer)
    /\ reads (w st1) = later
    /\ same_files (w st) (w st1)
    /\ uploadChunk E fuel i st
       = ((if policy.1.1 then
             let* u1 := get in
             let* (transferredBytes, err1) :=
               lift (calculateTransferredSize policy.1.2 partSize (Status u1)) in
             let* failed := checkError err1 in
             if negb failed then
               update (fun s => set_SizeTransferred
                                  (i64_add (SizeTransferred s) transferredBytes) s) ;;;
               update (set_PartsTransferred (u64_add i 1))
             else ret tt
           else uploadDone true) ;;; log) st1.
Proof.
  intros Hi Hexc Hpos Hrd Hreads Hnr partSize policy.
  unfold uploadChunk. unfold bind at 1. unfold get at 1.
  destruct (Z.eqb_spec i (Parts (Status (c st)))) as [|_]; [contradiction|].
  rewrite Hexc. fold partSize.
  destruct (Z.leb_spec partSize 0) as [|_]; [lia|].
  unfold bind at 1. unfold ReadFull at 1.
  destruct (reader (c st)) as [src|]; [|contradiction]. rewrite Hreads.
  unfold bind at 1. unfold log at 1. cbn [c w].
  set (st2 := {| c := c st; w := with_observed _ _ |}).
  destruct (sendLoop_retry_policy E 3 fuel partBuffer
              (generateContentRange i (chunkSize (c st)) partSize (Size (Status (c st))))
              (filepath_Base E (filePath (c st))) "" 0 st2)
    as (st3 & ec & Hrun & Hc3 & Hn3 & Hs3 & Hr3); [reflexivity|exact enough|exact Hnr|].
  destruct (sendLoop_shape E fuel partBuffer
              (generateContentRange i (chunkSize (c st)) partSize (Size (Status (c st))))
              (filepath_Base E (filePath (c st))) false "" 0 st2)
    as (k & m & (_ & _ & Hf & _) & _).
  rewrite Hrun in Hf. cbn [snd] in Hf.
  change (net (w st2)) with (net (w st)) in *.
  change (sent (w st2)) with (sent (w st)) in *.
  change (c st2) with (c st) in *.
  change (reads (w st2)) with later in Hr3.
  fold policy in Hrun, Hn3, Hs3.
  exists st3. split; [exact Hc3|]. split; [exact Hn3|].
  split; [exact Hs3|]. split; [exact Hr3|].
  split; [eapply same_files_trans; [|exact Hf]; repeat split|].
  unfold bind at 1. rewrite Hrun. reflexivity.
Qed.

(** A chunk that gets through is recorded with its size. *)
Lemma uploadChunk_accepted i st partBuffer later seg rest :
  at_chunk i st -> i < Parts (Status (c st)) ->
  NewRequest_err E (method (c st)) (url (c st)) = None ->
  reads (w st) = (partBuffer, None) :: later ->
  net (w st) = seg ++ rest -> accepted_after seg = true ->
  exists st',
    uploadChunk E fuel i st = (Val tt, st')
    /\ c st' = advance i (c st)
    /\ net (w st') = rest
    /\ sent (w st')
       = sent (w st) ++ replicate (length seg) (request_of E (c st) i partBuffer)
    /\ reads (w st') = later
    /\ same_files (w st) (w st').
Proof.
  destruct st as [u x]. unfold at_chunk. cbn [c w].
  intros (Hdone & Hexc & Hc & Hs & Hp & Hi & Hpt & Hst & Hrd) Hlt Hnr Hreads Hnet Hseg.
  assert (Hrem : i * chunkSize u < Size (Status u)).
  { apply ceil_div_gt; [lia|]. rewrite <- Hp. exact Hlt. }
  assert (H53 : 2 ^ 53 < two63) by (unfold two63; lia).
  pose proof (partSize_of_exact E i (chunkSize u) (Size (Status u))
                Hc ltac:(lia) Hrem ltac:(lia)) as Hps.
  destruct (uploadChunk_run i {| c := u; w := x |} partBuffer later
              ltac:(simpl; lia) Hexc ltac:(simpl; lia) Hrd Hreads Hnr)
    as (st1 & Hc1 & Hn1 & Hs1 & Hr1 & Hf1 & Hrun).
  cbv zeta in Hn1, Hs1, Hrun. cbn [c w] in Hc1, Hn1, Hs1, Hr1, Hf1, Hrun.
  rewrite Hnet, (retry_policy_accepted_after seg rest Hseg) in Hn1, Hs1, Hrun.
  cbn [fst snd] in Hn1, Hs1, Hrun. rewrite drop_app_length in Hn1.
  rewrite Hrun. clear Hrun.
  destruct st1 as [u1 x1]. cbn [c w] in *. subst u1.
  unfold bind at 1. unfold bind at 1. unfold get at 1. cbn [c w].
  unfold bind at 1. unfold lift at 1.
  unfold calculateTransferredSize. cbn [String.eqb negb].
  rewrite Hps, Hst.
  assert (Hmin : Z.min (i * chunkSize u) (Size (Status u)) = i * chunkSize u)
    by lia.
  rewrite Hmin.
  set (ps := Z.min (chunkSize u) (Size (Status u) - i * chunkSize u)).
  assert (Hpsr : 0 < ps <= chunkSize u) by (subst ps; lia).
  assert (Hic : 0 <= i * chunkSize u) by nia.
  rewrite (to_int64_small ps) by (unfold two63 in *; lia).
  change (i64_add ps (i * chunkSize u)) with (to_int64 (ps + i * chunkSize u)).
  rewrite (to_int64_small (ps + i * chunkSize u)) by (unfold two63 in *; subst ps; lia).
  destruct (Z.gtb_spec (ps + i * chunkSize u) (Size (Status u))) as [Hgt|_];
    [subst ps; lia|].
  cbv [bind checkError ret update log negb fst snd c w].
  eexists. split; [reflexivity|].
  split.
  { unfold advance, with_Status. cbn [Status]. f_equal.
    unfold set_PartsTransferred, set_SizeTransferred. cbn.
    rewrite Hst, Hmin. unfold i64_add, u64_add.
    rewrite to_int64_small by (unfold two63 in *; subst ps; lia).
    rewrite to_uint64_small.
    2:{ pose proof (ceil_div_le (Size (Status u)) (chunkSize u) ltac:(lia) ltac:(lia)).
        unfold two64. lia. }
    f_equal. subst ps. lia. }
  split; [exact Hn1|]. split; [exact Hs1|]. split; [exact Hr1|].
  destruct Hf1 as (?&?&?&?). repeat split; assumption.
Qed.

Lemma at_chunk_advance i st st' :
  at_chunk i st -> i < Parts (Status (c st)) -> c st' = advance i (c st) ->
  at_chunk (i + 1) st' /\ untouched (c st) (c st').
Proof.
  unfold at_chunk. intros (Hdone & Hexc & Hc & Hs & Hp & Hi & Hpt & Hst & Hrd) Hlt ->.
  unfold advance. cbn. repeat split; try assumption; lia.
Qed.

(** The loop of [uploadFile] over chunks that all get through. *)
Lemma uploadFile_loop_accepted segs :
  forall chunks n i st later rest,
    at_chunk i st -> length chunks = length segs ->
    i + Z.of_nat (length segs) <= Parts (Status (c st)) ->
    NewRequest_err E (method (c st)) (url (c st)) = None ->
    Forall (fun seg => accepted_after seg = true) segs ->
    reads (w st) = map (fun b => (b, None)) chunks ++ later ->
    net (w st) = concat segs ++ rest ->
    exists st',
      uploadFile_loop E fuel (length segs + n) i st
      = uploadFile_loop E fuel n (i + Z.of_nat (length segs)) st'
      /\ at_chunk (i + Z.of_nat (length segs)) st'
      /\ untouched (c st) (c st')
      /\ reads (w st') = later /\ net (w st') = rest
      /\ sent (w st')
         = sent (w st) ++ traffic E (c st) i (zip (map length segs) chunks)
      /\ same_files (w st) (w st').
Proof.
  induction segs as [|seg segs IH]; intros chunks n i st later rest Hat Hlen Hle Hnr Hall Hreads Hnet.
  - destruct chunks; [|discriminate]. simpl in *. exists st.
    rewrite Z.add_0_r, app_nil_r.
    split; [reflexivity|]. split; [exact Hat|]. split; [apply untouched_refl|].
    split; [exact Hreads|]. split; [exact Hnet|].
    split; [reflexivity|apply same_files_refl].
  - destruct chunks as [|b chunks]; [discriminate|].
    apply Forall_cons in Hall as [Hseg Hall].
    cbn [length] in Hle. rewrite Nat2Z.inj_succ in Hle.
    cbn [map app] in Hreads. cbn [concat] in Hnet. rewrite <- app_assoc in Hnet.
    assert (Hlt : i < Parts (Status (c st))) by lia.
    destruct (uploadChunk_accepted i st b _ seg _ Hat Hlt Hnr Hreads Hnet Hseg)
      as (st1 & Hrun & Hc1 & Hn1 & Hs1 & Hr1 & Hf1).
    destruct (at_chunk_advance i st st1 Hat Hlt Hc1) as [Hat1 Hu1].
    assert (Hnr1 : NewRequest_err E (method (c st1)) (url (c st1)) = None).
    { destruct Hu1 as (-> & -> & _). exact Hnr. }
    assert (HP1 : Parts (Status (c st1)) = Parts (Status (c st))) by apply Hu1.
    destruct (IH chunks n (i + 1) st1 later rest Hat1 ltac:(simpl in Hlen; lia)
                ltac:(rewrite HP1; lia) Hnr1 Hall Hr1 Hn1)
      as (st' & Hloop & Hat' & Hu' & Hr' & Hn' & Hs' & Hf').
    exists st'.
    replace (i + Z.of_nat (length (seg :: segs))) with (i + 1 + Z.of_nat (length segs))
      by (cbn [length]; lia).
    split.
    { cbn [length Nat.add uploadFile_loop]. unfold bind at 1. unfold get at 1.
      destruct Hat as (-> & _). cbn [negb]. unfold bind at 1. rewrite Hrun.
      assert (Hadd : u64_add i 1 = i + 1).
      { unfold u64_add. apply to_uint64_small.
        destruct Hat1 as (_ & _ & Hc & Hsz & Hp & Hi & _).
        pose proof (ceil_div_le _ _ (proj1 Hc) (proj1 Hsz)). unfold two64. lia. }
      rewrite Hadd. exact Hloop. }
    split; [exact Hat'|]. split; [eapply untouched_trans; eassumption|].
    split; [exact Hr'|]. split; [exact Hn'|].
    split.
    { rewrite Hs', Hs1, <- app_assoc. cbn [map zip zip_with traffic].
      rewrite (traffic_untouched E _ _ _ Hu1). reflexivity. }
    eapply same_files_trans; eassumption.
Qed.

(** A chunk whose three attempts fail ends the upload as a failure. *)
Lemma uploadChunk_rejected i st partBuffer later :
  at_chunk i st -> i < Parts (Status (c st)) ->
  NewRequest_err E (method (c st)) (url (c st)) = None ->
  reads (w st) = (partBuffer, None) :: later ->
  three_failures (net (w st)) = true ->
  exists st',
    uploadChunk E fuel i st = (Val tt, st')
    /\ c st' = with_Status (fun s => set_TransferredException true (set_IsDone true s)) (c st)
    /\ net (w st') = drop 3 (net (w st))
    /\ sent (w st') = sent (w st) ++ replicate 3 (request_of E (c st) i partBuffer)
    /\ reads (w st') = later
    /\ same_files (w st) (w st').
Proof.
  destruct st as [u x]. unfold at_chunk. cbn [c w].
  intros (Hdone & Hexc & Hc & Hs & Hp & Hi & Hpt & Hst & Hrd) Hlt Hnr Hreads Hfail.
  assert (Hrem : i * chunkSize u < Size (Status u)).
  { apply ceil_div_gt; [lia|]. rewrite <- Hp. exact Hlt. }
  assert (H53 : 2 ^ 53 < two63) by (unfold two63; lia).
  pose proof (partSize_of_exact E i (chunkSize u) (Size (Status u))
                Hc ltac:(lia) Hrem ltac:(lia)) as Hps.
  destruct (uploadChunk_run i {| c := u; w := x |} partBuffer later
              ltac:(simpl; lia) Hexc ltac:(simpl; lia) Hrd Hreads Hnr)
    as (st1 & Hc1 & Hn1 & Hs1 & Hr1 & Hf1 & Hrun).
  cbv zeta in Hn1, Hs1, Hrun. cbn [c w] in Hc1, Hn1, Hs1, Hr1, Hf1, Hrun.
  destruct (retry_policy_three_failures _ Hfail) as [Hok Hk].
  rewrite Hok in Hrun. rewrite Hk in Hn1, Hs1.
  rewrite Hrun. clear Hrun.
  destruct st1 as [u1 x1]. cbn [c w] in *. subst u1.
  cbv [bind uploadDone ret update log fst snd c w].
  eexists. split; [reflexivity|].
  split; [reflexivity|]. split; [exact Hn1|]. split; [exact Hs1|]. split; [exact Hr1|].
  destruct Hf1 as (?&?&?&?). repeat split; assumption.
Qed.

End Runs.

Section Outcomes.

Variable E : Env.
Variable fuel : nat.

Lemma uploadFile_loop_ends n i st st' :
  IsDone (Status (c st)) = false ->
  uploadChunk E fuel i st = (Val tt, st') -> IsDone (Status (c st')) = true ->
  uploadFile_loop E fuel (S n) i st = (Val tt, st').
Proof.
  intros Hd Hrun Hd'. cbn [uploadFile_loop]. unfold bind at 1. unfold get at 1.
  rewrite Hd. cbn [negb]. unfold bind at 1. rewrite Hrun.
  apply uploadFile_loop_done. exact Hd'.
Qed.

(** From a ready uploader, [Init] gets to the loop of [uploadFile]. *)
Lemma Init_ready u w0 size :
  ready u w0 size ->
  exists r f,
    Init_source {| c := u; w := w0 |}
    = (Val None, {| c := with_reader r f (with_Status (set_Size size) u); w := w0 |})
    /\ r <> None
    /\ closing (with_reader r f (with_Status (set_Size size) u)) = opened u w0.
Proof.
  intros ([(Hpath & Hrd & Hsize)|(Hpath & Hstat & Hopen)] & _).
  - exists (reader u), (file u).
    assert (Heq : with_reader (reader u) (file u) (with_Status (set_Size size) u) = u).
    { destruct u as [? ? ? ? ? ? ? s ?]. destruct s. simpl in *. subst. reflexivity. }
    rewrite Heq. split.
    { unfold Init_source, bind, get. simpl. rewrite Hpath. reflexivity. }
    split; [exact Hrd|]. unfold closing, opened. rewrite Hpath. reflexivity.
  - destruct (Init_source_shape u w0)
      as [[Hp _]|[_ [(e & He & _)|[(sz & e & _ & He & _)|(sz & Hsz & _ & ->)]]]];
      [contradiction|congruence|congruence|].
    assert (sz = size) by congruence. subst sz.
    eexists _, _. split; [reflexivity|]. split; [discriminate|].
    unfold closing, opened. cbn [with_reader with_Status filePath file].
    rewrite Hstat, Hopen. reflexivity.
Qed.

Lemma request_of_with_reader r f u i part :
  request_of E (with_reader r f u) i part = request_of E u i part.
Proof. reflexivity. Qed.

Lemma traffic_with_reader r f u attempts :
  forall first, traffic E (with_reader r f u) first attempts = traffic E u first attempts.
Proof.
  induction attempts as [|[k part] rest IH]; intros first; simpl; [reflexivity|].
  rewrite IH. reflexivity.
Qed.

(** What [Init] comes to, from a ready uploader, by the outcome of the loop
    of [uploadFile] on the uploader as started. *)
Lemma Init_ready_run u w0 size :
  ready u w0 size ->
  exists r f st',
    let st0 := {| c := with_reader r f (started E u size); w := w0 |} in
    let loop := uploadFile_loop E fuel fuel 0 st0 in
    Init E fuel {| c := u; w := w0 |}
    = (match loop.1 with
       | Val _ => Val None
       | Panic => Panic
       | OutOfFuel => OutOfFuel
       end, st')
    /\ at_chunk 0 st0
    /\ c st' = c loop.2
    /\ sent (w st') = sent (w loop.2) /\ net (w st') = net (w loop.2)
    /\ reads (w st') = reads (w loop.2)
    /\ closed (w st')
       = closed (w loop.2)
         ++ match loop.1 with OutOfFuel => [] | _ => opened u w0 end.
Proof.
  intros Hready.
  destruct (Init_ready u w0 size Hready) as (r & f & Hsrc & Hrd & Hcl).
  destruct Hready as (_ & Hdone & Hexc & Hst & Hpt & Hc & Hs).
  set (u1 := with_reader r f (with_Status (set_Size size) u)) in *.
  destruct (Init_upload_shape E fuel {| c := u1; w := w0 |})
    as (st' & m & Hrun & Hc' & Hs' & Hn' & Hr' & _ & _ & _ & _ & Hcl').
  cbv zeta in Hrun, Hc', Hs', Hn', Hr', Hcl'. cbn [c w] in Hrun, Hc', Hs', Hn', Hr', Hcl'.
  change (Size (Status u1)) with size in *.
  change (chunkSize u1) with (chunkSize u) in *.
  change (with_Status (set_Parts (parts_of E size (chunkSize u))) u1)
    with (with_reader r f (started E u size)) in *.
  exists r, f, st'. cbv zeta.
  split.
  { unfold Init. unfold bind. rewrite Hsrc. exact Hrun. }
  pose proof (parts_of_exact E size (chunkSize u) Hs ltac:(lia)) as Hparts.
  split.
  { unfold at_chunk, started. cbn.
    rewrite Hparts. fold (ceil_div size (chunkSize u)).
    pose proof (ceil_div_nonneg size (chunkSize u) ltac:(lia) ltac:(lia)).
    repeat split; try assumption; try lia. }
  split; [exact Hc'|]. split; [exact Hs'|]. split; [exact Hn'|]. split; [exact Hr'|].
  rewrite Hcl'.
  set (st0 := {| c := with_reader r f (started E u size); w := w0 |}).
  pose proof (parts_of_uint64 E size (chunkSize u)) as Hp.
  destruct (uploadFile_loop_sending E fuel fuel st0 Hp) as (j & Hu0 & _).
  assert (Hclosing : closing (c (uploadFile_loop E fuel fuel 0 st0).2) = closing u1).
  { destruct Hu0 as (_ & _ & Hp1 & _ & _ & _ & Hp2 & _). unfold closing.
    rewrite Hp1, Hp2. reflexivity. }
  rewrite Hclosing, Hcl. reflexivity.
Qed.

Hypothesis enough : (3 <= fuel)%nat.

Lemma traffic_ext u u' attempts :
  (forall i part, request_of E u i part = request_of E u' i part) ->
  forall first, traffic E u first attempts = traffic E u' first attempts.
Proof.
  intros H. induction attempts as [|[k part] rest IH]; intros first; simpl; [reflexivity|].
  rewrite IH, H. reflexivity.
Qed.

Lemma loop_count n m i st :
  n = m -> uploadFile_loop E fuel n i st = uploadFile_loop E fuel m i st.
Proof. intros ->. reflexivity. Qed.

(** [Init] on a ready uploader whose first chunks all get through, up to
    the chunk after them. *)
Lemma Init_prefix u w0 size chunks segs later rest :
  ready u w0 size -> NewRequest_err E (method u) (url u) = None ->
  Z.of_nat (length segs) <= ceil_div size (chunkSize u) ->
  length chunks = length segs ->
  Forall (fun seg => accepted_after seg = true) segs ->
  reads w0 = map (fun b => (b, None)) chunks ++ later ->
  net w0 = concat segs ++ rest ->
  (length segs < fuel)%nat ->
  exists st1 st' n,
    let loop := uploadFile_loop E fuel (S n) (Z.of_nat (length segs)) st1 in
    Init E fuel {| c := u; w := w0 |}
    = (match loop.1 with
       | Val _ => Val None
       | Panic => Panic
       | OutOfFuel => OutOfFuel
       end, st')
    /\ at_chunk (Z.of_nat (length segs)) st1
    /\ Size (Status (c st1)) = size /\ chunkSize (c st1) = chunkSize u
    /\ NewRequest_err E (method (c st1)) (url (c st1)) = None
    /\ (forall i part, request_of E (c st1) i part
                       = request_of E (with_Status (set_Size size) u) i part)
    /\ reads (w st1) = later /\ net (w st1) = rest
    /\ sent (w st1)
       = sent w0 ++ traffic E (with_Status (set_Size size) u) 0
                      (zip (map length segs) chunks)
    /\ closed (w st1) = closed w0
    /\ c st' = c loop.2
    /\ sent (w st') = sent (w loop.2) /\ net (w st') = net (w loop.2)
    /\ reads (w st') = reads (w loop.2)
    /\ closed (w st')
       = closed (w loop.2)
         ++ match loop.1 with OutOfFuel => [] | _ => opened u w0 end.
Proof.
  intros Hready Hnr Hle Hlen Hall Hreads Hnet Hfuel.
  destruct (Init_ready_run u w0 size Hready)
    as (r & f & st' & Hinit & Hat & Hc' & Hs' & Hn' & Hr' & Hcl').
  cbv zeta in Hinit, Hat, Hc', Hs', Hn', Hr', Hcl'.
  set (st0 := {| c := with_reader r f (started E u size); w := w0 |}) in *.
  assert (HP0 : Parts (Status (c st0)) = ceil_div size (chunkSize u)).
  { destruct Hat as (_ & _ & _ & _ & HP & _). exact HP. }
  destruct (uploadFile_loop_accepted E fuel enough segs chunks
              (S (fuel - length segs - 1)) 0 st0 later rest Hat Hlen
              ltac:(rewrite HP0; lia) Hnr Hall Hreads Hnet)
    as (st1 & Hloop & Hat1 & Hu1 & Hr1 & Hn1 & Hs1 & Hf1).
  rewrite Z.add_0_l in Hloop, Hat1.
  rewrite <- (loop_count fuel _ 0 st0) in Hloop by lia.
  rewrite Hloop in Hinit, Hc', Hs', Hn', Hr', Hcl'.
  exists st1, st', (fuel - length segs - 1)%nat. cbv zeta.
  split; [exact Hinit|]. split; [exact Hat1|].
  split; [destruct Hu1 as (_ & _ & _ & _ & _ & _ & _ & _ & -> & _); reflexivity|].
  split; [destruct Hu1 as (_ & _ & _ & _ & _ & -> & _); reflexivity|].
  split; [destruct Hu1 as (-> & -> & _); exact Hnr|].
  split; [intros i part; rewrite (request_of_untouched E _ _ i part Hu1); reflexivity|].
  split; [exact Hr1|]. split; [exact Hn1|].
  split.
  { rewrite Hs1. cbn [w st0 sent]. f_equal. apply traffic_ext.
    intros i part. reflexivity. }
  split; [apply Hf1|].
  split; [exact Hc'|]. split; [exact Hs'|]. split; [exact Hn'|]. split; [exact Hr'|].
  exact Hcl'.
Qed.

End Outcomes.

(** When every chunk gets through, at its first attempt or after one or two
    failures, with an empty body in answer, the upload succeeds: [Init]
    returns nil, the status shows everything transferred, the requests sent
    are those of the chunks in order, each with the bytes read for it and
    as many times as it took, the reader has given one chunk per part, and
    the file that was opened is closed. *)
Theorem upload_succeeds
    (E : Env) (fuel : nat) (u : UploadData) (w0 : World) (size : Z)
    (chunks : list (list Byte.byte)) (segs : list (list DoOutcome))
    (later : list (list Byte.byte * error)) (rest : list DoOutcome) :
  let parts := ceil_div size (chunkSize u) in
  let run := Init E fuel {| c := u; w := w0 |} in
  ready u w0 size -> NewRequest_err E (method u) (url u) = None ->
  Z.of_nat (length segs) = parts -> length chunks = length segs ->
  Forall (fun seg => accepted_after seg = true) segs ->
  reads w0 = map (fun b => (b, None)) chunks ++ later ->
  net w0 = concat segs ++ rest ->
  (3 <= fuel)%nat -> (length segs < fuel)%nat ->
  run.1 = Val None
  /\ Status (c run.2)
     = {| Size := size; SizeTransferred := size; Parts := parts;
          PartsTransferred := parts; IsDone := true;
          TransferredException := false |}
  /\ map req_body (sent (w run.2))
     = map req_body (sent w0) ++ payloads (zip (map length segs) chunks)
  /\ reads (w run.2) = later /\ net (w run.2) = rest
  /\ closed (w run.2) = closed w0 ++ opened u w0.
Proof.
  intros parts run Hready Hnr Hparts Hlen Hall Hreads Hnet Hfuel3 Hfuel.
  destruct (Init_prefix E fuel Hfuel3 u w0 size chunks segs later rest
              Hready Hnr ltac:(fold parts; lia) Hlen Hall Hreads Hnet Hfuel)
    as (st1 & st' & n & Hinit & Hat & Hsz & Hch & _ & _ & Hr1 & Hn1 & Hs1 & Hcl1
        & Hc' & Hs' & Hn' & Hr' & Hcl').
  cbv zeta in Hinit, Hc', Hs', Hn', Hr', Hcl'.
  destruct Hready as (_ & _ & _ & _ & _ & Hc & Hs).
  destruct Hat as (Hdone & Hexc & _ & _ & HP & _ & Hpt & Hst & _).
  rewrite Hsz, Hch in HP, Hst. fold parts in HP.
  assert (Hlast : uploadFile_loop E fuel (S n) (Z.of_nat (length segs)) st1
                  = (Val tt, done_state false (log (log st1).2).2)).
  { rewrite Hparts, <- HP. apply uploadFile_loop_last. exact Hdone. }
  rewrite Hlast in Hinit, Hc', Hs', Hn', Hr', Hcl'. cbn [fst snd] in *.
  subst run. rewrite Hinit. cbn [fst snd].
  split; [reflexivity|]. rewrite Hc', Hs', Hn', Hr', Hcl'.
  unfold done_state, log. cbn [c w fst snd with_observed sent net reads closed Status with_Status].
  split.
  { pose proof (ceil_div_ge size (chunkSize u) ltac:(lia)) as Hge. fold parts in Hge.
    rewrite Hparts in Hpt, Hst.
    destruct (Status (c st1)) as [sz st pa pt dn te]. cbn in *. subst sz st pa pt dn te.
    unfold set_TransferredException, set_IsDone. cbn. f_equal. lia. }
  split; [rewrite Hs1, map_app, traffic_bodies; reflexivity|].
  split; [exact Hr1|]. split; [exact Hn1|].
  rewrite Hcl1. reflexivity.
Qed.

(** When the first chunks get through and the next one fails three times,
    the upload ends there as a failure: [Init] still returns nil, the
    status keeps the count and the size of the chunks that got through,
    the failed chunk was sent three times and no later chunk was read or
    sent. *)
Theorem upload_fails_after_three_attempts
    (E : Env) (fuel : nat) (u : UploadData) (w0 : World) (size : Z)
    (chunks : list (list Byte.byte)) (segs : list (list DoOutcome))
    (failing : list Byte.byte)
    (later : list (list Byte.byte * error)) (tail : list DoOutcome) :
  let parts := ceil_div size (chunkSize u) in
  let k := Z.of_nat (length segs) in
  let run := Init E fuel {| c := u; w := w0 |} in
  ready u w0 size -> NewRequest_err E (method u) (url u) = None ->
  k < parts -> length chunks = length segs ->
  Forall (fun seg => accepted_after seg = true) segs ->
  reads w0 = map (fun b => (b, None)) chunks ++ (failing, None) :: later ->
  net w0 = concat segs ++ tail -> three_failures tail = true ->
  (3 <= fuel)%nat -> (length segs < fuel)%nat ->
  run.1 = Val None
  /\ Status (c run.2)
     = {| Size := size; SizeTransferred := k * chunkSize u; Parts := parts;
          PartsTransferred := k; IsDone := true;
          TransferredException := true |}
  /\ map req_body (sent (w run.2))
     = map req_body (sent w0)
       ++ payloads (zip (map length segs) chunks ++ [(3%nat, failing)])
  /\ reads (w run.2) = later /\ net (w run.2) = drop 3 tail
  /\ closed (w run.2) = closed w0 ++ opened u w0.
Proof.
  intros parts k run Hready Hnr Hk Hlen Hall Hreads Hnet Hfail Hfuel3 Hfuel.
  destruct (Init_prefix E fuel Hfuel3 u w0 size chunks segs _ tail
              Hready Hnr ltac:(fold parts; fold k; lia) Hlen Hall Hreads Hnet Hfuel)
    as (st1 & st' & n & Hinit & Hat & Hsz & Hch & Hnr1 & Hrq & Hr1 & Hn1 & Hs1 & Hcl1
        & Hc' & Hs' & Hn' & Hr' & Hcl').
  cbv zeta in Hinit, Hc', Hs', Hn', Hr', Hcl'. fold k in Hat, Hinit, Hc', Hs', Hn', Hr', Hcl'.
  destruct Hready as (_ & _ & _ & _ & _ & Hc & Hs).
  pose proof Hat as (Hdone & Hexc & _ & _ & HP & _ & Hpt & Hst & _).
  rewrite Hsz, Hch in HP, Hst. fold parts in HP.
  destruct (uploadChunk_rejected E fuel Hfuel3 k st1 failing later Hat
              ltac:(rewrite HP; exact Hk) Hnr1 Hr1 ltac:(rewrite Hn1; exact Hfail))
    as (st2 & Hrun & Hc2 & Hn2 & Hs2 & Hr2 & Hf2).
  assert (Hlast : uploadFile_loop E fuel (S n) k st1 = (Val tt, st2)).
  { apply uploadFile_loop_ends; [exact Hdone|exact Hrun|]. rewrite Hc2. reflexivity. }
  rewrite Hlast in Hinit, Hc', Hs', Hn', Hr', Hcl'. cbn [fst snd] in *.
  subst run. rewrite Hinit. cbn [fst snd].
  split; [reflexivity|]. rewrite Hc', Hs', Hn', Hr', Hcl', Hc2, Hs2, Hr2, Hn2.
  cbn [Status with_Status].
  split.
  { pose proof (ceil_div_gt size (chunkSize u) k ltac:(lia) Hk) as Hlt.
    destruct (Status (c st1)) as [sz st pa pt dn te]. cbn in *. subst sz st pa pt dn te.
    unfold set_TransferredException, set_IsDone. cbn. f_equal. lia. }
  split.
  { match goal with
    | |- map req_body ?l = _ =>
        assert (Hsent : l = sent w0 ++ traffic E (with_Status (set_Size size) u) 0
                              (zip (map length segs) chunks ++ [(3%nat, failing)]))
    end.
    { rewrite Hs1, traffic_snoc, <- app_assoc, Z.add_0_l, Hrq.
      rewrite length_zip_with, length_map. replace (length segs `min` length chunks)%nat
        with (length segs) by lia. reflexivity. }
    rewrite Hsent, map_app, traffic_bodies. reflexivity. }
  split; [reflexivity|]. split; [rewrite Hn1; reflexivity|].
  destruct Hf2 as (_ & _ & _ & ->). rewrite Hcl1. reflexivity.
Qed.

(** When the first chunks get through (one at least, so that a buffer of
    the size of a chunk has been allocated and filled before) and the next
    one cannot be read (the reader is at its end, or fails), the upload
    ends there as a failure without a request for that chunk. *)
Theorem upload_fails_when_read_fails
    (E : Env) (fuel : nat) (u : UploadData) (w0 : World) (size : Z)
    (chunks : list (list Byte.byte)) (segs : list (list DoOutcome))
    (bad : list (list Byte.byte * error)) (rest : list DoOutcome) :
  let parts := ceil_div size (chunkSize u) in
  let k := Z.of_nat (length segs) in
  let run := Init E fuel {| c := u; w := w0 |} in
  ready u w0 size -> NewRequest_err E (method u) (url u) = None ->
  0 < k < parts -> length chunks = length segs ->
  Forall (fun seg => accepted_after seg = true) segs ->
  reads w0 = map (fun b => (b, None)) chunks ++ bad ->
  (bad = [] \/ exists b e later, bad = (b, Some e) :: later) ->
  net w0 = concat segs ++ rest ->
  (3 <= fuel)%nat -> (length segs < fuel)%nat ->
  run.1 = Val None
  /\ Status (c run.2)
     = {| Size := size; SizeTransferred := k * chunkSize u; Parts := parts;
          PartsTransferred := k; IsDone := true;
          TransferredException := true |}
  /\ map req_body (sent (w run.2))
     = map req_body (sent w0) ++ payloads (zip (map length segs) chunks)
  /\ reads (w run.2) = tl bad /\ net (w run.2) = rest
  /\ closed (w run.2) = closed w0 ++ opened u w0.
Proof.
  intros parts k run Hready Hnr [_ Hk] Hlen Hall Hreads Hbad Hnet Hfuel3 Hfuel.
  destruct (Init_prefix E fuel Hfuel3 u w0 size chunks segs _ rest
              Hready Hnr ltac:(fold parts; fold k; lia) Hlen Hall Hreads Hnet Hfuel)
    as (st1 & st' & n & Hinit & Hat & Hsz & Hch & Hnr1 & Hrq & Hr1 & Hn1 & Hs1 & Hcl1
        & Hc' & Hs' & Hn' & Hr' & Hcl').
  cbv zeta in Hinit, Hc', Hs', Hn', Hr', Hcl'. fold k in Hat, Hinit, Hc', Hs', Hn', Hr', Hcl'.
  destruct Hready as (_ & _ & _ & _ & _ & Hc & Hs).
  pose proof Hat as (Hdone & Hexc & _ & _ & HP & _ & Hpt & Hst & _).
  rewrite Hsz, Hch in HP, Hst. fold parts in HP.
  destruct (uploadChunk_unread E fuel k st1 Hat
              ltac:(rewrite HP; exact Hk) ltac:(rewrite Hr1; exact Hbad))
    as (st2 & Hrun & Hc2 & Hn2 & Hs2 & Hr2 & Hf2).
  assert (Hlast : uploadFile_loop E fuel (S n) k st1 = (Val tt, st2)).
  { apply uploadFile_loop_ends; [exact Hdone|exact Hrun|]. rewrite Hc2. reflexivity. }
  rewrite Hlast in Hinit, Hc', Hs', Hn', Hr', Hcl'. cbn [fst snd] in *.
  subst run. rewrite Hinit. cbn [fst snd].
  split; [reflexivity|]. rewrite Hc', Hs', Hn', Hr', Hcl', Hc2, Hs2, Hr2, Hn2.
  cbn [Status with_Status].
  split.
  { pose proof (ceil_div_gt size (chunkSize u) k ltac:(lia) Hk) as Hlt.
    destruct (Status (c st1)) as [sz st pa pt dn te]. cbn in *. subst sz st pa pt dn te.
    unfold set_TransferredException, set_IsDone. cbn. f_equal. lia. }
  split; [rewrite Hs1, map_app, traffic_bodies; reflexivity|].
  split; [rewrite Hr1; reflexivity|]. split; [exact Hn1|].
  destruct Hf2 as (_ & _ & _ & ->). rewrite Hcl1. reflexivity.
Qed.

(** ** Uploads that cannot start *)

Section Refused.

Variable E : Env.
Variable fuel : nat.

(** When [http.NewRequest] refuses method and URL, every attempt fails
    before anything is sent. *)
Lemma sendLoop_refused bound :
  forall n part cr fn body0 errorCount st msg,
    errorCount = 3 - Z.of_nat bound -> (bound <= n)%nat ->
    NewRequest_err E (method (c st)) (url (c st)) = Some msg ->
    exists st' body,
      sendLoop E n part cr fn false body0 errorCount st = (Val (false, body, 3), st')
      /\ c st' = c st /\ sent (w st') = sent (w st) /\ net (w st') = net (w st)
      /\ reads (w st') = reads (w st) /\ same_files (w st) (w st').
Proof.
  induction bound as [|b IH]; intros n part cr fn body0 errorCount st msg Hec Hn Hnr.
  - replace errorCount with 3 by lia. rewrite sendLoop_exhausted.
    exists st, body0. repeat split.
  - destruct n as [|n]; [lia|].
    cbn [sendLoop]. cbn [negb andb].
    destruct (Z.ltb_spec errorCount 3) as [_|Hge]; [|lia].
    unfold bind at 1. unfold get at 1. unfold httpRequest. rewrite Hnr.
    unfold bind at 1. unfold ret at 1. unfold bind at 1. unfold log at 1.
    unfold bind at 1. unfold bind at 1. unfold log at 1. unfold ret at 1.
    cbn [negb fst snd c w].
    match goal with
    | |- context [sendLoop E n part cr fn false "" (errorCount + 1) ?s] =>
        destruct (IH n part cr fn "" (errorCount + 1) s msg ltac:(lia) ltac:(lia) Hnr)
          as (st' & body & Hrun & Hc & Hs & Hnn & Hr & Hf)
    end.
    exists st', body. split; [exact Hrun|].
    cbn [c w with_observed sent net reads] in *.
    split; [exact Hc|]. split; [exact Hs|]. split; [exact Hnn|]. split; [exact Hr|].
    destruct Hf as (?&?&?&?). repeat split; assumption.
Qed.

Lemma uploadChunk_refused i st partBuffer later msg :
  i <> Parts (Status (c st)) -> TransferredException (Status (c st)) = false ->
  0 < partSize_of E i (chunkSize (c st)) (Size (Status (c st))) ->
  reader (c st) <> None -> reads (w st) = (partBuffer, None) :: later ->
  NewRequest_err E (method (c st)) (url (c st)) = Some msg -> (3 <= fuel)%nat ->
  exists st',
    uploadChunk E fuel i st = (Val tt, st')
    /\ c st' = with_Status (fun s => set_TransferredException true (set_IsDone true s)) (c st)
    /\ sent (w st') = sent (w st) /\ net (w st') = net (w st)
    /\ reads (w st') = later.
Proof.
  intros Hi Hexc Hpos Hrd Hreads Hnr Hfuel.
  unfold uploadChunk. unfold bind at 1. unfold get at 1. cbv zeta.
  destruct (Z.eqb_spec i (Parts (Status (c st)))) as [|_]; [contradiction|].
  rewrite Hexc.
  destruct (Z.leb_spec (partSize_of E i (chunkSize (c st)) (Size (Status (c st)))) 0)
    as [|_]; [lia|].
  unfold bind at 1. unfold ReadFull at 1.
  destruct (reader (c st)) as [src|]; [|contradiction]. rewrite Hreads.
  unfold bind at 1. unfold log at 1. cbn [c w].
  set (st2 := {| c := c st; w := with_observed _ _ |}).
  destruct (sendLoop_refused 3 fuel partBuffer
              (generateContentRange i (chunkSize (c st))
                 (partSize_of E i (chunkSize (c st)) (Size (Status (c st))))
                 (Size (Status (c st))))
              (filepath_Base E (filePath (c st))) "" 0 st2 msg eq_refl Hfuel Hnr)
    as (st3 & body & Hrun & Hc3 & Hs3 & Hn3 & Hr3 & _).
  unfold bind at 1. rewrite Hrun.
  destruct st3 as [u3 x3]. cbn [c w st2 with_observed with_reads sent net reads] in *.
  subst u3.
  cbv [bind uploadDone ret update log fst snd c w].
  eexists. split; [reflexivity|]. cbn [c w with_observed sent net reads].
  repeat split; assumption.
Qed.

(** Reading through a nil reader panics. *)
Lemma uploadChunk_nil_reader i st :
  i <> Parts (Status (c st)) -> TransferredException (Status (c st)) = false ->
  0 < partSize_of E i (chunkSize (c st)) (Size (Status (c st))) ->
  reader (c st) = None ->
  uploadChunk E fuel i st = (Panic, st).
Proof.
  intros Hi Hexc Hpos Hrd.
  unfold uploadChunk. unfold bind at 1. unfold get at 1. cbv zeta.
  destruct (Z.eqb_spec i (Parts (Status (c st)))) as [|_]; [contradiction|].
  rewrite Hexc.
  destruct (Z.leb_spec (partSize_of E i (chunkSize (c st)) (Size (Status (c st)))) 0)
    as [|_]; [lia|].
  unfold bind at 1. unfold ReadFull at 1. rewrite Hrd. reflexivity.
Qed.

(** With a chunk size of 0 or less, [uploadChunk] does nothing below the
    part count. *)
Lemma uploadChunk_idle i st :
  chunkSize (c st) <= 0 -> is_int64 (chunkSize (c st)) ->
  TransferredException (Status (c st)) = false -> i <> Parts (Status (c st)) ->
  uploadChunk E fuel i st = (Val tt, st).
Proof.
  intros Hc Hint Hexc Hi. unfold uploadChunk. unfold bind at 1. unfold get at 1.
  cbv zeta.
  destruct (Z.eqb_spec i (Parts (Status (c st)))) as [|_]; [contradiction|].
  rewrite Hexc.
  pose proof (partSize_of_nonpos E i _ (Size (Status (c st))) Hint Hc) as Hle.
  destruct (Z.leb_spec (partSize_of E i (chunkSize (c st)) (Size (Status (c st)))) 0);
    [reflexivity|lia].
Qed.

Lemma uploadFile_loop_idle n :
  forall i st,
    chunkSize (c st) <= 0 -> is_int64 (chunkSize (c st)) ->
    TransferredException (Status (c st)) = false ->
    uploadFile_loop E fuel n i st = (OutOfFuel, st)
    \/ (uploadFile_loop E fuel n i st = (Val tt, st) /\ IsDone (Status (c st)) = true)
    \/ uploadFile_loop E fuel n i st = (Val tt, done_state false (log (log st).2).2).
Proof.
  induction n as [|n IH]; intros i st Hc Hint Hexc;
    destruct (IsDone (Status (c st))) eqn:Hdone.
  - right. left. split; [apply uploadFile_loop_done; exact Hdone|reflexivity].
  - left. cbn [uploadFile_loop]. unfold bind, get. rewrite Hdone. reflexivity.
  - right. left. split; [apply uploadFile_loop_done; exact Hdone|reflexivity].
  - destruct (Z.eq_dec i (Parts (Status (c st)))) as [->|Hne].
    + right. right. apply uploadFile_loop_last. exact Hdone.
    + assert (Hstep : uploadFile_loop E fuel (S n) i st
                      = uploadFile_loop E fuel n (u64_add i 1) st).
      { cbn [uploadFile_loop]. unfold bind at 1. unfold get at 1. rewrite Hdone.
        cbn [negb]. unfold bind at 1.
        rewrite (uploadChunk_idle i st Hc Hint Hexc Hne). reflexivity. }
      rewrite Hstep.
      destruct (IH (u64_add i 1) st Hc Hint Hexc) as [H|[[H Hd]|H]];
        [left; exact H|congruence|right; right; exact H].
Qed.

End Refused.

(** With a chunk size of 0 or less, [Init] reads nothing and sends
    nothing, and it does not panic; when it returns nil, it reports the
    upload as done and not failed, with nothing transferred. *)
Theorem nothing_sent_without_chunk_size
    (E : Env) (fuel : nat) (u : UploadData) (w0 : World) :
  let run := Init E fuel {| c := u; w := w0 |} in
  chunkSize u <= 0 -> is_int64 (chunkSize u) ->
  IsDone (Status u) = false -> TransferredException (Status u) = false ->
  sent (w run.2) = sent w0 /\ reads (w run.2) = reads w0 /\ net (w run.2) = net w0
  /\ SizeTransferred (Status (c run.2)) = SizeTransferred (Status u)
  /\ PartsTransferred (Status (c run.2)) = PartsTransferred (Status u)
  /\ run.1 <> Panic
  /\ (run.1 = Val None ->
      IsDone (Status (c run.2)) = true
      /\ TransferredException (Status (c run.2)) = false).
Proof.
  intros run Hc Hint Hdone Hexc.
  assert (Hup : forall st1,
            chunkSize (c st1) <= 0 -> is_int64 (chunkSize (c st1)) ->
            TransferredException (Status (c st1)) = false ->
            let r := Init_upload E fuel st1 in
            sent (w r.2) = sent (w st1) /\ reads (w r.2) = reads (w st1)
            /\ net (w r.2) = net (w st1)
            /\ SizeTransferred (Status (c r.2)) = SizeTransferred (Status (c st1))
            /\ PartsTransferred (Status (c r.2)) = PartsTransferred (Status (c st1))
            /\ r.1 <> Panic
            /\ (r.1 = Val None ->
                IsDone (Status (c r.2)) = true
                /\ TransferredException (Status (c r.2)) = false)).
  { intros st1 Hc1 Hint1 Hexc1 r. subst r.
    destruct (Init_upload_shape E fuel st1) as (st' & m & -> & Hc' & Hs' & Hn' & Hr' & _).
    cbv zeta in Hc', Hs', Hn', Hr'. cbn [fst snd]. rewrite Hc', Hs', Hn', Hr'.
    set (st0 := {| c := with_Status (set_Parts
                        (parts_of E (Size (Status (c st1))) (chunkSize (c st1)))) (c st1);
                   w := w st1 |}).
    destruct (uploadFile_loop_idle E fuel fuel 0 st0 Hc1 Hint1 Hexc1) as [H|[[H Hd]|H]];
      rewrite H; cbn [fst snd c w st0 done_state log with_observed sent net reads
                        Status with_Status set_Parts set_IsDone set_TransferredException
                        SizeTransferred PartsTransferred IsDone TransferredException];
      repeat split; try discriminate; try assumption. }
  subst run. unfold Init. unfold bind.
  destruct (Init_source_shape u w0) as [[Hpath ->]|[Hpath [(e & _ & ->)|[(size & e & _ & _ & ->)|(size & _ & _ & ->)]]]];
    cbn [fst snd ret].
  - apply (Hup {| c := u; w := w0 |}); assumption.
  - repeat split; discriminate.
  - repeat split; discriminate.
  - apply (Hup {| c := with_reader _ _ (with_Status (set_Size size) u); w := w0 |});
      assumption.
Qed.

(** A ready uploader whose method or URL [http.NewRequest] refuses: [Init]
    reads the first chunk, counts three failed attempts without sending
    anything, and ends the upload as a failure. *)
Theorem upload_fails_when_request_refused
    (E : Env) (fuel : nat) (u : UploadData) (w0 : World) (size : Z)
    (msg : string) (first : list Byte.byte) (later : list (list Byte.byte * error)) :
  let run := Init E fuel {| c := u; w := w0 |} in
  ready u w0 size -> 0 < size ->
  NewRequest_err E (method u) (url u) = Some msg ->
  reads w0 = (first, None) :: later -> (3 <= fuel)%nat ->
  run.1 = Val None
  /\ Status (c run.2)
     = {| Size := size; SizeTransferred := 0;
          Parts := ceil_div size (chunkSize u); PartsTransferred := 0;
          IsDone := true; TransferredException := true |}
  /\ sent (w run.2) = sent w0 /\ net (w run.2) = net w0
  /\ reads (w run.2) = later.
Proof.
  intros run Hready Hsize Hnr Hreads Hfuel.
  destruct (Init_ready_run E fuel u w0 size Hready)
    as (r & f & st' & Hinit & Hat & Hc' & Hs' & Hn' & Hr' & _).
  cbv zeta in Hinit, Hat, Hc', Hs', Hn', Hr'.
  destruct Hready as (_ & Hdone & Hexc & Hst & Hpt & Hc & Hs).
  set (st0 := {| c := with_reader r f (started E u size); w := w0 |}) in *.
  pose proof Hat as (_ & _ & _ & _ & HP & _ & _ & _ & Hrd).
  cbn [c st0 with_reader started with_Status Status set_Parts set_Size Size chunkSize Parts]
    in HP.
  assert (Hparts : 0 < ceil_div size (chunkSize u)).
  { pose proof (ceil_div_ge size (chunkSize u) ltac:(lia)) as Hge.
    destruct (Z_lt_le_dec 0 (ceil_div size (chunkSize u))); [assumption|].
    assert (ceil_div size (chunkSize u) * chunkSize u <= 0 * chunkSize u)
      by (apply Z.mul_le_mono_nonneg_r; lia). lia. }
  assert (H53 : 2 ^ 53 < two63) by (unfold two63; lia).
  pose proof (partSize_of_exact E 0 (chunkSize u) size Hc ltac:(lia) ltac:(lia) ltac:(lia))
    as Hps.
  assert (Hchunk : exists st2,
            uploadChunk E fuel 0 st0 = (Val tt, st2)
            /\ c st2 = with_Status (fun s => set_TransferredException true (set_IsDone true s))
                         (c st0)
            /\ sent (w st2) = sent w0 /\ net (w st2) = net w0 /\ reads (w st2) = later).
  { apply (uploadChunk_refused E fuel 0 st0 first later msg).
    - cbn. rewrite HP. lia.
    - exact Hexc.
    - cbn. cbn in Hps. rewrite Hps. lia.
    - exact Hrd.
    - exact Hreads.
    - exact Hnr.
    - exact Hfuel. }
  destruct Hchunk as (st2 & Hrun & Hc2 & Hs2 & Hn2 & Hr2).
  destruct fuel as [|n]; [lia|].
  assert (Hlast : uploadFile_loop E (S n) (S n) 0 st0 = (Val tt, st2)).
  { apply uploadFile_loop_ends; [exact Hdone|exact Hrun|]. rewrite Hc2. reflexivity. }
  rewrite Hlast in Hinit, Hc', Hs', Hn', Hr'. cbn [fst snd] in *.
  subst run. rewrite Hinit. cbn [fst snd].
  split; [reflexivity|]. rewrite Hc', Hs', Hn', Hr', Hc2, Hs2, Hn2, Hr2.
  split; [|repeat split].
  cbn. unfold set_TransferredException, set_IsDone, set_Parts, set_Size. cbn.
  rewrite Hst, Hpt. f_equal. exact HP.
Qed.

(** An uploader made from a nil reader with a positive size: [Init] panics
    at the first chunk, before anything is sent, and the status is left
    neither done nor failed. *)
Theorem Init_panics_on_nil_reader
    (E : Env) (fuel : nat) (u : UploadData) (w0 : World) :
  let run := Init E fuel {| c := u; w := w0 |} in
  filePath u = "" -> reader u = None ->
  IsDone (Status u) = false -> TransferredException (Status u) = false ->
  0 < chunkSize u < 2 ^ 53 -> 0 < Size (Status u) < 2 ^ 53 -> (0 < fuel)%nat ->
  run.1 = Panic
  /\ sent (w run.2) = sent w0 /\ reads (w run.2) = reads w0
  /\ IsDone (Status (c run.2)) = false
  /\ TransferredException (Status (c run.2)) = false.
Proof.
  intros run Hpath Hrd Hdone Hexc Hc Hs Hfuel.
  assert (Hsrc : Init_source {| c := u; w := w0 |} = (Val None, {| c := u; w := w0 |})).
  { unfold Init_source, bind, get. simpl. rewrite Hpath. reflexivity. }
  destruct (Init_upload_shape E fuel {| c := u; w := w0 |})
    as (st' & m & Hrun & Hc' & Hs' & _ & Hr' & _).
  cbv zeta in Hrun, Hc', Hs', Hr'. cbn [c w] in Hrun, Hc', Hs', Hr'.
  pose proof (parts_of_exact E (Size (Status u)) (chunkSize u) ltac:(lia) ltac:(lia)) as HP.
  fold (ceil_div (Size (Status u)) (chunkSize u)) in HP.
  assert (Hparts : 0 < ceil_div (Size (Status u)) (chunkSize u)).
  { pose proof (ceil_div_ge (Size (Status u)) (chunkSize u) ltac:(lia)) as Hge.
    destruct (Z_lt_le_dec 0 (ceil_div (Size (Status u)) (chunkSize u))); [assumption|].
    assert (ceil_div (Size (Status u)) (chunkSize u) * chunkSize u <= 0 * chunkSize u)
      by (apply Z.mul_le_mono_nonneg_r; lia). lia. }
  assert (H53 : 2 ^ 53 < two63) by (unfold two63; lia).
  pose proof (partSize_of_exact E 0 (chunkSize u) (Size (Status u)) Hc
                ltac:(lia) ltac:(lia) ltac:(lia)) as Hps.
  set (st0 := {| c := with_Status (set_Parts (parts_of E (Size (Status u)) (chunkSize u))) u;
                 w := w0 |}) in *.
  assert (Hloop : uploadFile_loop E fuel fuel 0 st0 = (Panic, st0)).
  { destruct fuel as [|n]; [lia|].
    cbn [uploadFile_loop]. unfold bind at 1. unfold get at 1.
    cbn [c st0 with_Status Status set_Parts IsDone]. rewrite Hdone. cbn [negb].
    unfold bind at 1.
    rewrite (uploadChunk_nil_reader E (S n) 0 st0); [reflexivity|..].
    - cbn. rewrite HP. lia.
    - exact Hexc.
    - cbn. rewrite Hps. lia.
    - exact Hrd. }
  rewrite Hloop in Hrun, Hc', Hs', Hr'. cbn [fst snd] in *.
  subst run. unfold Init. unfold bind. rewrite Hsrc, Hrun. cbn [fst snd].
  split; [reflexivity|]. rewrite Hc', Hs', Hr'.
  repeat split; assumption.
Qed.

(** ** [Init] on an uploader that is done *)

(** [Init] on an uploader that is done already reads nothing and sends
    nothing; the upload stays done and its progress stays as it is.  It
    returns, and nil when the uploader was made from a reader. *)
Theorem Init_again_sends_nothing
    (E : Env) (fuel : nat) (u : UploadData) (w0 : World) :
  let run := Init E fuel {| c := u; w := w0 |} in
  IsDone (Status u) = true ->
  sent (w run.2) = sent w0 /\ reads (w run.2) = reads w0 /\ net (w run.2) = net w0
  /\ SizeTransferred (Status (c run.2)) = SizeTransferred (Status u)
  /\ PartsTransferred (Status (c run.2)) = PartsTransferred (Status u)
  /\ IsDone (Status (c run.2)) = true
  /\ (exists r, run.1 = Val r)
  /\ (filePath u = "" ->
      run.1 = Val None
      /\ TransferredException (Status (c run.2)) = TransferredException (Status u)).
Proof.
  intros run Hdone.
  assert (Hup : forall st1,
            IsDone (Status (c st1)) = true ->
            let r := Init_upload E fuel st1 in
            sent (w r.2) = sent (w st1) /\ reads (w r.2) = reads (w st1)
            /\ net (w r.2) = net (w st1)
            /\ SizeTransferred (Status (c r.2)) = SizeTransferred (Status (c st1))
            /\ PartsTransferred (Status (c r.2)) = PartsTransferred (Status (c st1))
            /\ IsDone (Status (c r.2)) = true
            /\ r.1 = Val None
            /\ TransferredException (Status (c r.2))
               = TransferredException (Status (c st1))).
  { intros st1 Hd1 r. subst r.
    destruct (Init_upload_shape E fuel st1) as (st' & m & -> & Hc' & Hs' & Hn' & Hr' & _).
    cbv zeta in Hc', Hs', Hn', Hr'. cbn [fst snd]. rewrite Hc', Hs', Hn', Hr'.
    rewrite uploadFile_loop_done by exact Hd1. cbn [fst snd c w].
    repeat split; try reflexivity. exact Hd1. }
  subst run. unfold Init. unfold bind.
  destruct (Init_source_shape u w0) as [[Hpath ->]|[Hpath [(e & _ & ->)|[(size & e & _ & _ & ->)|(size & _ & _ & ->)]]]];
    cbn [fst snd ret].
  - destruct (Hup {| c := u; w := w0 |} Hdone) as (H1 & H2 & H3 & H4 & H5 & H6 & H7 & H8).
    repeat split; try assumption. exists None. exact H7.
  - repeat split; try reflexivity; try (eexists; reflexivity); intros; contradiction.
  - repeat split; try reflexivity; try (eexists; reflexivity); intros; contradiction.
  - destruct (Hup {| c := with_reader (Some (FileReader (filePath u))) (Some (filePath u))
                            (with_Status (set_Size size) u);
                     w := w0 |} Hdone) as (H1 & H2 & H3 & H4 & H5 & H6 & H7 & H8).
    repeat split; try assumption; try (exists None; exact H7); intros; contradiction.
Qed.

(** ** Accepted responses whose body does not reconcile *)

Section Unreconciled.

Variable E : Env.
Variable fuel : nat.
Hypothesis enough : (3 <= fuel)%nat.

(** [uploadChunk(i)] on a chunk whose first attempt is accepted, up to the
    reconciliation of the body. *)
Lemma uploadChunk_first_accepted i st partBuffer later o rest :
  at_chunk i st -> i < Parts (Status (c st)) ->
  NewRequest_err E (method (c st)) (url (c st)) = None ->
  reads (w st) = (partBuffer, None) :: later ->
  net (w st) = o :: rest -> accepted o = true ->
  exists x1,
    net x1 = rest
    /\ sent x1 = sent (w st) ++ [request_of E (c st) i partBuffer]
    /\ reads x1 = later
    /\ same_files (w st) x1
    /\ uploadChunk E fuel i st
       = ((let* (transferredBytes, err1) :=
             lift (calculateTransferredSize (body_of o)
                     (partSize_of E i (chunkSize (c st)) (Size (Status (c st))))
                     (Status (c st))) in
           let* failed := checkError err1 in
           if negb failed then
             update (fun s => set_SizeTransferred
                                (i64_add (SizeTransferred s) transferredBytes) s) ;;;
             update (set_PartsTransferred (u64_add i 1))
           else ret tt) ;;; log) {| c := c st; w := x1 |}.
Proof.
  intros Hat Hlt Hnr Hreads Hnet Hacc.
  pose proof Hat as (Hdone & Hexc & Hc & Hs & Hp & Hi & Hpt & Hst & Hrd).
  assert (Hrem : i * chunkSize (c st) < Size (Status (c st))).
  { apply ceil_div_gt; [lia|]. rewrite <- Hp. exact Hlt. }
  assert (H53 : 2 ^ 53 < two63) by (unfold two63; lia).
  pose proof (partSize_of_exact E i (chunkSize (c st)) (Size (Status (c st)))
                Hc ltac:(lia) Hrem ltac:(lia)) as Hps.
  destruct (uploadChunk_run E fuel enough i st partBuffer later
              ltac:(lia) Hexc ltac:(lia) Hrd Hreads Hnr)
    as (st1 & Hc1 & Hn1 & Hs1 & Hr1 & Hf1 & Hrun).
  assert (Hpol : retry_policy 3 (o :: rest) "" = (true, body_of o, 1%nat)).
  { unfold retry_policy, next_outcome. cbn [hd]. rewrite Hacc. reflexivity. }
  cbv zeta in Hn1, Hs1, Hrun. rewrite Hnet, Hpol in Hn1, Hs1, Hrun.
  cbn [fst snd replicate drop] in Hn1, Hs1, Hrun.
  destruct st1 as [u1 x1]. cbn [c w] in *. subst u1.
  exists x1. split; [exact Hn1|]. split; [exact Hs1|]. split; [exact Hr1|].
  split; [exact Hf1|]. rewrite Hrun. reflexivity.
Qed.

End Unreconciled.

(** When the server accepts a chunk with a body whose range has a '-' but
    an end that [strconv.ParseInt] rejects, the chunk is not recorded and
    the upload ends as a failure; [Init] returns nil.  (Without a '-' the
    same body makes [Init] panic.) *)
Theorem upload_fails_when_range_end_unparsable
    (E : Env) (fuel : nat) (u : UploadData) (w0 : World) (size : Z)
    (chunks : list (list Byte.byte)) (segs : list (list DoOutcome))
    (current : list Byte.byte) (later : list (list Byte.byte * error))
    (o : DoOutcome) (rest : list DoOutcome) (v : Z) (e : GoError) :
  let parts := ceil_div size (chunkSize u) in
  let k := Z.of_nat (length segs) in
  let run := Init E fuel {| c := u; w := w0 |} in
  ready u w0 size -> NewRequest_err E (method u) (url u) = None ->
  k < parts -> length chunks = length segs ->
  Forall (fun seg => accepted_after seg = true) segs ->
  reads w0 = map (fun b => (b, None)) chunks ++ (current, None) :: later ->
  net w0 = concat segs ++ o :: rest ->
  accepted o = true -> body_of o <> "" -> parseBody (body_of o) = Val (v, Some e) ->
  (3 <= fuel)%nat -> (length segs < fuel)%nat ->
  run.1 = Val None
  /\ Status (c run.2)
     = {| Size := size; SizeTransferred := k * chunkSize u; Parts := parts;
          PartsTransferred := k; IsDone := true;
          TransferredException := true |}
  /\ map req_body (sent (w run.2))
     = map req_body (sent w0)
       ++ payloads (zip (map length segs) chunks ++ [(1%nat, current)])
  /\ reads (w run.2) = later /\ net (w run.2) = rest.
Proof.
  intros parts k run Hready Hnr Hk Hlen Hall Hreads Hnet Hacc Hbody Hparse Hfuel3 Hfuel.
  destruct (Init_prefix E fuel Hfuel3 u w0 size chunks segs _ (o :: rest)
              Hready Hnr ltac:(fold parts; fold k; lia) Hlen Hall Hreads Hnet Hfuel)
    as (st1 & st' & n & Hinit & Hat & Hsz & Hch & Hnr1 & Hrq & Hr1 & Hn1 & Hs1 & Hcl1
        & Hc' & Hs' & Hn' & Hr' & Hcl').
  cbv zeta in Hinit, Hc', Hs', Hn', Hr', Hcl'. fold k in Hat, Hinit, Hc', Hs', Hn', Hr', Hcl'.
  destruct Hready as (_ & _ & _ & _ & _ & Hc & Hs).
  pose proof Hat as (Hdone & Hexc & _ & _ & HP & _ & Hpt & Hst & _).
  rewrite Hsz, Hch in HP, Hst. fold parts in HP.
  destruct (uploadChunk_first_accepted E fuel Hfuel3 k st1 current later o rest Hat
              ltac:(rewrite HP; exact Hk) Hnr1 Hr1 Hn1 Hacc)
    as (x1 & Hn2 & Hs2 & Hr2 & Hf2 & Hrun).
  assert (Hcalc : calculateTransferredSize (body_of o)
                    (partSize_of E k (chunkSize (c st1)) (Size (Status (c st1))))
                    (Status (c st1)) = Val (v, Some e)).
  { unfold calculateTransferredSize.
    destruct (String.eqb_spec (body_of o) "") as [|_]; [contradiction|]. exact Hparse. }
  rewrite Hcalc in Hrun.
  assert (Hend : exists st2,
            uploadChunk E fuel k st1 = (Val tt, st2)
            /\ Status (c st2) = set_TransferredException true (set_IsDone true (Status (c st1)))
            /\ sent (w st2) = sent x1 /\ net (w st2) = net x1 /\ reads (w st2) = reads x1).
  { rewrite Hrun. cbv [bind lift checkError uploadDone ret update log fst snd c w negb].
    eexists. split; [reflexivity|]. repeat split. }
  destruct Hend as (st2 & Hrun2 & Hst2 & Hs3 & Hn3 & Hr3).
  assert (Hlast : uploadFile_loop E fuel (S n) k st1 = (Val tt, st2)).
  { apply uploadFile_loop_ends; [exact Hdone|exact Hrun2|]. rewrite Hst2. reflexivity. }
  rewrite Hlast in Hinit, Hc', Hs', Hn', Hr', Hcl'. cbn [fst snd] in *.
  subst run. rewrite Hinit. cbn [fst snd].
  split; [reflexivity|]. rewrite Hc', Hs', Hn', Hr', Hst2, Hs3, Hr3, Hn3, Hs2, Hr2, Hn2.
  split.
  { pose proof (ceil_div_gt size (chunkSize u) k ltac:(lia) Hk) as Hlt.
    destruct (Status (c st1)) as [sz st pa pt dn te]. cbn in *. subst sz st pa pt dn te.
    unfold set_TransferredException, set_IsDone. cbn. f_equal. lia. }
  split.
  { match goal with
    | |- map req_body ?l = _ =>
        assert (Hsent : l = sent w0 ++ traffic E (with_Status (set_Size size) u) 0
                              (zip (map length segs) chunks ++ [(1%nat, current)]))
    end.
    { rewrite Hs1, traffic_snoc, <- app_assoc, Z.add_0_l, Hrq.
      rewrite length_zip_with, length_map. replace (length segs `min` length chunks)%nat
        with (length segs) by lia. reflexivity. }
    rewrite Hsent, map_app, traffic_bodies. reflexivity. }
  split; reflexivity.
Qed.

(** When the server accepts a chunk with a body that is not empty and has
    no '-' before its first '/', [Init] panics, whatever went before: the
    chunk is not recorded, the status is left neither done nor failed, and
    the file that was opened is closed on the way out. *)
Theorem Init_panics_when_range_has_no_dash
    (E : Env) (fuel : nat) (u : UploadData) (w0 : World) (size : Z)
    (chunks : list (list Byte.byte)) (segs : list (list DoOutcome))
    (current : list Byte.byte) (later : list (list Byte.byte * error))
    (o : DoOutcome) (rest : list DoOutcome) :
  let parts := ceil_div size (chunkSize u) in
  let k := Z.of_nat (length segs) in
  let run := Init E fuel {| c := u; w := w0 |} in
  ready u w0 size -> NewRequest_err E (method u) (url u) = None ->
  k < parts -> length chunks = length segs ->
  Forall (fun seg => accepted_after seg = true) segs ->
  reads w0 = map (fun b => (b, None)) chunks ++ (current, None) :: later ->
  net w0 = concat segs ++ o :: rest ->
  accepted o = true -> body_of o <> "" ->
  occurs "-" (hd "" (Split (body_of o) "/")) = false ->
  (3 <= fuel)%nat -> (length segs < fuel)%nat ->
  run.1 = Panic
  /\ Status (c run.2)
     = {| Size := size; SizeTransferred := k * chunkSize u; Parts := parts;
          PartsTransferred := k; IsDone := false;
          TransferredException := false |}
  /\ closed (w run.2) = closed w0 ++ opened u w0.
Proof.
  intros parts k run Hready Hnr Hk Hlen Hall Hreads Hnet Hacc Hbody Hdash Hfuel3 Hfuel.
  destruct (Init_prefix E fuel Hfuel3 u w0 size chunks segs _ (o :: rest)
              Hready Hnr ltac:(fold parts; fold k; lia) Hlen Hall Hreads Hnet Hfuel)
    as (st1 & st' & n & Hinit & Hat & Hsz & Hch & Hnr1 & Hrq & Hr1 & Hn1 & Hs1 & Hcl1
        & Hc' & Hs' & Hn' & Hr' & Hcl').
  cbv zeta in Hinit, Hc', Hs', Hn', Hr', Hcl'. fold k in Hat, Hinit, Hc', Hs', Hn', Hr', Hcl'.
  destruct Hready as (_ & _ & _ & _ & _ & Hc & Hs).
  pose proof Hat as (Hdone & Hexc & _ & _ & HP & _ & Hpt & Hst & _).
  rewrite Hsz, Hch in HP, Hst. fold parts in HP.
  destruct (uploadChunk_first_accepted E fuel Hfuel3 k st1 current later o rest Hat
              ltac:(rewrite HP; exact Hk) Hnr1 Hr1 Hn1 Hacc)
    as (x1 & Hn2 & Hs2 & Hr2 & Hf2 & Hrun).
  assert (Hcalc : calculateTransferredSize (body_of o)
                    (partSize_of E k (chunkSize (c st1)) (Size (Status (c st1))))
                    (Status (c st1)) = Panic).
  { unfold calculateTransferredSize.
    destruct (String.eqb_spec (body_of o) "") as [|_]; [contradiction|].
    apply parseBody_range_no_dash. exact Hdash. }
  rewrite Hcalc in Hrun.
  assert (Hend : uploadChunk E fuel k st1 = (Panic, {| c := c st1; w := x1 |})).
  { rewrite Hrun. reflexivity. }
  assert (Hlast : uploadFile_loop E fuel (S n) k st1 = (Panic, {| c := c st1; w := x1 |})).
  { cbn [uploadFile_loop]. unfold bind at 1. unfold get at 1. rewrite Hdone.
    cbn [negb]. unfold bind at 1. rewrite Hend. reflexivity. }
  rewrite Hlast in Hinit, Hc', Hs', Hn', Hr', Hcl'. cbn [fst snd c w] in *.
  subst run. rewrite Hinit. cbn [fst snd].
  split; [reflexivity|]. rewrite Hc', Hcl'.
  split.
  { pose proof (ceil_div_gt size (chunkSize u) k ltac:(lia) Hk) as Hlt.
    destruct (Status (c st1)) as [sz st pa pt dn te]. cbn in *. subst sz st pa pt dn te.
    f_equal. lia. }
  destruct Hf2 as (_ & _ & _ & ->). rewrite Hcl1. reflexivity.
Qed.

(** ** The size of a part, again *)

(** For sizes below [2^53], every part below the part count has the size of
    a chunk, except the last, which has what is left of the payload; no
    part is empty. *)
Theorem part_size_within_payload (E : Env) (i chunk size : Z) :
  0 < chunk < 2 ^ 53 -> 0 <= size < 2 ^ 53 -> 0 <= i < ceil_div size chunk ->
  partSize_of E i chunk size = Z.min chunk (size - i * chunk)
  /\ 0 < partSize_of E i chunk size <= chunk
  /\ (i < ceil_div size chunk - 1 -> partSize_of E i chunk size = chunk)
  /\ (i = ceil_div size chunk - 1 -> partSize_of E i chunk size = size - i * chunk).
Proof.
  intros Hc Hs Hi.
  assert (H53 : 2 ^ 53 < two63) by (unfold two63; lia).
  pose proof (ceil_div_gt size chunk i ltac:(lia) ltac:(lia)) as Hlt.
  rewrite (partSize_of_exact E i chunk size Hc ltac:(lia) Hlt ltac:(lia)).
  split; [reflexivity|]. split; [lia|]. split.
  - intros Hi1. pose proof (ceil_div_gt size chunk (i + 1) ltac:(lia) ltac:(lia)). lia.
  - intros Hi1. pose proof (ceil_div_ge size chunk ltac:(lia)) as Hge.
    rewrite <- (Z.sub_add 1 (ceil_div size chunk)), <- Hi1 in Hge. lia.
Qed.

(** The third part of 250 bytes in chunks of 100 has 50 bytes. *)
Lemma part_size_within_payload_witness :
  partSize_of sample_env 2 100 250 = Z.min 100 (250 - 2 * 100)
  /\ 0 < partSize_of sample_env 2 100 250 <= 100
  /\ (2 < ceil_div 250 100 - 1 -> partSize_of sample_env 2 100 250 = 100)
  /\ (2 = ceil_div 250 100 - 1 -> partSize_of sample_env 2 100 250 = 250 - 2 * 100).
Proof.
  apply (part_size_within_payload sample_env 2 100 250); [lia|lia|].
  change (ceil_div 250 100) with 3. lia.
Defined.

(** ** Sample runs *)

(** The sample upload against a server that fails twice before it accepts
    the first chunk: three parts, five requests. *)
Lemma upload_succeeds_witness :
  let run :=
    Init sample_env 4
      {| c := sample_uploader;
         w := sample_world sample_chunks
                [DoResp 500 (inr "busy"); DoErr (ErrOther "connection reset");
                 DoResp 200 (inr ""); DoResp 201 (inr ""); DoResp 200 (inr "")] |} in
  run.1 = Val None
  /\ Status (c run.2)
     = {| Size := 250; SizeTransferred := 250; Parts := 3;
          PartsTransferred := 3; IsDone := true;
          TransferredException := false |}
  /\ map req_body (sent (w run.2))
     = [] ++ payloads
               (zip [3%nat; 1%nat; 1%nat] sample_chunks)
  /\ reads (w run.2) = [] /\ net (w run.2) = []
  /\ closed (w run.2) = [] ++ [].
Proof.
  apply (upload_succeeds sample_env 4 sample_uploader
           (sample_world sample_chunks
              [DoResp 500 (inr "busy"); DoErr (ErrOther "connection reset");
               DoResp 200 (inr ""); DoResp 201 (inr ""); DoResp 200 (inr "")])
           250 sample_chunks
           [[DoResp 500 (inr "busy"); DoErr (ErrOther "connection reset");
             DoResp 200 (inr "")]; [DoResp 201 (inr "")]; [DoResp 200 (inr "")]]
           [] []).
  - split; [left; repeat split; discriminate|repeat split; simpl; lia].
  - reflexivity.
  - reflexivity.
  - reflexivity.
  - repeat constructor.
  - reflexivity.
  - reflexivity.
  - lia.
  - simpl. lia.
Defined.

(** The sample upload against a server that answers 500 to everything:
    three attempts for the first chunk, then the end. *)
Lemma upload_fails_after_three_attempts_witness :
  let run :=
    Init sample_env 4
      {| c := sample_uploader;
         w := sample_world sample_chunks
                [DoResp 500 (inr ""); DoResp 500 (inr ""); DoResp 500 (inr "");
                 DoResp 500 (inr ""); DoResp 500 (inr "")] |} in
  run.1 = Val None
  /\ Status (c run.2)
     = {| Size := 250; SizeTransferred := 0 * 100; Parts := 3;
          PartsTransferred := 0; IsDone := true;
          TransferredException := true |}
  /\ map req_body (sent (w run.2))
     = [] ++ payloads
               ([] ++ [(3%nat, replicate 100 Byte.x00)])
  /\ reads (w run.2) = [(replicate 100 Byte.x00, None); (replicate 50 Byte.x00, None)]
  /\ net (w run.2) = [DoResp 500 (inr ""); DoResp 500 (inr "")]
  /\ closed (w run.2) = [] ++ [].
Proof.
  apply (upload_fails_after_three_attempts sample_env 4 sample_uploader
           (sample_world sample_chunks
              [DoResp 500 (inr ""); DoResp 500 (inr ""); DoResp 500 (inr "");
               DoResp 500 (inr ""); DoResp 500 (inr "")])
           250 [] [] (replicate 100 Byte.x00)
           [(replicate 100 Byte.x00, None); (replicate 50 Byte.x00, None)]
           [DoResp 500 (inr ""); DoResp 500 (inr ""); DoResp 500 (inr "");
            DoResp 500 (inr ""); DoResp 500 (inr "")]).
  - split; [left; repeat split; discriminate|repeat split; simpl; lia].
  - reflexivity.
  - change (ceil_div 250 (chunkSize sample_uploader)) with 3. simpl. lia.
  - reflexivity.
  - constructor.
  - reflexivity.
  - reflexivity.
  - reflexivity.
  - lia.
  - simpl. lia.
Defined.

(** The sample upload from a reader that ends after the first chunk. *)
Lemma upload_fails_when_read_fails_witness :
  let run :=
    Init sample_env 4
      {| c := sample_uploader;
         w := sample_world [replicate 100 Byte.x00]
                [DoResp 200 (inr ""); DoResp 200 (inr ""); DoResp 200 (inr "")] |} in
  run.1 = Val None
  /\ Status (c run.2)
     = {| Size := 250; SizeTransferred := 1 * 100; Parts := 3;
          PartsTransferred := 1; IsDone := true;
          TransferredException := true |}
  /\ map req_body (sent (w run.2))
     = [] ++ payloads
               (zip [1%nat] [replicate 100 Byte.x00])
  /\ reads (w run.2) = []
  /\ net (w run.2) = [DoResp 200 (inr ""); DoResp 200 (inr "")]
  /\ closed (w run.2) = [] ++ [].
Proof.
  apply (upload_fails_when_read_fails sample_env 4 sample_uploader
           (sample_world [replicate 100 Byte.x00]
              [DoResp 200 (inr ""); DoResp 200 (inr ""); DoResp 200 (inr "")])
           250 [replicate 100 Byte.x00] [[DoResp 200 (inr "")]] []
           [DoResp 200 (inr ""); DoResp 200 (inr "")]).
  - split; [left; repeat split; discriminate|repeat split; simpl; lia].
  - reflexivity.
  - change (ceil_div 250 (chunkSize sample_uploader)) with 3. simpl. lia.
  - reflexivity.
  - repeat constructor.
  - reflexivity.
  - left. reflexivity.
  - reflexivity.
  - lia.
  - simpl. lia.
Defined.

(** The sample upload against a server that is down. *)
Lemma Init_sends_chunks_in_order_witness :
  let run :=
    Init sample_env 4
      {| c := sample_uploader; w := sample_world sample_chunks [] |} in
  exists (attempts : list (nat * list Byte.byte)) (n : nat),
    map req_body (sent (w run.2)) = [] ++ payloads attempts
    /\ Forall (fun a => (a.1 <= 3)%nat) attempts
    /\ Z.of_nat (length attempts) <= Parts (Status (c run.2))
    /\ Z.of_nat (length (sent (w run.2)))
       <= Z.of_nat (length (@nil Request)) + 3 * Parts (Status (c run.2))
    /\ reads (w run.2) = drop n (map (fun b => (b, None)) sample_chunks)
    /\ delivered attempts `sublist_of` take n (map (fun b => (b, None)) sample_chunks).
Proof.
  apply (Init_sends_chunks_in_order sample_env 4 sample_uploader
           (sample_world sample_chunks [])).
  simpl. lia.
Defined.

(** The upload of the sample file: the file is closed, once. *)
Lemma Init_closes_what_it_opened_witness :
  closed (w (Init sample_env 4
               {| c := sample_file_uploader;
                  w := sample_file_world sample_chunks
                         [DoResp 200 (inr ""); DoResp 200 (inr "");
                          DoResp 200 (inr "")] |}).2)
  = [] ++ ["payload.bin"].
Proof.
  apply (Init_closes_what_it_opened sample_env 4 sample_file_uploader
           (sample_file_world sample_chunks
              [DoResp 200 (inr ""); DoResp 200 (inr ""); DoResp 200 (inr "")])).
  vm_compute. discriminate.
Defined.

(** The sample upload against a server that accepts the first chunk only. *)
Lemma parts_transferred_climbs_within_parts_witness :
  let l :=
    reads_of
      (Init sample_env 4
         {| c := sample_uploader;
            w := sample_world sample_chunks [DoResp 200 (inr "")] |}).2 in
  Forall parts_within l /\ climbing l.
Proof.
  apply (parts_transferred_climbs_within_parts sample_env 4 sample_uploader
           (sample_world sample_chunks [DoResp 200 (inr "")])).
  - reflexivity.
  - simpl. lia.
  - reflexivity.
Defined.

(** The sample upload with a chunk size of 0. *)
Lemma nothing_sent_without_chunk_size_witness :
  let run :=
    Init sample_env 4
      {| c := NewUploaderFromReader "POST" "http://host/upload" true 250 None 0
                "0123456789ABCDEF";
         w := sample_world sample_chunks [DoResp 200 (inr "")] |} in
  sent (w run.2) = [] /\ reads (w run.2) = map (fun b => (b, None)) sample_chunks
  /\ net (w run.2) = [DoResp 200 (inr "")]
  /\ SizeTransferred (Status (c run.2)) = 0
  /\ PartsTransferred (Status (c run.2)) = 0
  /\ run.1 <> Panic
  /\ (run.1 = Val None ->
      IsDone (Status (c run.2)) = true
      /\ TransferredException (Status (c run.2)) = false).
Proof.
  apply (nothing_sent_without_chunk_size sample_env 4
           (NewUploaderFromReader "POST" "http://host/upload" true 250 None 0
              "0123456789ABCDEF")
           (sample_world sample_chunks [DoResp 200 (inr "")])).
  - simpl. lia.
  - unfold is_int64, two63. simpl. lia.
  - reflexivity.
  - reflexivity.
Defined.

(** The sample upload with a method that [http.NewRequest] refuses. *)
Lemma upload_fails_when_request_refused_witness :
  let run :=
    Init strict_env 4
      {| c := NewUploaderFromReader "P OST" "http://host/upload" true 250 None 100
                "0123456789ABCDEF";
         w := sample_world sample_chunks [DoResp 200 (inr "")] |} in
  run.1 = Val None
  /\ Status (c run.2)
     = {| Size := 250; SizeTransferred := 0; Parts := ceil_div 250 100;
          PartsTransferred := 0; IsDone := true; TransferredException := true |}
  /\ sent (w run.2) = [] /\ net (w run.2) = [DoResp 200 (inr "")]
  /\ reads (w run.2)
     = [(replicate 100 Byte.x00, None); (replicate 50 Byte.x00, None)].
Proof.
  apply (upload_fails_when_request_refused strict_env 4
           (NewUploaderFromReader "P OST" "http://host/upload" true 250 None 100
              "0123456789ABCDEF")
           (sample_world sample_chunks [DoResp 200 (inr "")]) 250
           "net/http: invalid method" (replicate 100 Byte.x00)
           [(replicate 100 Byte.x00, None); (replicate 50 Byte.x00, None)]).
  - split; [left; repeat split; discriminate|repeat split; simpl; lia].
  - lia.
  - reflexivity.
  - reflexivity.
  - lia.
Defined.

(** The sample upload from a nil reader. *)
Lemma Init_panics_on_nil_reader_witness :
  let run :=
    Init sample_env 4
      {| c := NewUploaderFromReader "POST" "http://host/upload" false 250 None 100
                "0123456789ABCDEF";
         w := sample_world sample_chunks [DoResp 200 (inr "")] |} in
  run.1 = Panic
  /\ sent (w run.2) = [] /\ reads (w run.2) = map (fun b => (b, None)) sample_chunks
  /\ IsDone (Status (c run.2)) = false
  /\ TransferredException (Status (c run.2)) = false.
Proof.
  apply (Init_panics_on_nil_reader sample_env 4
           (NewUploaderFromReader "POST" "http://host/upload" false 250 None 100
              "0123456789ABCDEF")
           (sample_world sample_chunks [DoResp 200 (inr "")])).
  - reflexivity.
  - reflexivity.
  - reflexivity.
  - reflexivity.
  - simpl. lia.
  - simpl. lia.
  - lia.
Defined.

(** [Init] once more on the sample uploader after it is done. *)
Lemma Init_again_sends_nothing_witness :
  let run :=
    Init sample_env 4
      {| c := with_Status (set_IsDone true) sample_uploader;
         w := sample_world sample_chunks [DoResp 200 (inr "")] |} in
  sent (w run.2) = [] /\ reads (w run.2) = map (fun b => (b, None)) sample_chunks
  /\ net (w run.2) = [DoResp 200 (inr "")]
  /\ SizeTransferred (Status (c run.2)) = 0
  /\ PartsTransferred (Status (c run.2)) = 0
  /\ IsDone (Status (c run.2)) = true
  /\ (exists r, run.1 = Val r)
  /\ (@eq string "" "" ->
      run.1 = Val None /\ TransferredException (Status (c run.2)) = false).
Proof.
  apply (Init_again_sends_nothing sample_env 4
           (with_Status (set_IsDone true) sample_uploader)
           (sample_world sample_chunks [DoResp 200 (inr "")])).
  reflexivity.
Defined.

(** The sample upload against a server that takes the first chunk and
    answers the second with a range whose end is not a number. *)
Lemma upload_fails_when_range_end_unparsable_witness :
  let run :=
    Init sample_env 4
      {| c := sample_uploader;
         w := sample_world sample_chunks
                [DoResp 200 (inr ""); DoResp 200 (inr "100-x/250");
                 DoResp 200 (inr "")] |} in
  run.1 = Val None
  /\ Status (c run.2)
     = {| Size := 250; SizeTransferred := 1 * 100; Parts := 3;
          PartsTransferred := 1; IsDone := true;
          TransferredException := true |}
  /\ map req_body (sent (w run.2))
     = [] ++ payloads
               ([(1%nat, replicate 100 Byte.x00)] ++ [(1%nat, replicate 100 Byte.x00)])
  /\ reads (w run.2) = [(replicate 50 Byte.x00, None)]
  /\ net (w run.2) = [DoResp 200 (inr "")].
Proof.
  apply (upload_fails_when_range_end_unparsable sample_env 4 sample_uploader
           (sample_world sample_chunks
              [DoResp 200 (inr ""); DoResp 200 (inr "100-x/250"); DoResp 200 (inr "")])
           250 [replicate 100 Byte.x00] [[DoResp 200 (inr "")]]
           (replicate 100 Byte.x00) [(replicate 50 Byte.x00, None)]
           (DoResp 200 (inr "100-x/250")) [DoResp 200 (inr "")] 0 ErrSyntax).
  - split; [left; repeat split; discriminate|repeat split; simpl; lia].
  - reflexivity.
  - change (ceil_div 250 (chunkSize sample_uploader)) with 3. simpl. lia.
  - reflexivity.
  - constructor; [reflexivity|constructor].
  - reflexivity.
  - reflexivity.
  - reflexivity.
  - discriminate.
  - reflexivity.
  - lia.
  - simpl. lia.
Defined.

(** The upload of "payload.bin" against a server that takes the first chunk
    and answers the second with a body that is no range at all: [Init]
    panics, and the file is closed. *)
Lemma Init_panics_when_range_has_no_dash_witness :
  let run :=
    Init sample_env 4
      {| c := sample_file_uploader;
         w := sample_file_world sample_chunks
                [DoResp 200 (inr ""); DoResp 200 (inr "ok"); DoResp 200 (inr "")] |} in
  run.1 = Panic
  /\ Status (c run.2)
     = {| Size := 250; SizeTransferred := 1 * 100; Parts := 3;
          PartsTransferred := 1; IsDone := false;
          TransferredException := false |}
  /\ closed (w run.2)
     = [] ++ opened sample_file_uploader
               (sample_file_world sample_chunks
                  [DoResp 200 (inr ""); DoResp 200 (inr "ok"); DoResp 200 (inr "")]).
Proof.
  apply (Init_panics_when_range_has_no_dash sample_env 4 sample_file_uploader
           (sample_file_world sample_chunks
              [DoResp 200 (inr ""); DoResp 200 (inr "ok"); DoResp 200 (inr "")])
           250 [replicate 100 Byte.x00] [[DoResp 200 (inr "")]]
           (replicate 100 Byte.x00) [(replicate 50 Byte.x00, None)]
           (DoResp 200 (inr "ok")) [DoResp 200 (inr "")]).
  - split; [right; repeat split; discriminate|repeat split; simpl; lia].
  - reflexivity.
  - change (ceil_div 250 (chunkSize sample_file_uploader)) with 3. simpl. lia.
  - reflexivity.
  - constructor; [reflexivity|constructor].
  - reflexivity.
  - reflexivity.
  - reflexivity.
  - discriminate.
  - reflexivity.
  - lia.
  - simpl. lia.
Defined.
